(** * Shift generation and compliance engine: a shallow embedding

    The development follows the Python sources:
    - [models/shift.py] and the columns read from [models/user.py]
      (module [Models]); the roles and permissions of [models/user.py]
      (module [Permissions]),
    - [models/shift_revision.py] (module [ShiftRevision]),
    - [models/shift_request.py] (modules [ShiftRequest] and
      [ShiftRequestMethods]),
    - [config.py] (module [Config]),
    - the arithmetic of Python's [float] (module [Double]),
    - [utils/labor_law.py] (module [LaborLaw]),
    - [services/shift_approval.py] (modules [Approval] and [Workflow]),
    - [services/shift_optimizer.py] (modules [Optimizer] and [Planning]).
    The definitions come first; the modules whose names end in [Facts]
    hold the properties.

    Conventions.  Python integers are [Z].  A float is an IEEE 754
    double (module [Double]): a finite double is held as the rational it
    denotes, in canonical form ([Qc]), and every sum is rounded to the
    nearest double, ties to even, as the hardware rounds it.  The quotient
    [duration_minutes / 60.0] of [get_duration_hours] is held exactly
    ([Models.get_duration_hours]) and rounded where it enters a sum
    ([LaborLaw.duration]); comparing the exact quotient with an integer
    gives what comparing the double gives ([RuleFacts.duration_over_iff]).
    A [datetime.date] is its proleptic Gregorian ordinal
    ([date.toordinal()]), so that adding [timedelta(days=1)] is [+ 1] and
    the order on dates is the order on [Z]; the bounds of [date] (years 1
    to 9999) are not modelled.  A [datetime.time] is its
    [hour] and [minute] attributes, the only ones the code reads.  A
    [datetime.datetime] stamp is an opaque [Z]. *)

From Stdlib Require Import ZArith QArith Qcanon Qround Qpower Lia.
From stdpp Require Import base decidable option list numbers strings gmap sorting.

Local Open Scope Z_scope.

(** ** Calendar: the part of [datetime.date] that the sources use *)
Module Calendar.

Definition Date := Z.

(** [_ord2ymd(n)[0]]: the year of the date whose ordinal is [n]. *)
Definition year (d : Date) : Z :=
  let n := d - 1 in
  let n400 := n / 146097 in
  let n := n mod 146097 in
  let n100 := n / 36524 in
  let n := n mod 36524 in
  let n4 := n / 1461 in
  let n := n mod 1461 in
  let n1 := n / 365 in
  let y := n400 * 400 + 1 + n100 * 100 + n4 * 4 + n1 in
  if decide (n1 = 4 ∨ n100 = 4) then y - 1 else y.

(** [_days_before_year(y) + 1]: the ordinal of 1 January of year [y]. *)
Definition first_of_year (y : Z) : Date :=
  let p := y - 1 in
  p * 365 + p / 4 - p / 100 + p / 400 + 1.

(** [date.weekday()]: Monday is 0. *)
Definition weekday (d : Date) : Z := (d + 6) mod 7.

(** [_isoweek1monday(y)]: the Monday that starts ISO week 1 of [y]. *)
Definition isoweek1monday (y : Z) : Date :=
  let firstday := first_of_year y in
  let firstweekday := (firstday + 6) mod 7 in
  let week1monday := firstday - firstweekday in
  if decide (3 < firstweekday) then week1monday + 7 else week1monday.

(** [date.isocalendar()[1]]: the ISO week number. *)
Definition iso_week (d : Date) : Z :=
  let y := year d in
  let week := (d - isoweek1monday y) / 7 in
  if decide (week < 0) then (d - isoweek1monday (y - 1)) / 7 + 1
  else if decide (52 ≤ week ∧ isoweek1monday (y + 1) ≤ d) then 1
  else week + 1.

End Calendar.

(** ** The data model *)
Module Models.
Import Calendar.

(** [models/shift.py], [ShiftStatus]. *)
Inductive ShiftStatus :=
| DRAFT | ADJUSTING | ADJUSTED | PENDING | APPROVED | PUBLISHED | REJECTED.

#[global] Instance ShiftStatus_eq_dec : EqDecision ShiftStatus.
Proof. solve_decision. Defined.

Record Time := mkTime { hour : Z; minute : Z }.

#[global] Instance Time_eq_dec : EqDecision Time.
Proof. solve_decision. Defined.

(** The values a [datetime.time] can hold. *)
Definition valid_time (t : Time) : Prop :=
  0 ≤ hour t < 24 ∧ 0 ≤ minute t < 60.

(** The columns of [models/user.py] that the engine reads. *)
Record User := mkUser { uid : Z; name : string; is_active : bool }.

(** [models/shift.py], [Shift].  The primary key [id] is the key under
    which a row is stored (see [Approval.Store]); a shift that is not
    stored has none.  [user] is the relationship loaded through
    [user_id]; it is [None] when no row is attached. *)
Record Shift := mkShift {
  group_id : string;
  user_id : Z;
  date : Calendar.Date;
  start_time : option Time;
  end_time : option Time;
  status : ShiftStatus;
  version : Z;
  created_by : Z;
  created_at : Z;
  adjusted_by : option Z;
  adjusted_at : option Z;
  approved_by : option Z;
  approved_at : option Z;
  published_by : option Z;
  published_at : option Z;
  rejected_by : option Z;
  rejected_at : option Z;
  rejection_reason : option string;
  user : option User
}.

(** Assignments to single attributes of a shift. *)
Definition set_user_id (v : Z) (s : Shift) : Shift :=
  let 'mkShift a _ c d e f g h i j k l m n o p q r t := s in
  mkShift a v c d e f g h i j k l m n o p q r t.
Definition set_start_time (v : option Time) (s : Shift) : Shift :=
  let 'mkShift a b c _ e f g h i j k l m n o p q r t := s in
  mkShift a b c v e f g h i j k l m n o p q r t.
Definition set_end_time (v : option Time) (s : Shift) : Shift :=
  let 'mkShift a b c d _ f g h i j k l m n o p q r t := s in
  mkShift a b c d v f g h i j k l m n o p q r t.
Definition set_status (v : ShiftStatus) (s : Shift) : Shift :=
  let 'mkShift a b c d e _ g h i j k l m n o p q r t := s in
  mkShift a b c d e v g h i j k l m n o p q r t.
Definition set_version (v : Z) (s : Shift) : Shift :=
  let 'mkShift a b c d e f _ h i j k l m n o p q r t := s in
  mkShift a b c d e f v h i j k l m n o p q r t.
Definition set_adjusted (by_ : Z) (at_ : Z) (s : Shift) : Shift :=
  let 'mkShift a b c d e f g h i _ _ l m n o p q r t := s in
  mkShift a b c d e f g h i (Some by_) (Some at_) l m n o p q r t.
Definition set_rejected (by_ : Z) (at_ : Z) (reason : string) (s : Shift)
    : Shift :=
  let 'mkShift a b c d e f g h i j k l m n o _ _ _ t := s in
  mkShift a b c d e f g h i j k l m n o (Some by_) (Some at_) (Some reason) t.

Definition can_publish (s : Shift) : bool :=
  bool_decide (status s = APPROVED).

Definition can_edit (s : Shift) : bool :=
  bool_decide (status s ∈ [DRAFT; ADJUSTING; ADJUSTED]).

Definition can_approve (s : Shift) : bool :=
  bool_decide (status s ∈ [ADJUSTED; PENDING]).

Definition can_reject (s : Shift) : bool :=
  bool_decide (status s ∈ [ADJUSTING; ADJUSTED; PENDING; APPROVED]).

Definition is_published (s : Shift) : bool :=
  bool_decide (status s = PUBLISHED).

(** An integer used where a float is expected. *)
Definition Z2Qc (z : Z) : Qc := Q2Qc (inject_Z z).

(** Minutes since midnight, [t.hour * 60 + t.minute]. *)
Definition minutes_of (t : Time) : Z := hour t * 60 + minute t.

(** [n / 60.0] for an integer number of minutes [n]. *)
Definition hours_of_minutes (n : Z) : Qc := Q2Qc (n # 60).

(** [Shift.get_duration_hours].  A time that is set is true whatever its
    value, midnight included; only a missing time fails the first test. *)
Definition get_duration_hours (s : Shift) : Qc :=
  match start_time s, end_time s with
  | Some st, Some en =>
      let start_minutes := minutes_of st in
      let end_minutes := minutes_of en in
      let end_minutes :=
        if decide (end_minutes < start_minutes)
        then end_minutes + 24 * 60 else end_minutes in
      let duration_minutes := end_minutes - start_minutes in
      hours_of_minutes duration_minutes
  | _, _ => 0%Qc
  end.

End Models.

(** ** Insertion-ordered dictionaries

    A Python [dict] iterates in insertion order, and the compliance rules
    report the first offending key in that order, so a dictionary is an
    association list in which every key occurs once. *)
Module Dict.
Section dict.
Context {K V : Type} `{EqDecision K}.

Definition dict := list (K * V).

(** [d.get(k)]; [None] where [d[k]] raises [KeyError]. *)
Fixpoint get (k : K) (d : dict) : option V :=
  match d with
  | [] => None
  | (k', v) :: d' => if decide (k = k') then Some v else get k d'
  end.

(** [d[k] = v]: an existing key keeps its position. *)
Fixpoint set (k : K) (v : V) (d : dict) : dict :=
  match d with
  | [] => [(k, v)]
  | (k', v') :: d' =>
      if decide (k = k') then (k, v) :: d' else (k', v') :: set k v d'
  end.

(** [k in d]. *)
Definition mem (k : K) (d : dict) : bool := bool_decide (is_Some (get k d)).
End dict.
Arguments dict : clear implicits.
End Dict.

(** ** Settings read from [config.py] *)
Module Config.
Record t := mk {
  MAX_WORK_HOURS_PER_DAY : Z;
  MAX_WORK_HOURS_PER_WEEK : Z;
  MIN_REST_TIME_6H : Z;
  MIN_REST_TIME_8H : Z;
  MAX_CONSECUTIVE_WORK_DAYS : Z;
  MAX_STAFF_PER_SHIFT : Z;
  MIN_STAFF_PER_SHIFT : Z
}.

(** The values used when the environment sets none. *)
Definition defaults : t := mk 8 40 45 60 6 10 2.
End Config.

(** ** Doubles: the arithmetic of Python's [float] *)
Module Double.
Import Models.

(** A double: a finite one is held as the rational it denotes (the two
    zeros are not told apart), the others are the infinities and the
    result of an undefined operation. *)
Inductive t := Finite (v : Qc) | PInf | NInf | NaN.

(** [2 ^ e] for any integer [e]. *)
Definition pow2 (e : Z) : Q := Qpower 2 e.

(** The integer [e] with [2^e <= x < 2^(e+1)], for [x > 0]. *)
Definition ilog2 (x : Q) : Z :=
  let e0 := Z.log2 (Qnum x) - Z.log2 (Zpos (Qden x)) in
  if Qle_bool (pow2 e0) x then e0 else e0 - 1.

(** The exponent of the last place of the doubles around [x]: 53 bits of
    precision, and no exponent below that of the subnormal numbers. *)
Definition cexp (x : Q) : Z := Z.max (ilog2 x - 52) (-1074).

(** The nearest integer, the even one of two that are equally near. *)
Definition rne (s : Q) : Z :=
  let f := Qfloor s in
  match Qcompare (s - inject_Z f) (1 # 2) with
  | Lt => f
  | Gt => f + 1
  | Eq => if Z.even f then f else f + 1
  end.

(** The multiple of [2 ^ cexp x] nearest to [x > 0]. *)
Definition nearest (x : Q) : Q :=
  let c := cexp x in (inject_Z (rne (x * pow2 (- c))) * pow2 c)%Q.

(** Rounding of [x > 0]: what reaches [2^1024] overflows. *)
Definition round_pos (x : Q) : t :=
  let y := nearest x in
  if Qle_bool (pow2 1024) y then PInf else Finite (Q2Qc y).

Definition opp (h : t) : t :=
  match h with
  | Finite v => Finite (- v)%Qc
  | PInf => NInf
  | NInf => PInf
  | NaN => NaN
  end.

(** The double nearest to a rational, ties to even: what an operation
    returns whose exact result is [x]. *)
Definition round (x : Qc) : t :=
  match Qcompare x 0 with
  | Eq => Finite 0%Qc
  | Gt => round_pos x
  | Lt => opp (round_pos (- x)%Qc)
  end.

(** [a + b]. *)
Definition add (a b : t) : t :=
  match a, b with
  | NaN, _ | _, NaN => NaN
  | PInf, NInf | NInf, PInf => NaN
  | PInf, _ | _, PInf => PInf
  | NInf, _ | _, NInf => NInf
  | Finite x, Finite y => round (x + y)%Qc
  end.

(** [h > n] for a double [h] and an integer [n]: Python compares the two
    exactly. *)
Definition gt_int (h : t) (n : Z) : Prop :=
  match h with
  | Finite v => (Z2Qc n < v)%Qc
  | PInf => True
  | NInf | NaN => False
  end.

#[global] Instance gt_int_dec h n : Decision (gt_int h n).
Proof. destruct h; simpl; apply _. Defined.

(** *** Reference notions *)

(** What [round] returns: a double, and not a rational between two. *)
Definition is_double (h : t) : Prop :=
  match h with Finite v => round v = Finite v | _ => True end.

(** [h >= q] for a rational [q]. *)
Definition ge_rat (h : t) (q : Qc) : Prop :=
  match h with
  | Finite v => (q <= v)%Qc
  | PInf => True
  | NInf | NaN => False
  end.
End Double.

(** ** The compliance checker, [utils/labor_law.py] *)
Module LaborLaw.
Import Calendar Models Config.

(** The text of [details] is kept as the data it is formatted from. *)
Inductive Details :=
| DailyDetails (d : Date) (hours : Double.t) (limit : Z)
| WeeklyDetails (week : Z * Z) (hours : Double.t) (limit : Z)
| RestDetails (d : Date) (hours : Qc) (rest_minutes : Z)
| ConsecutiveDetails (days : Z) (limit : Z).

(** [LaborLawViolation]; [v_user_id] and [v_user_name] are its attributes
    [user_id] and [user_name]. *)
Record LaborLawViolation := mkViolation {
  v_user_id : Z;
  v_user_name : string;
  violation_type : string;
  details : Details;
  severity : string
}.

(** The name shown for a shift without a user row. *)
Definition unknown_name : string := "不明".

Definition name_of (s : Shift) : string :=
  match user s with Some u => name u | None => unknown_name end.

(** The double that [shift.get_duration_hours()] returns: the quotient by
    [60.0], rounded. *)
Definition duration (shift : Shift) : Double.t :=
  Double.round (get_duration_hours shift).

(** The body of the grouping loops:
    [if key not in d: d[key] = 0] and then [d[key] += h].  The key is
    present when it is read, so the last branch is never taken; the
    integer 0 becomes [0.0] in the sum. *)
Definition add_hours {K} `{EqDecision K}
    (d : Dict.dict K Double.t) (key : K) (h : Double.t)
    : Dict.dict K Double.t :=
  let d := if Dict.mem key d then d else Dict.set key (Double.Finite 0) d in
  match Dict.get key d with
  | Some v => Dict.set key (Double.add v h) d
  | None => d
  end.

Definition group_hours {K} `{EqDecision K}
    (key : Shift → K) (user_shifts : list Shift) : Dict.dict K Double.t :=
  foldl (λ d shift, add_hours d (key shift) (duration shift))
        [] user_shifts.

(** [for k, hours in d.items(): if hours > limit: return ...]. *)
Fixpoint first_over {K} (limit : Z) (items : list (K * Double.t))
    : option (K * Double.t) :=
  match items with
  | [] => None
  | (k, hours) :: rest =>
      if decide (Double.gt_int hours limit) then Some (k, hours)
      else first_over limit rest
  end.

(** The key [f"{date.year}-W{date.isocalendar()[1]}"], as the pair it
    prints. *)
Definition week_key (d : Date) : Z * Z := (year d, iso_week d).

(** [sorted(user_shifts, key=lambda s: s.date)]: a stable sort, so shifts
    of one date keep their order. *)
Fixpoint insert_by_date (s : Shift) (l : list Shift) : list Shift :=
  match l with
  | [] => [s]
  | x :: r =>
      if decide (date s ≤ date x) then s :: l else x :: insert_by_date s r
  end.

Fixpoint sorted_by_date (l : list Shift) : list Shift :=
  match l with
  | [] => []
  | s :: r => insert_by_date s (sorted_by_date r)
  end.

Section checker.
Variable cfg : Config.t.
(** The order in which [set(...)] yields worker ids. *)
Variable set_iter : list Z → list Z.

Definition check_daily_work_hours
    (shifts : list Shift) (user_id : Z) (user_name : string)
    : option LaborLawViolation :=
  let user_shifts := filter (λ s, Models.user_id s = user_id) shifts in
  let daily_hours := group_hours date user_shifts in
  match first_over (MAX_WORK_HOURS_PER_DAY cfg) daily_hours with
  | Some (d, hours) =>
      Some (mkViolation user_id user_name "daily_hours_exceeded"
              (DailyDetails d hours (MAX_WORK_HOURS_PER_DAY cfg)) "critical")
  | None => None
  end.

Definition check_weekly_work_hours
    (shifts : list Shift) (user_id : Z) (user_name : string)
    : option LaborLawViolation :=
  let user_shifts := filter (λ s, Models.user_id s = user_id) shifts in
  let weekly_hours := group_hours (λ s, week_key (date s)) user_shifts in
  match first_over (MAX_WORK_HOURS_PER_WEEK cfg) weekly_hours with
  | Some (week, hours) =>
      Some (mkViolation user_id user_name "weekly_hours_exceeded"
              (WeeklyDetails week hours (MAX_WORK_HOURS_PER_WEEK cfg))
              "critical")
  | None => None
  end.

Definition check_rest_time (shift : Shift) : option LaborLawViolation :=
  let duration := get_duration_hours shift in
  if decide (Z2Qc 6 < duration ∧ duration ≤ Z2Qc 8)%Qc then
    Some (mkViolation (Models.user_id shift) (name_of shift)
            "rest_time_required" (RestDetails (date shift) duration 45)
            "warning")
  else if decide (Z2Qc 8 < duration)%Qc then
    Some (mkViolation (Models.user_id shift) (name_of shift)
            "rest_time_required" (RestDetails (date shift) duration 60)
            "warning")
  else None.

(** The loop over [sorted_shifts[1:]], with the two loop variables. *)
Fixpoint walk_days (user_id : Z) (user_name : string)
    (consecutive_days : Z) (prev_date : Date) (rest : list Shift)
    : option LaborLawViolation :=
  match rest with
  | [] => None
  | shift :: rest =>
      if decide (date shift = prev_date + 1) then
        let consecutive_days := consecutive_days + 1 in
        if decide (MAX_CONSECUTIVE_WORK_DAYS cfg < consecutive_days) then
          Some (mkViolation user_id user_name "consecutive_days_exceeded"
                  (ConsecutiveDetails consecutive_days
                     (MAX_CONSECUTIVE_WORK_DAYS cfg)) "critical")
        else walk_days user_id user_name consecutive_days (date shift) rest
      else walk_days user_id user_name 1 (date shift) rest
  end.

Definition check_consecutive_work_days
    (shifts : list Shift) (user_id : Z) (user_name : string)
    : option LaborLawViolation :=
  let user_shifts := filter (λ s, Models.user_id s = user_id) shifts in
  let sorted_shifts := sorted_by_date user_shifts in
  match sorted_shifts with
  | [] => None
  | first :: rest => walk_days user_id user_name 1 (date first) rest
  end.

(** [if violation: violations.append(violation)]. *)
Definition append_if (violations : list LaborLawViolation)
    (violation : option LaborLawViolation) : list LaborLawViolation :=
  match violation with
  | Some v => violations ++ [v]
  | None => violations
  end.

Definition check_all_violations (shifts : list Shift)
    : list LaborLawViolation :=
  let user_ids := set_iter (Models.user_id <$> shifts) in
  let violations :=
    foldl (λ violations user_id,
             let user_shifts :=
               filter (λ s, Models.user_id s = user_id) shifts in
             match user_shifts with
             | [] => violations
             | first :: _ =>
                 let user_name := name_of first in
                 let violations := append_if violations
                   (check_daily_work_hours shifts user_id user_name) in
                 let violations := append_if violations
                   (check_weekly_work_hours shifts user_id user_name) in
                 append_if violations
                   (check_consecutive_work_days shifts user_id user_name)
             end) [] user_ids in
  foldl (λ violations shift, append_if violations (check_rest_time shift))
        violations shifts.
End checker.

(** *** Reference notions the rules are compared with *)

(** The distinct keys of a list, in order of first appearance. *)
Definition first_occ {K} `{EqDecision K} (l : list K) : list K :=
  foldl (λ acc k, if decide (k ∈ acc) then acc else acc ++ [k]) [] l.

(** The hours of a list of shifts, added up exactly. *)
Definition sum_hours (l : list Shift) : Qc :=
  foldr (λ s acc, get_duration_hours s + acc)%Qc 0%Qc l.

(** The exact hours of the shifts of [l] that fall under key [k]. *)
Definition total {K} `{EqDecision K} (key : Shift → K) (k : K)
    (l : list Shift) : Qc :=
  sum_hours (filter (λ s, key s = k) l).

(** The hours of the shifts of [l] that fall under key [k] as the
    grouping loop adds them up: one after the other in list order, each
    sum rounded. *)
Definition accumulated {K} `{EqDecision K} (key : Shift → K) (k : K)
    (l : list Shift) : Double.t :=
  foldl Double.add (Double.Finite 0)
        (duration <$> filter (λ s, key s = k) l).

(** The Monday of the ISO week of a date: two dates are in the same ISO
    week when they have the same Monday. *)
Definition week_monday (d : Date) : Date := d - weekday d.

(** The violations reported for a date and for a week key. *)
Definition daily_violation (cfg : Config.t) (user_id : Z)
    (user_name : string) (mine : list Shift) (d : Date)
    : LaborLawViolation :=
  mkViolation user_id user_name "daily_hours_exceeded"
    (DailyDetails d (accumulated date d mine) (MAX_WORK_HOURS_PER_DAY cfg))
    "critical".

Definition weekly_violation (cfg : Config.t) (user_id : Z)
    (user_name : string) (mine : list Shift) (wk : Z * Z)
    : LaborLawViolation :=
  mkViolation user_id user_name "weekly_hours_exceeded"
    (WeeklyDetails wk (accumulated (λ s, week_key (date s)) wk mine)
       (MAX_WORK_HOURS_PER_WEEK cfg))
    "critical".

(** The streak after each date of an ascending list of dates: a date
    one day after the previous one extends the streak by one, any other
    date starts again at 1. *)
Fixpoint streaks_from (prev : Date) (streak : Z) (ds : list Date) : list Z :=
  match ds with
  | [] => []
  | d :: ds =>
      let streak := if decide (d = prev + 1) then streak + 1 else 1 in
      streak :: streaks_from d streak ds
  end.

Definition streaks (ds : list Date) : list Z :=
  match ds with
  | [] => []
  | d :: ds => 1 :: streaks_from d 1 ds
  end.

(** The violation reported for a streak of [n] days. *)
Definition consecutive_violation (cfg : Config.t) (user_id : Z)
    (user_name : string) (n : Z) : LaborLawViolation :=
  mkViolation user_id user_name "consecutive_days_exceeded"
    (ConsecutiveDetails n (MAX_CONSECUTIVE_WORK_DAYS cfg)) "critical".


(** What the three aggregated rules report for one worker. *)
Definition per_worker (cfg : Config.t) (shifts : list Shift) (user_id : Z)
    : list LaborLawViolation :=
  match filter (λ s, Models.user_id s = user_id) shifts with
  | [] => []
  | first :: _ =>
      option_list (check_daily_work_hours cfg shifts user_id (name_of first))
      ++ option_list
           (check_weekly_work_hours cfg shifts user_id (name_of first))
      ++ option_list
           (check_consecutive_work_days cfg shifts user_id (name_of first))
  end.

(** A list of violations is grouped by rule when the violations of each
    rule are next to each other. *)
Definition grouped_by_rule (vs : list LaborLawViolation) : Prop :=
  let rules := violation_type <$> vs in
  ∀ i j k ri rj rk, (i < j < k)%nat →
    rules !! i = Some ri → rules !! j = Some rj → rules !! k = Some rk →
    ri = rk → rj = ri.

End LaborLaw.

(** ** The revision ledger, [models/shift_revision.py] *)
Module ShiftRevision.
Import Models.

(** A value before [str()] turns it into text. *)
Inductive Value :=
| VInt (n : Z)
| VTime (t : Time).

Record t := mk {
  shift_id : Z;
  field_name : string;
  old_value : option Value;
  new_value : option Value;
  changed_by : Z;
  change_reason : option string
}.

(** [ShiftRevision.create_revision]: a value that is [None] stays
    [None], any other is kept as its text. *)
Definition create_revision (shift_id : Z) (field_name : string)
    (old_value new_value : option Value) (changed_by : Z)
    (reason : option string) : t :=
  mk shift_id field_name old_value new_value changed_by reason.
End ShiftRevision.

(** ** The approval workflow, [services/shift_approval.py]

    A database session is the pair of tables below; [shifts] is keyed by
    the primary key.  The operations return the boolean of the source and
    the tables as committed.  A session that fails (which the source turns
    into a [False] result after a rollback) and the audit log are outside
    the model.  [now] is the reading of [datetime.now()]. *)
Module Approval.
Import Models ShiftRevision.

Record Store := mkStore {
  shifts : gmap Z Shift;
  revisions : list ShiftRevision.t
}.

(** The argument [new_data]: a key that is absent is [None]; a key that
    is present holds a value of the column's type. *)
Record NewData := mkNewData {
  nd_user_id : option Z;
  nd_start_time : option Time;
  nd_end_time : option Time
}.

Definition adjust_shift (st : Store) (shift_id : Z) (new_data : NewData)
    (admin_id : Z) (reason : option string) (now : Z) : bool * Store :=
  match shifts st !! shift_id with
  | None => (false, st)
  | Some shift =>
      if negb (can_edit shift) then (false, st) else
      let revisions := [] in
      let '(revisions, shift) :=
        match nd_user_id new_data with
        | Some v =>
            if decide (v ≠ user_id shift) then
              (revisions ++
                 [create_revision shift_id "user_id"
                    (Some (VInt (user_id shift))) (Some (VInt v))
                    admin_id reason],
               set_user_id v shift)
            else (revisions, shift)
        | None => (revisions, shift)
        end in
      let '(revisions, shift) :=
        match nd_start_time new_data with
        | Some v =>
            if decide (Some v ≠ start_time shift) then
              (revisions ++
                 [create_revision shift_id "start_time"
                    (VTime <$> start_time shift) (Some (VTime v))
                    admin_id reason],
               set_start_time (Some v) shift)
            else (revisions, shift)
        | None => (revisions, shift)
        end in
      let '(revisions, shift) :=
        match nd_end_time new_data with
        | Some v =>
            if decide (Some v ≠ end_time shift) then
              (revisions ++
                 [create_revision shift_id "end_time"
                    (VTime <$> end_time shift) (Some (VTime v))
                    admin_id reason],
               set_end_time (Some v) shift)
            else (revisions, shift)
        | None => (revisions, shift)
        end in
      let shift := set_adjusted admin_id now shift in
      let shift := set_status ADJUSTED shift in
      let shift := set_version (version shift + 1) shift in
      (true, mkStore (<[shift_id := shift]> (shifts st))
               (Approval.revisions st ++ revisions))
  end.

(** The rows that the query of [reject_shifts] selects. *)
Definition reject_selected (group_id : string) (s : Shift) : bool :=
  bool_decide (Models.group_id s = group_id ∧
               status s ∈ [ADJUSTED; PENDING; APPROVED]).

(** [reject_shifts]: every selected row is reset, every other row is
    left as it is. *)
Definition reject_shifts (st : Store) (group_id : string)
    (rejecter_id : Z) (reason : string) (now : Z) : bool * Store :=
  let reject shift :=
    set_rejected rejecter_id now reason (set_status DRAFT shift) in
  (true,
   mkStore ((λ s, if reject_selected group_id s then reject s else s)
              <$> shifts st)
           (revisions st)).

(** *** Reference notions *)

(** Whether a value given for a tracked field differs from the old one. *)
Definition differs {A} `{EqDecision A} (new : option A) (old : A) : bool :=
  match new with
  | Some v => bool_decide (v ≠ old)
  | None => false
  end.

(** The tracked fields that an adjustment changes. *)
Definition changed_fields (shift : Shift) (new_data : NewData)
    : list string :=
  (if differs (nd_user_id new_data) (user_id shift)
   then ["user_id"] else []) ++
  (if differs (Some <$> nd_start_time new_data) (start_time shift)
   then ["start_time"] else []) ++
  (if differs (Some <$> nd_end_time new_data) (end_time shift)
   then ["end_time"] else []).
End Approval.

(** ** Availability requests, [models/shift_request.py] *)
Module ShiftRequest.
Import Calendar Models.

Inductive RequestStatus := PENDING | ACCEPTED | REJECTED | CANCELLED.

Record t := mk {
  id : Z;
  user_id : Z;
  date : Date;
  start_time : option Time;
  end_time : option Time;
  priority : Z;
  status : RequestStatus
}.
End ShiftRequest.

(** ** The optimizer, [services/shift_optimizer.py]

    The linear program is solved by an external library.  Its outcome, the
    status of the problem and the value of every variable, is a parameter
    of [create_shifts]: the objective and the constraints only reach the
    solver and are not modelled. *)
Module Optimizer.
Import Calendar Models.

(** The constants [pulp.LpStatus...]. *)
Inductive LpStatus :=
| LpStatusNotSolved | LpStatusOptimal | LpStatusInfeasible
| LpStatusUnbounded | LpStatusUndefined.

#[global] Instance LpStatus_eq_dec : EqDecision LpStatus.
Proof. solve_decision. Defined.

(** A binary variable, known by its name
    [f"shift_u{user.id}_d{date}_r{request.id}"]: two variables with the
    same name are not told apart. *)
Record LpVariable := mkVar {
  var_user : Z;
  var_date : Date;
  var_request : Z
}.

#[global] Instance LpVariable_eq_dec : EqDecision LpVariable.
Proof. solve_decision. Defined.

(** [_generate_date_range]: the loop runs once for each day from
    [start_date] to [end_date]. *)
Fixpoint date_range_loop (fuel : nat) (current end_date : Date)
    : list Date :=
  match fuel with
  | O => []
  | S fuel =>
      if decide (current ≤ end_date)
      then current :: date_range_loop fuel (current + 1) end_date
      else []
  end.

Definition _generate_date_range (start_date end_date : Date) : list Date :=
  date_range_loop (Z.to_nat (end_date - start_date + 1)) start_date end_date.

(** [shift_vars[user.id][date]] once the loop over [date_requests] has
    run. *)
Definition request_vars (user : User) (date : Date)
    (date_requests : list ShiftRequest.t) : Dict.dict Z LpVariable :=
  foldl (λ by_request request,
           let var := mkVar (uid user) date (ShiftRequest.id request) in
           Dict.set (ShiftRequest.id request) var by_request)
        [] date_requests.

(** [shift_vars[user.id]] once the loop over [date_range] has run. *)
Definition date_vars (user : User) (user_requests : list ShiftRequest.t)
    (date_range : list Date) : Dict.dict Date (Dict.dict Z LpVariable) :=
  foldl (λ by_date date,
           let date_requests :=
             filter (λ r, ShiftRequest.date r = date) user_requests in
           Dict.set date (request_vars user date date_requests) by_date)
        [] date_range.

(** [shift_vars] once the loop over [users] has run. *)
Definition build_shift_vars (users : list User)
    (shift_requests : list ShiftRequest.t) (date_range : list Date)
    : Dict.dict Z (Dict.dict Date (Dict.dict Z LpVariable)) :=
  foldl (λ shift_vars user,
           if negb (is_active user) then shift_vars else
           let user_requests :=
             filter (λ r, ShiftRequest.user_id r = uid user)
                    shift_requests in
           Dict.set (uid user) (date_vars user user_requests date_range)
                    shift_vars)
        [] users.

Section solved.
(** [prob.status] after [prob.solve]. *)
Variable solved_status : LpStatus.
(** [pulp.value(var)] after [prob.solve]. *)
Variable value : LpVariable → option Qc.

Variable shift_requests : list ShiftRequest.t.
Variable group_id : string.
Variable created_by : Z.
Variable now : Z.

(** The three nested loops that read the solution.  [None] stands for
    the [StopIteration] that [next] raises when no request has the id.
    The columns that the constructor [Shift(...)] is not given hold their
    defaults. *)
Definition collect_requests (user_id : Z) (date : Date)
    (created_shifts : option (list Shift))
    (items : list (Z * LpVariable)) : option (list Shift) :=
  foldl (λ created_shifts '(request_id, var),
           created_shifts ← created_shifts;
           if decide (value var = Some 1%Qc) then
             request ← head (filter (λ r, ShiftRequest.id r = request_id)
                                    shift_requests);
             let shift :=
               mkShift group_id user_id date
                 (ShiftRequest.start_time request)
                 (ShiftRequest.end_time request)
                 DRAFT 1 created_by now
                 None None None None None None None None None None in
             Some (created_shifts ++ [shift])
           else Some created_shifts)
        created_shifts items.

Definition collect_dates (user_id : Z)
    (created_shifts : option (list Shift))
    (by_date : Dict.dict Date (Dict.dict Z LpVariable))
    : option (list Shift) :=
  foldl (λ created_shifts '(date, by_request),
           collect_requests user_id date created_shifts by_request)
        created_shifts by_date.

Definition collect_users
    (shift_vars : Dict.dict Z (Dict.dict Date (Dict.dict Z LpVariable)))
    : option (list Shift) :=
  foldl (λ created_shifts '(user_id, by_date),
           collect_dates user_id created_shifts by_date)
        (Some []) shift_vars.

Definition create_shifts (start_date end_date : Date) (users : list User)
    : option (list Shift) :=
  let date_range := _generate_date_range start_date end_date in
  let shift_vars := build_shift_vars users shift_requests date_range in
  if decide (solved_status = LpStatusOptimal)
  then collect_users shift_vars
  else Some [].
End solved.

(** *** Reference notions *)

(** The decision variables, in the order in which they are read. *)
Definition decision_variables
    (shift_vars : Dict.dict Z (Dict.dict Date (Dict.dict Z LpVariable)))
    : list LpVariable :=
  p ← shift_vars; q ← p.2; q.2.*2.

(** The request a variable was made for. *)
Definition originates (r : ShiftRequest.t) (var : LpVariable) : Prop :=
  ShiftRequest.id r = var_request var ∧
  ShiftRequest.user_id r = var_user var ∧
  ShiftRequest.date r = var_date var.

(** A draft shift that copies a request. *)
Definition shift_from (group_id : string) (created_by now : Z)
    (r : ShiftRequest.t) : Shift :=
  mkShift group_id (ShiftRequest.user_id r) (ShiftRequest.date r)
    (ShiftRequest.start_time r) (ShiftRequest.end_time r)
    DRAFT 1 created_by now
    None None None None None None None None None None.

(** The shift that answers a variable: the copy of the request the
    variable was made for. *)
Definition answers (shift_requests : list ShiftRequest.t)
    (group_id : string) (created_by now : Z)
    (var : LpVariable) (shift : Shift) : Prop :=
  ∃ r, r ∈ shift_requests ∧ originates r var ∧
       shift = shift_from group_id created_by now r.

(** A variable the solver has set to 1. *)
Definition selected (value : LpVariable → option Qc) (var : LpVariable)
    : Prop :=
  value var = Some 1%Qc.

#[global] Instance selected_dec value var : Decision (selected value var).
Proof. unfold selected. apply _. Defined.

(** What holds of [shift_vars], level by level: the keys of a dictionary
    are distinct, a variable is stored under its own user, date and
    request id, and a request of that user and date with that id exists. *)
Definition request_entry_ok (shift_requests : list ShiftRequest.t)
    (u : Z) (d : Date) (p : Z * LpVariable) : Prop :=
  p.2 = mkVar u d p.1 ∧
  ∃ req, req ∈ shift_requests ∧ originates req p.2.

Definition requests_ok (shift_requests : list ShiftRequest.t)
    (u : Z) (d : Date) (by_request : Dict.dict Z LpVariable) : Prop :=
  NoDup by_request.*1 ∧
  Forall (request_entry_ok shift_requests u d) by_request.

Definition dates_ok (shift_requests : list ShiftRequest.t) (u : Z)
    (by_date : Dict.dict Date (Dict.dict Z LpVariable)) : Prop :=
  NoDup by_date.*1 ∧
  Forall (λ q, requests_ok shift_requests u q.1 q.2) by_date.

Definition shift_vars_ok (shift_requests : list ShiftRequest.t)
    (shift_vars : Dict.dict Z (Dict.dict Date (Dict.dict Z LpVariable)))
    : Prop :=
  NoDup shift_vars.*1 ∧
  Forall (λ p, dates_ok shift_requests p.1 p.2) shift_vars.
End Optimizer.

(** ** Concrete data used to exercise the definitions *)
Module Examples.
Import Calendar Models LaborLaw.

Definition shift_on (u : Z) (d : Date) (h1 m1 h2 m2 : Z) : Shift :=
  mkShift "2024-03-W10" u d (Some (mkTime h1 m1)) (Some (mkTime h2 m2))
    DRAFT 1 0 0 None None None None None None None None None None.

(** [n] shifts of worker [u] on successive days from [d0], each from
    [h1]:00 to [h2]:00. *)
Definition days_from (u : Z) (d0 : Date) (n : nat) (h1 h2 : Z) : list Shift :=
  (λ i, shift_on u (d0 + Z.of_nat i) h1 0 h2 0) <$> seq 0 n.

(** Monday 4 March 2024. *)
Definition monday : Date := 738949.

(** Two workers, each with five nine-hour days in one week. *)
Definition two_overworked : list Shift :=
  days_from 1 monday 5 9 18 ++ days_from 2 monday 5 9 18.

(** One worker on seven successive days. *)
Definition seven_days : list Shift := days_from 1 monday 7 9 17.

Definition night_shift : Shift := shift_on 1 monday 22 0 2 0.

(** A shift whose end time is not set. *)
Definition open_ended : Shift :=
  mkShift "2024-03-W10" 1 monday (Some (mkTime 9 0)) None
    DRAFT 1 0 0 None None None None None None None None None None.

(** A stored shift of group "g" in a given state. *)
Definition row (st : ShiftStatus) : Shift :=
  mkShift "g" 7 monday (Some (mkTime 9 0)) (Some (mkTime 17 0))
    st 1 1 0 None None None None None None None None None None.

(** A session with one row in each state a row can be in. *)
Definition one_of_each : Approval.Store :=
  Approval.mkStore
    (list_to_map [(1, row DRAFT); (2, row ADJUSTING); (3, row ADJUSTED);
                  (4, row PENDING); (5, row APPROVED); (6, row PUBLISHED)])
    [].

(** Two active workers with one request each for the same window. *)
Definition two_workers : list User :=
  [mkUser 1 "A" true; mkUser 2 "B" true].

Definition two_requests : list ShiftRequest.t :=
  [ShiftRequest.mk 11 1 monday (Some (mkTime 9 0)) (Some (mkTime 17 0)) 1
     ShiftRequest.PENDING;
   ShiftRequest.mk 12 2 monday (Some (mkTime 9 0)) (Some (mkTime 17 0)) 2
     ShiftRequest.PENDING].

(** A solution in which every variable is 1. *)
Definition all_selected (var : Optimizer.LpVariable) : option Qc :=
  Some 1%Qc.

(** An iteration order for a set of worker ids: first appearance. *)
Definition in_order_of_appearance (ids : list Z) : list Z := first_occ ids.

(** Monday 1 January 2024 and Monday 30 December 2024. *)
Definition new_year_2024 : Date := 738886.
Definition year_end_2024 : Date := 739250.

(** Eight hours on each of the first five days of 2024 and on 30 December
    2024, fifty-two weeks later. *)
Definition split_year : list Shift :=
  days_from 1 new_year_2024 5 9 17 ++ [shift_on 1 year_end_2024 9 0 17 0].

(** Eight hours on each of the six days from Monday 30 December 2024 to
    Saturday 4 January 2025: one ISO week. *)
Definition one_long_week : list Shift := days_from 1 year_end_2024 6 9 17.

(** An eight-hour day in three parts of 66, 368 and 46 minutes, and the
    same parts in another order. *)
Definition eight_hour_day : list Shift :=
  [shift_on 1 monday 9 0 10 6; shift_on 1 monday 10 6 16 14;
   shift_on 1 monday 16 14 17 0].

Definition eight_hour_day_reordered : list Shift :=
  [shift_on 1 monday 9 0 10 6; shift_on 1 monday 16 14 17 0;
   shift_on 1 monday 10 6 16 14].

(** A week of 452, 762, 350, 682 and 154 minutes: forty hours. *)
Definition forty_hour_week : list Shift :=
  [shift_on 1 monday 9 0 16 32; shift_on 1 (monday + 1) 8 0 20 42;
   shift_on 1 (monday + 2) 9 0 14 50; shift_on 1 (monday + 3) 8 0 19 22;
   shift_on 1 (monday + 4) 9 0 11 34].

(** The settings with a maximum of no consecutive work day at all. *)
Definition no_consecutive_days : Config.t :=
  Config.mk 8 40 45 60 0 10 2.
End Examples.

(** ** Roles and permissions, [models/user.py] *)
Module Permissions.

Inductive UserRole := STAFF | EVALUATOR | SUB_MANAGER | MANAGER | ADMIN.

#[global] Instance UserRole_eq_dec : EqDecision UserRole.
Proof. solve_decision. Defined.

(** [role.value]. *)
Definition role_value (r : UserRole) : Z :=
  match r with
  | STAFF => 1 | EVALUATOR => 2 | SUB_MANAGER => 3 | MANAGER => 4 | ADMIN => 5
  end.

Inductive Permission :=
| VIEW_OWN_SHIFT | VIEW_ALL_SHIFTS | REQUEST_SHIFT | EVALUATE_STAFF
| CREATE_DRAFT_SHIFT | ADJUST_SHIFT | APPROVE_SHIFT | PUBLISH_SHIFT
| REJECT_SHIFT | VIEW_ANALYTICS.

#[global] Instance Permission_eq_dec : EqDecision Permission.
Proof. solve_decision. Defined.

Definition ROLE_PERMISSIONS (r : UserRole) : list Permission :=
  match r with
  | STAFF => [VIEW_OWN_SHIFT; REQUEST_SHIFT]
  | EVALUATOR =>
      [VIEW_OWN_SHIFT; REQUEST_SHIFT; EVALUATE_STAFF; VIEW_ALL_SHIFTS]
  | SUB_MANAGER =>
      [VIEW_OWN_SHIFT; REQUEST_SHIFT; VIEW_ALL_SHIFTS; CREATE_DRAFT_SHIFT;
       ADJUST_SHIFT; REJECT_SHIFT; VIEW_ANALYTICS]
  | MANAGER | ADMIN =>
      [VIEW_OWN_SHIFT; VIEW_ALL_SHIFTS; REQUEST_SHIFT; EVALUATE_STAFF;
       CREATE_DRAFT_SHIFT; ADJUST_SHIFT; APPROVE_SHIFT; PUBLISH_SHIFT;
       REJECT_SHIFT; VIEW_ANALYTICS]
  end.

(** The methods of [User] below read the role only, so they take it in
    place of the user. *)
Definition has_permission (role : UserRole) (permission : Permission) : bool :=
  bool_decide (permission ∈ ROLE_PERMISSIONS role).

Definition can_approve_shifts (role : UserRole) : bool :=
  has_permission role APPROVE_SHIFT.

Definition can_adjust_shifts (role : UserRole) : bool :=
  has_permission role ADJUST_SHIFT.

Definition can_view_all_shifts (role : UserRole) : bool :=
  has_permission role VIEW_ALL_SHIFTS.

Definition can_evaluate_staff (role : UserRole) : bool :=
  has_permission role EVALUATE_STAFF.

Definition is_manager_or_above (role : UserRole) : bool :=
  bool_decide (role_value SUB_MANAGER ≤ role_value role).
End Permissions.

(** ** The other operations of [services/shift_approval.py]

    As in [Approval], a group operation maps over the table: the rows its
    query selects are changed, every other row is left as it is.  A query
    without [order_by] returns the rows in the order of the table scan. *)
Module Workflow.
Import Calendar Models Approval.

Definition set_created (by_ : Z) (at_ : Z) (s : Shift) : Shift :=
  let 'mkShift a b c d e f g _ _ j k l m n o p q r t := s in
  mkShift a b c d e f g by_ at_ j k l m n o p q r t.
Definition set_approved (by_ : Z) (at_ : Z) (s : Shift) : Shift :=
  let 'mkShift a b c d e f g h i j k _ _ n o p q r t := s in
  mkShift a b c d e f g h i j k (Some by_) (Some at_) n o p q r t.
Definition set_published (by_ : Z) (at_ : Z) (s : Shift) : Shift :=
  let 'mkShift a b c d e f g h i j k l m _ _ p q r t := s in
  mkShift a b c d e f g h i j k l m (Some by_) (Some at_) p q r t.

(** [create_draft_shifts].  [new_ids] are the primary keys that the
    database gives to the added rows, in the order of [shifts]. *)
Definition create_draft_shifts (st : Store) (shifts : list Shift)
    (admin_id : Z) (now : Z) (new_ids : list Z) : bool * Store :=
  let rows :=
    (λ shift, set_created admin_id now (set_status DRAFT shift)) <$> shifts in
  (true,
   mkStore (foldl (λ table '(k, row), <[k := row]> table)
                  (Approval.shifts st) (zip new_ids rows))
           (revisions st)).


Definition start_adjustment (st : Store) (group_id : string) (admin_id : Z)
    : bool * Store :=
  (true,
   mkStore ((λ s, if bool_decide (Models.group_id s = group_id ∧
                                  status s = DRAFT)
                  then set_status ADJUSTING s else s) <$> shifts st)
           (revisions st)).

Definition approve_shifts (st : Store) (group_id : string)
    (approver_id : Z) (now : Z) : bool * Store :=
  (true,
   mkStore ((λ s, if bool_decide (Models.group_id s = group_id ∧
                                  status s ∈ [ADJUSTED; PENDING])
                  then set_approved approver_id now (set_status APPROVED s)
                  else s) <$> shifts st)
           (revisions st)).

Definition publish_shifts (st : Store) (group_id : string)
    (publisher_id : Z) (now : Z) : bool * Store :=
  (true,
   mkStore ((λ s, if bool_decide (Models.group_id s = group_id ∧
                                  status s = APPROVED)
                  then set_published publisher_id now (set_status PUBLISHED s)
                  else s) <$> shifts st)
           (revisions st)).

(** The order of [datetime.time] values, and the order of the keys of
    [order_by(Shift.date, Shift.start_time)].  A start time is always set
    in a stored row; a missing one is put first. *)
Definition time_le (t1 t2 : Time) : Prop :=
  hour t1 < hour t2 ∨ (hour t1 = hour t2 ∧ minute t1 ≤ minute t2).

Definition start_le (o1 o2 : option Time) : Prop :=
  match o1, o2 with
  | None, _ => True
  | Some _, None => False
  | Some t1, Some t2 => time_le t1 t2
  end.

Definition row_le (a b : Shift) : Prop :=
  date a < date b ∨ (date a = date b ∧ start_le (start_time a) (start_time b)).

#[global] Instance time_le_dec t1 t2 : Decision (time_le t1 t2).
Proof. unfold time_le. apply _. Defined.

#[global] Instance start_le_dec o1 o2 : Decision (start_le o1 o2).
Proof. destruct o1, o2; simpl; apply _. Defined.

#[global] Instance row_le_dec a b : Decision (row_le a b).
Proof. unfold row_le. apply _. Defined.

Fixpoint insert_row (s : Shift) (l : list Shift) : list Shift :=
  match l with
  | [] => [s]
  | x :: r => if decide (row_le s x) then s :: l else x :: insert_row s r
  end.

Fixpoint order_rows (l : list Shift) : list Shift :=
  match l with
  | [] => []
  | s :: r => insert_row s (order_rows r)
  end.

(** [get_published_shifts_for_user]. *)
Definition get_published_shifts_for_user (st : Store) (user_id : Z)
    (start_date end_date : Date) : list Shift :=
  order_rows
    (filter (λ s, Models.user_id s = user_id ∧ status s = PUBLISHED ∧
                  start_date ≤ date s ∧ date s ≤ end_date)
            (map_to_list (shifts st)).*2).

(** *** Reference notions *)

(** The row that a successful [adjust_shift] stores. *)
Definition adjusted_row (new_data : NewData) (admin_id now : Z)
    (shift : Shift) : Shift :=
  let shift := set_user_id (default (user_id shift) (nd_user_id new_data))
                 shift in
  let shift :=
    set_start_time
      (from_option Some (start_time shift) (nd_start_time new_data)) shift in
  let shift :=
    set_end_time
      (from_option Some (end_time shift) (nd_end_time new_data)) shift in
  let shift := set_adjusted admin_id now shift in
  let shift := set_status ADJUSTED shift in
  set_version (version shift + 1) shift.

(** The revisions that a successful [adjust_shift] appends. *)
Definition revisions_for (shift_id : Z) (new_data : NewData) (admin_id : Z)
    (reason : option string) (shift : Shift) : list ShiftRevision.t :=
  (if differs (nd_user_id new_data) (user_id shift)
   then [ShiftRevision.create_revision shift_id "user_id"
           (Some (ShiftRevision.VInt (user_id shift)))
           (ShiftRevision.VInt <$> nd_user_id new_data) admin_id reason]
   else []) ++
  (if differs (Some <$> nd_start_time new_data) (start_time shift)
   then [ShiftRevision.create_revision shift_id "start_time"
           (ShiftRevision.VTime <$> start_time shift)
           (ShiftRevision.VTime <$> nd_start_time new_data) admin_id reason]
   else []) ++
  (if differs (Some <$> nd_end_time new_data) (end_time shift)
   then [ShiftRevision.create_revision shift_id "end_time"
           (ShiftRevision.VTime <$> end_time shift)
           (ShiftRevision.VTime <$> nd_end_time new_data) admin_id reason]
   else []).

(** What every operation keeps of a row. *)
Definition evolves (s s' : Shift) : Prop :=
  group_id s' = group_id s ∧ date s' = date s ∧
  created_by s' = created_by s ∧ created_at s' = created_at s ∧
  version s ≤ version s' ∧
  (status s = PUBLISHED → s' = s) ∧
  (status s' = PENDING ∨ status s' = REJECTED → status s' = status s).

(** The five operations that change the tables, as one type of calls. *)
Inductive Operation :=
| StartAdjustment (group_id : string) (admin_id : Z)
| AdjustShift (shift_id : Z) (new_data : NewData) (admin_id : Z)
    (reason : option string) (now : Z)
| ApproveShifts (group_id : string) (approver_id : Z) (now : Z)
| PublishShifts (group_id : string) (publisher_id : Z) (now : Z)
| RejectShifts (group_id : string) (rejecter_id : Z) (reason : string)
    (now : Z).

Definition run (op : Operation) (st : Store) : bool * Store :=
  match op with
  | StartAdjustment g a => start_adjustment st g a
  | AdjustShift k nd a r t => adjust_shift st k nd a r t
  | ApproveShifts g a t => approve_shifts st g a t
  | PublishShifts g a t => publish_shifts st g a t
  | RejectShifts g a r t => reject_shifts st g a r t
  end.

(** The tables after a sequence of calls. *)
Definition run_all (ops : list Operation) (st : Store) : Store :=
  foldl (λ st op, (run op st).2) st ops.

(** What a call makes of the row [s] stored under [k]. *)
Definition row_after (op : Operation) (k : Z) (s : Shift) : Shift :=
  match op with
  | StartAdjustment g _ =>
      if bool_decide (Models.group_id s = g ∧ status s = DRAFT)
      then set_status ADJUSTING s else s
  | AdjustShift k' nd a _ t =>
      if bool_decide (k' = k) && can_edit s then adjusted_row nd a t s else s
  | ApproveShifts g a t =>
      if bool_decide (Models.group_id s = g ∧ status s ∈ [ADJUSTED; PENDING])
      then set_approved a t (set_status APPROVED s) else s
  | PublishShifts g a t =>
      if bool_decide (Models.group_id s = g ∧ status s = APPROVED)
      then set_published a t (set_status PUBLISHED s) else s
  | RejectShifts g a r t =>
      if reject_selected g s
      then set_rejected a t r (set_status DRAFT s) else s
  end.

Definition row_after_all (ops : list Operation) (k : Z) (s : Shift) : Shift :=
  foldl (λ s op, row_after op k s) s ops.

(** A call of [adjust_shift] for the row stored under [k]. *)
Definition adjusts (k : Z) (op : Operation) : Prop :=
  match op with
  | AdjustShift k' _ _ _ _ => k' = k
  | _ => False
  end.
End Workflow.

(** ** The linear program of [create_shifts] and [validate_shifts],
    [services/shift_optimizer.py]

    The constraints are kept as data: the variables of the sum, the
    direction of the comparison and the bound.  Their names, which only the
    solver reads, are left out. *)
Module Planning.
Import Calendar Models Optimizer.

(** [_get_week_starts]: the first loop steps back to a Monday, at most
    six times; the second collects every seventh day up to the last date
    of the range. *)
Fixpoint back_to_monday (fuel : nat) (current : Date) : Date :=
  match fuel with
  | O => current
  | S fuel =>
      if decide (weekday current ≠ 0)
      then back_to_monday fuel (current - 1) else current
  end.

Fixpoint week_starts_loop (fuel : nat) (current last : Date) : list Date :=
  match fuel with
  | O => []
  | S fuel =>
      if decide (current ≤ last)
      then current :: week_starts_loop fuel (current + 7) last
      else []
  end.

Definition _get_week_starts (date_range : list Date) : list Date :=
  match date_range with
  | [] => []
  | first :: _ =>
      let current := back_to_monday 7 first in
      let last := List.last date_range first in
      week_starts_loop (Z.to_nat ((last - current) / 7 + 1)) current last
  end.

Inductive Sense := AtMost | AtLeast.

Record LpConstraint := mkConstraint {
  terms : list LpVariable;
  sense : Sense;
  bound : Z
}.

(** [daily_workers] for one date: the variables of every worker for that
    date. *)
Definition daily_workers
    (shift_vars : Dict.dict Z (Dict.dict Date (Dict.dict Z LpVariable)))
    (date : Date) : list LpVariable :=
  foldl (λ daily_workers '(user_id, by_date),
           match Dict.get date by_date with
           | Some by_request => daily_workers ++ by_request.*2
           | None => daily_workers
           end)
        [] shift_vars.

(** The variables of one worker. *)
Definition vars_of (by_date : Dict.dict Date (Dict.dict Z LpVariable))
    : list LpVariable :=
  q ← by_date; q.2.*2.

(** Constraint 1: the staff of each date with at least one variable. *)
Definition staff_constraints (cfg : Config.t)
    (shift_vars : Dict.dict Z (Dict.dict Date (Dict.dict Z LpVariable)))
    (date_range : list Date) : list LpConstraint :=
  foldl (λ prob date,
           let daily_workers := daily_workers shift_vars date in
           match daily_workers with
           | [] => prob
           | _ :: _ =>
               prob ++
               [mkConstraint daily_workers AtLeast
                  (Config.MIN_STAFF_PER_SHIFT cfg);
                mkConstraint daily_workers AtMost
                  (Config.MAX_STAFF_PER_SHIFT cfg)]
           end)
        [] date_range.

(** Constraint 2: one shift per worker and day. *)
Definition one_shift_constraints
    (shift_vars : Dict.dict Z (Dict.dict Date (Dict.dict Z LpVariable)))
    : list LpConstraint :=
  foldl (λ prob '(user_id, by_date),
           foldl (λ prob '(date, by_request),
                    prob ++ [mkConstraint by_request.*2 AtMost 1])
                 prob by_date)
        [] shift_vars.

(** [week_shifts]: the variables of one worker for the seven days from
    [week_start]. *)
Definition week_shifts (by_date : Dict.dict Date (Dict.dict Z LpVariable))
    (week_start : Date) : list LpVariable :=
  let week_dates := (λ i, week_start + Z.of_nat i) <$> seq 0 7 in
  foldl (λ week_shifts date,
           match Dict.get date by_date with
           | Some by_request => week_shifts ++ by_request.*2
           | None => week_shifts
           end)
        [] week_dates.

(** Constraint 3: the days per worker and week, eight hours to the day. *)
Definition weekly_constraints (cfg : Config.t)
    (shift_vars : Dict.dict Z (Dict.dict Date (Dict.dict Z LpVariable)))
    (date_range : list Date) : list LpConstraint :=
  foldl (λ prob '(user_id, by_date),
           foldl (λ prob week_start,
                    let week_shifts := week_shifts by_date week_start in
                    match week_shifts with
                    | [] => prob
                    | _ :: _ =>
                        let max_days :=
                          Config.MAX_WORK_HOURS_PER_WEEK cfg / 8 in
                        prob ++ [mkConstraint week_shifts AtMost max_days]
                    end)
                 prob (_get_week_starts date_range))
        [] shift_vars.

(** The constraints of the problem, in the order in which they are
    added. *)
Definition constraints (cfg : Config.t) (users : list User)
    (shift_requests : list ShiftRequest.t) (start_date end_date : Date)
    : list LpConstraint :=
  let date_range := _generate_date_range start_date end_date in
  let shift_vars := build_shift_vars users shift_requests date_range in
  staff_constraints cfg shift_vars date_range ++
  one_shift_constraints shift_vars ++
  weekly_constraints cfg shift_vars date_range.

(** *** What a solution is *)

(** The value of a sum of variables. *)
Definition lp_sum (value : LpVariable → option Qc) (l : list LpVariable)
    : Qc :=
  foldr (λ var acc, default 0%Qc (value var) + acc)%Qc 0%Qc l.

Definition satisfied (value : LpVariable → option Qc) (c : LpConstraint)
    : Prop :=
  match sense c with
  | AtMost => (lp_sum value (terms c) ≤ Z2Qc (bound c))%Qc
  | AtLeast => (Z2Qc (bound c) ≤ lp_sum value (terms c))%Qc
  end.

#[global] Instance satisfied_dec value c : Decision (satisfied value c).
Proof. unfold satisfied. destruct (sense c); apply _. Defined.

(** A variable of category [Binary] holds 0 or 1. *)
Definition binary (value : LpVariable → option Qc) (var : LpVariable)
    : Prop :=
  value var = Some 0%Qc ∨ value var = Some 1%Qc.

#[global] Instance binary_dec value var : Decision (binary value var).
Proof. unfold binary. apply _. Defined.

(** The values solve the problem: every variable is binary and every
    constraint holds. *)
Definition feasible (cfg : Config.t) (value : LpVariable → option Qc)
    (users : list User) (shift_requests : list ShiftRequest.t)
    (start_date end_date : Date) : Prop :=
  Forall (binary value)
    (decision_variables
       (build_shift_vars users shift_requests
          (_generate_date_range start_date end_date))) ∧
  Forall (satisfied value)
    (constraints cfg users shift_requests start_date end_date).

#[global] Instance feasible_dec cfg value users reqs s e :
  Decision (feasible cfg value users reqs s e).
Proof. unfold feasible. apply _. Defined.

(** [validate_shifts]: the dictionary it returns, as a record. *)
Record Stats := mkStats {
  total_shifts : nat;
  unique_users : nat;
  range_start : option Date;
  range_end : option Date;
  violations : list LaborLaw.LaborLawViolation
}.

(** [min(...)] and [max(...)] over the dates of a list that is not
    empty. *)
Definition min_date (first : Date) (rest : list Date) : Date :=
  foldl Z.min first rest.

Definition max_date (first : Date) (rest : list Date) : Date :=
  foldl Z.max first rest.

Definition validate_shifts (cfg : Config.t) (set_iter : list Z → list Z)
    (shifts : list Shift) : Stats :=
  let violations := LaborLaw.check_all_violations cfg set_iter shifts in
  let dates := date <$> shifts in
  mkStats (length shifts)
    (length (set_iter (user_id <$> shifts)))
    (match dates with [] => None | d :: ds => Some (min_date d ds) end)
    (match dates with [] => None | d :: ds => Some (max_date d ds) end)
    violations.
End Planning.

(** ** More concrete data *)
Module WorkflowExamples.
Import Calendar Models Approval Workflow Examples.

(** One call of each operation, the adjustment aimed at row 6. *)
Definition sample_calls : list Operation :=
  [StartAdjustment "g" 9;
   AdjustShift 6 (mkNewData (Some 8) None None) 9 None 100;
   ApproveShifts "g" 9 101;
   PublishShifts "g" 9 102;
   RejectShifts "g" 9 "late" 103].

(** The four group calls, without any adjustment. *)
Definition group_calls : list Operation :=
  [StartAdjustment "g" 9; ApproveShifts "g" 9 101; PublishShifts "g" 9 102;
   RejectShifts "g" 9 "late" 103].

(** A session without pending or rejected rows. *)
Definition settled : Store :=
  mkStore
    (list_to_map [(1, row DRAFT); (3, row ADJUSTED); (5, row APPROVED);
                  (6, row PUBLISHED)])
    [].

(** Two shifts as an optimizer run leaves them, and their keys. *)
Definition fresh_shifts : list Shift :=
  [shift_on 1 monday 9 0 17 0; shift_on 2 monday 9 0 17 0].

Definition fresh_ids : list Z := [10; 11].
End WorkflowExamples.

(** ** The other method of a request, [models/shift_request.py] *)
Module ShiftRequestMethods.
Import Calendar Models.

(** [ShiftRequest.get_duration_hours], the same computation as for a
    shift. *)
Definition get_duration_hours (r : ShiftRequest.t) : Qc :=
  match ShiftRequest.start_time r, ShiftRequest.end_time r with
  | Some st, Some en =>
      let start_minutes := minutes_of st in
      let end_minutes := minutes_of en in
      let end_minutes :=
        if decide (end_minutes < start_minutes)
        then end_minutes + 24 * 60 else end_minutes in
      let duration_minutes := end_minutes - start_minutes in
      hours_of_minutes duration_minutes
  | _, _ => 0%Qc
  end.
End ShiftRequestMethods.

(** ** Well-formed shifts *)
Module RuleNotions.
Import Calendar Models.

(** The times of a shift are values of [datetime.time]. *)
Definition valid_times (s : Shift) : Prop :=
  from_option valid_time True (start_time s) ∧
  from_option valid_time True (end_time s).
End RuleNotions.

(** * Properties *)

(** ** Durations, [Shift.get_duration_hours] *)
Module DurationFacts.
Import Models.


Lemma hours_of_minutes_lt n m :
  (hours_of_minutes n < hours_of_minutes m)%Qc ↔ n < m.
Proof.
  unfold Qclt, hours_of_minutes. simpl. rewrite !Qred_correct.
  unfold Qlt. simpl. lia.
Qed.

Lemma hours_of_minutes_le n m :
  (hours_of_minutes n ≤ hours_of_minutes m)%Qc ↔ n ≤ m.
Proof.
  unfold Qcle, hours_of_minutes. simpl. rewrite !Qred_correct.
  unfold Qle. simpl. lia.
Qed.

Lemma hours_of_minutes_Z h : Z2Qc h = hours_of_minutes (h * 60).
Proof.
  apply Qc_is_canon. unfold hours_of_minutes, Z2Qc. simpl.
  rewrite !Qred_correct. unfold Qeq. simpl. lia.
Qed.

Lemma minutes_of_range t : valid_time t → 0 ≤ minutes_of t < 1440.
Proof. unfold valid_time, minutes_of. lia. Qed.

(** The duration of a shift with both times set, in minutes. *)
Lemma get_duration_hours_minutes s st en :
  start_time s = Some st → end_time s = Some en →
  get_duration_hours s =
  hours_of_minutes
    ((if decide (minutes_of en < minutes_of st)
      then minutes_of en + 24 * 60 else minutes_of en) - minutes_of st).
Proof. unfold get_duration_hours. by intros -> ->. Qed.

Lemma get_duration_hours_missing s :
  start_time s = None ∨ end_time s = None → get_duration_hours s = 0%Qc.
Proof.
  unfold get_duration_hours. intros [->| ->]; [done|].
  by destruct (start_time s).
Qed.


End DurationFacts.

(** ** Doubles *)
Module DoubleFacts.
Import Models Double DurationFacts.
Local Open Scope Q_scope.

Lemma pow2_pos e : 0 < pow2 e.
Proof. apply Qpower_0_lt. reflexivity. Qed.

Lemma pow2_add a b : pow2 (a + b) == pow2 a * pow2 b.
Proof. apply Qpower_plus. discriminate. Qed.

Lemma pow2_le a b : (a <= b)%Z -> pow2 a <= pow2 b.
Proof. intros H. apply Qpower_le_compat_l; [exact H|discriminate]. Qed.

Lemma pow2_lt_inv a b : pow2 a < pow2 b -> (a < b)%Z.
Proof. intros H. apply (Qpower_lt_compat_l_inv 2); [exact H|reflexivity]. Qed.

Lemma pow2_Z n : (0 <= n)%Z -> pow2 n == inject_Z (2 ^ n).
Proof. intros H. unfold pow2. by rewrite Zpower_Qpower. Qed.

Lemma pow2_cancel x c : x * pow2 (- c) * pow2 c == x.
Proof.
  rewrite <-Qmult_assoc, <-pow2_add.
  replace (- c + c)%Z with 0%Z by lia. apply Qmult_1_r.
Qed.

Lemma inject_Z_pos n : (0 < n)%Z -> 0 < inject_Z n.
Proof. intros H. unfold Qlt. simpl. lia. Qed.

Lemma ilog2_spec x : 0 < x -> pow2 (ilog2 x) <= x /\ x < pow2 (ilog2 x + 1).
Proof.
  intros Hx. destruct x as [n d].
  assert (0 < n)%Z as Hn by (unfold Qlt in Hx; simpl in Hx; lia).
  set (a := Z.log2 n). set (b := Z.log2 (Zpos d)).
  destruct (Z.log2_spec n Hn) as [Ha1 Ha2]. fold a in Ha1, Ha2.
  destruct (Z.log2_spec (Zpos d) eq_refl) as [Hb1 Hb2]. fold b in Hb1, Hb2.
  assert (0 <= a)%Z as Ha0 by apply Z.log2_nonneg.
  assert (0 <= b)%Z as Hb0 by apply Z.log2_nonneg.
  assert (0 < inject_Z (Zpos d)) as Hd by reflexivity.
  assert (n # d == inject_Z n / inject_Z (Zpos d)) as Hq by apply Qmake_Qdiv.
  assert (n # d < pow2 (a - b + 1)) as Hup.
  { rewrite Hq. apply Qlt_shift_div_r; [exact Hd|].
    apply Qlt_le_trans with (pow2 (a - b + 1) * pow2 b).
    - rewrite <-pow2_add. replace (a - b + 1 + b)%Z with (a + 1)%Z by lia.
      rewrite pow2_Z by lia. rewrite <-Zlt_Qlt.
      by rewrite <-Z.add_1_r in Ha2.
    - apply Qmult_le_l; [apply pow2_pos|].
      rewrite pow2_Z by lia. by rewrite <-Zle_Qle. }
  assert (pow2 (a - b - 1) <= n # d) as Hlow.
  { rewrite Hq. apply Qle_shift_div_l; [exact Hd|].
    apply Qle_trans with (pow2 (a - b - 1) * pow2 (b + 1)).
    - apply Qmult_le_l; [apply pow2_pos|].
      rewrite pow2_Z by lia. rewrite <-Zle_Qle.
      rewrite <-Z.add_1_r in Hb2. lia.
    - rewrite <-pow2_add. replace (a - b - 1 + (b + 1))%Z with a by lia.
      rewrite pow2_Z by lia. by rewrite <-Zle_Qle. }
  unfold ilog2. cbn [Qnum Qden]. fold a b.
  destruct (Qle_bool (pow2 (a - b)) (n # d)) eqn:Htest.
  - apply Qle_bool_iff in Htest. split; [exact Htest|exact Hup].
  - split; [exact Hlow|].
    replace (a - b - 1 + 1)%Z with (a - b)%Z by lia.
    apply Qnot_le_lt. intros Hle. apply Qle_bool_iff in Hle. congruence.
Qed.

Lemma ilog2_unique x e :
  0 < x -> pow2 e <= x -> x < pow2 (e + 1) -> ilog2 x = e.
Proof.
  intros Hx Hlow Hup. destruct (ilog2_spec x Hx) as [Hlow' Hup'].
  assert (e < ilog2 x + 1)%Z
    by (apply pow2_lt_inv; eapply Qle_lt_trans; eauto).
  assert (ilog2 x < e + 1)%Z
    by (apply pow2_lt_inv; eapply Qle_lt_trans; eauto).
  lia.
Qed.

Lemma ilog2_mono x y : 0 < x -> x <= y -> (ilog2 x <= ilog2 y)%Z.
Proof.
  intros Hx Hxy.
  destruct (ilog2_spec x Hx) as [Hlow _].
  destruct (ilog2_spec y) as [_ Hup]; [by eapply Qlt_le_trans|].
  assert (ilog2 x < ilog2 y + 1)%Z; [|lia].
  apply pow2_lt_inv. eapply Qle_lt_trans; [exact Hlow|].
  eapply Qle_lt_trans; [exact Hxy|exact Hup].
Qed.

Lemma cexp_mono x y : 0 < x -> x <= y -> (cexp x <= cexp y)%Z.
Proof. intros Hx Hxy. pose proof (ilog2_mono x y Hx Hxy). unfold cexp. lia. Qed.

Lemma cexp_comp x y : 0 < x -> x == y -> cexp x = cexp y.
Proof.
  intros Hx Hxy. unfold cexp. f_equal. f_equal.
  destruct (ilog2_spec x Hx) as [Hlow Hup].
  symmetry. apply ilog2_unique; rewrite <-?Hxy; done.
Qed.

(** *** The nearest integer *)

Lemma rne_cases s : rne s = Qfloor s \/ rne s = (Qfloor s + 1)%Z.
Proof.
  unfold rne. destruct (_ ?= _); [destruct (Z.even _)|..]; auto.
Qed.

Lemma rne_Z z : rne (inject_Z z) = z.
Proof.
  unfold rne. rewrite Qfloor_Z.
  assert (inject_Z z - inject_Z z < 1 # 2) as H.
  { unfold Qlt, Qminus, Qplus, Qopp. simpl. lia. }
  destruct (Qcompare_spec (inject_Z z - inject_Z z) (1 # 2)) as [E|_|E];
    [|done|].
  - rewrite E in H. by apply Qlt_irrefl in H.
  - destruct (Qlt_irrefl (1 # 2)). by eapply Qlt_trans.
Qed.

Lemma rne_mono s t : s <= t -> (rne s <= rne t)%Z.
Proof.
  intros Hst. pose proof (Qfloor_resp_le s t Hst) as Hf.
  destruct (decide (Qfloor s = Qfloor t)) as [Heq|Hne].
  - unfold rne. rewrite Heq.
    assert (s - inject_Z (Qfloor t) <= t - inject_Z (Qfloor t)) as Hr.
    { apply Qplus_le_l with (inject_Z (Qfloor t)). by ring_simplify. }
    destruct (Qcompare_spec (s - inject_Z (Qfloor t)) (1 # 2)) as [Hs|Hs|Hs];
      destruct (Qcompare_spec (t - inject_Z (Qfloor t)) (1 # 2)) as [Ht|Ht|Ht];
      destruct (Z.even (Qfloor t)); try lia; exfalso;
      apply (Qlt_irrefl (1 # 2));
      first
        [ eapply Qle_lt_trans; [|exact Ht];
          eapply Qle_trans; [|exact Hr];
          first [rewrite Hs; apply Qle_refl|apply Qlt_le_weak; exact Hs]
        | eapply Qlt_le_trans; [exact Hs|]; rewrite <-Ht; exact Hr ].
  - destruct (rne_cases s) as [-> | ->], (rne_cases t) as [-> | ->]; lia.
Qed.

Lemma rne_comp s t : s == t -> rne s = rne t.
Proof.
  intros H. apply Z.le_antisymm; apply rne_mono; rewrite H; apply Qle_refl.
Qed.

(** *** The nearest double *)

Lemma pow2_nonneg e : 0 <= pow2 e.
Proof. apply Qlt_le_weak, pow2_pos. Qed.

Lemma mantissa_nonneg x : 0 < x -> (0 <= rne (x * pow2 (- cexp x)))%Z.
Proof.
  intros Hx. rewrite <-(rne_Z 0). apply rne_mono.
  apply Qmult_le_0_compat; [by apply Qlt_le_weak|apply pow2_nonneg].
Qed.

Lemma mantissa_upper x : 0 < x -> (rne (x * pow2 (- cexp x)) <= 2 ^ 53)%Z.
Proof.
  intros Hx. destruct (ilog2_spec x Hx) as [_ Hup].
  rewrite <-(rne_Z (2 ^ 53)). apply rne_mono.
  rewrite <-pow2_Z by lia.
  assert (pow2 53 == pow2 (cexp x + 53) * pow2 (- cexp x)) as ->.
  { rewrite <-pow2_add.
    by replace (cexp x + 53 + - cexp x)%Z with 53%Z by lia. }
  apply Qmult_le_compat_r; [|apply pow2_nonneg].
  apply Qlt_le_weak. eapply Qlt_le_trans; [exact Hup|].
  apply pow2_le. unfold cexp. lia.
Qed.

Lemma mantissa_lower x :
  0 < x -> cexp x = (ilog2 x - 52)%Z ->
  (2 ^ 52 <= rne (x * pow2 (- cexp x)))%Z.
Proof.
  intros Hx Hc. destruct (ilog2_spec x Hx) as [Hlow _].
  rewrite <-(rne_Z (2 ^ 52)). apply rne_mono.
  rewrite <-pow2_Z by lia.
  assert (pow2 52 == pow2 (ilog2 x) * pow2 (- cexp x)) as ->.
  { rewrite <-pow2_add. rewrite Hc.
    by replace (ilog2 x + - (ilog2 x - 52))%Z with 52%Z by lia. }
  apply Qmult_le_compat_r; [exact Hlow|apply pow2_nonneg].
Qed.

Lemma nearest_nonneg x : 0 < x -> 0 <= nearest x.
Proof.
  intros Hx. unfold nearest.
  apply Qmult_le_0_compat; [|apply pow2_nonneg].
  rewrite <-(Zle_Qle 0). by apply mantissa_nonneg.
Qed.

Lemma nearest_mono x y : 0 < x -> x <= y -> nearest x <= nearest y.
Proof.
  intros Hx Hxy.
  assert (0 < y) as Hy by (by eapply Qlt_le_trans).
  pose proof (cexp_mono x y Hx Hxy) as Hc. unfold nearest.
  destruct (decide (cexp x = cexp y)) as [Heq|Hne].
  - rewrite Heq. apply Qmult_le_compat_r; [|apply pow2_nonneg].
    rewrite <-Zle_Qle. apply rne_mono.
    apply Qmult_le_compat_r; [exact Hxy|apply pow2_nonneg].
  - apply Qle_trans with (pow2 (cexp x + 53)).
    + assert (pow2 (cexp x + 53) == inject_Z (2 ^ 53) * pow2 (cexp x)) as ->
        by (rewrite pow2_add, (pow2_Z 53) by lia; apply Qmult_comm).
      apply Qmult_le_compat_r; [|apply pow2_nonneg].
      rewrite <-Zle_Qle. by apply mantissa_upper.
    + apply Qle_trans with (pow2 (cexp y + 52)).
      * apply pow2_le. lia.
      * assert (pow2 (cexp y + 52) == inject_Z (2 ^ 52) * pow2 (cexp y))
          as -> by (rewrite pow2_add, (pow2_Z 52) by lia; apply Qmult_comm).
        apply Qmult_le_compat_r; [|apply pow2_nonneg].
        rewrite <-Zle_Qle.
        apply mantissa_lower; [exact Hy|].
        unfold cexp in *. lia.
Qed.

Lemma nearest_comp x y : 0 < x -> x == y -> nearest x == nearest y.
Proof.
  intros Hx Hxy. unfold nearest. rewrite (cexp_comp x y Hx Hxy).
  rewrite (rne_comp (x * pow2 (- cexp y)) (y * pow2 (- cexp y)));
    [reflexivity|by rewrite Hxy].
Qed.

(** A number with a mantissa of at most 53 bits and an exponent that is
    not below the least is a double. *)
Lemma nearest_fixed m c :
  (0 < m < 2 ^ 53)%Z -> (-1074 <= c)%Z ->
  nearest (inject_Z m * pow2 c) == inject_Z m * pow2 c.
Proof.
  intros Hm Hc. remember (inject_Z m * pow2 c) as x eqn:Ex.
  assert (0 < x) as Hx.
  { subst x. apply Qmult_lt_0_compat; [apply inject_Z_pos; lia|apply pow2_pos]. }
  destruct (ilog2_spec x Hx) as [Hlow _].
  assert (x < pow2 (53 + c)) as Hup.
  { rewrite Ex, pow2_add.
    apply Qmult_lt_compat_r; [apply pow2_pos|].
    rewrite pow2_Z by lia. rewrite <-Zlt_Qlt. lia. }
  assert (ilog2 x < 53 + c)%Z as He
    by (apply pow2_lt_inv; by eapply Qle_lt_trans).
  assert (cexp x <= c)%Z as Hle by (unfold cexp; lia).
  unfold nearest.
  rewrite (rne_comp _ (inject_Z (m * 2 ^ (c - cexp x)))).
  - rewrite rne_Z, inject_Z_mult, <-(pow2_Z (c - cexp x)) by lia.
    rewrite <-Qmult_assoc, <-pow2_add.
    replace (c - cexp x + cexp x)%Z with c by lia. by rewrite Ex.
  - rewrite Ex at 1. rewrite inject_Z_mult, <-(pow2_Z (c - cexp x)) by lia.
    rewrite <-Qmult_assoc, <-pow2_add.
    by replace (c + - cexp x)%Z with (c - cexp x)%Z by lia.
Qed.

Lemma nearest_idem x :
  0 < x -> 0 < nearest x -> nearest (nearest x) == nearest x.
Proof.
  intros Hx Hpos.
  pose proof (mantissa_nonneg x Hx) as H0.
  pose proof (mantissa_upper x Hx) as H53.
  assert (nearest x == inject_Z (rne (x * pow2 (- cexp x))) * pow2 (cexp x))
    as Hdef by reflexivity.
  remember (rne (x * pow2 (- cexp x))) as m eqn:Em.
  assert (m <> 0%Z) as Hm.
  { intros E. rewrite Hdef, E, Qmult_0_l in Hpos.
    by apply Qlt_irrefl in Hpos. }
  assert (-1074 <= cexp x)%Z as Hc by (unfold cexp; lia).
  destruct (decide (m = 2 ^ 53)%Z) as [E|Hne].
  - assert (nearest x == inject_Z (2 ^ 52) * pow2 (cexp x + 1)) as Hnorm.
    { rewrite Hdef, E, <-(pow2_Z 53), <-(pow2_Z 52), <-!pow2_add by lia.
      by replace (53 + cexp x)%Z with (52 + (cexp x + 1))%Z by lia. }
    rewrite (nearest_comp _ _ Hpos Hnorm), Hnorm.
    apply nearest_fixed; lia.
  - rewrite (nearest_comp _ _ Hpos Hdef), Hdef.
    apply nearest_fixed; lia.
Qed.

(** *** Rounding *)

Lemma round_pos_cases x :
  round_pos x = PInf \/
  (round_pos x = Finite (Q2Qc (nearest x)) /\ nearest x < pow2 1024).
Proof.
  unfold round_pos. destruct (Qle_bool _ _) eqn:E; [by left|right].
  split; [done|]. apply Qnot_le_lt. intros H.
  apply Qle_bool_iff in H. congruence.
Qed.

Lemma round_pos_comp x y : 0 < x -> x == y -> round_pos x = round_pos y.
Proof.
  intros Hx Hxy. unfold round_pos.
  pose proof (nearest_comp x y Hx Hxy) as Hn.
  assert (Qle_bool (pow2 1024) (nearest x) = Qle_bool (pow2 1024) (nearest y))
    as -> by (apply eq_true_iff_eq; rewrite !Qle_bool_iff; by rewrite Hn).
  destruct (Qle_bool _ _); [done|]. f_equal.
  apply Qc_is_canon. simpl. by rewrite !Qred_correct.
Qed.

Lemma round_zero : round 0%Qc = Finite 0%Qc.
Proof. reflexivity. Qed.

Lemma round_pos_eq (x : Qc) : 0 < x -> round x = round_pos x.
Proof.
  intros Hx. unfold round.
  destruct (Qcompare_spec x 0) as [E|H|_]; [| |done].
  - rewrite E in Hx. by apply Qlt_irrefl in Hx.
  - destruct (Qlt_irrefl 0). by eapply Qlt_trans.
Qed.

Lemma round_pos_fixed x w :
  0 < x -> round_pos x = Finite w -> round w = Finite w.
Proof.
  intros Hx Hw.
  destruct (round_pos_cases x) as [E|[E Hfin]]; [congruence|].
  rewrite E in Hw. injection Hw as <-.
  pose proof (nearest_nonneg x Hx) as Hnn.
  destruct (Qle_lt_or_eq _ _ Hnn) as [Hpos|Hzero].
  - assert (0 < Q2Qc (nearest x)) as Hpos'
      by (simpl; by rewrite Qred_correct).
    rewrite (round_pos_eq _ Hpos').
    rewrite (round_pos_comp (Q2Qc (nearest x)) (nearest x) Hpos')
      by apply Qred_correct.
    unfold round_pos.
    assert (Qle_bool (pow2 1024) (nearest (nearest x)) = false) as ->.
    { apply not_true_is_false. intros H. apply Qle_bool_iff in H.
      rewrite nearest_idem in H by done. by apply Qle_not_lt in H. }
    f_equal. apply Qc_is_canon. simpl.
    by rewrite !Qred_correct, nearest_idem.
  - assert (Q2Qc (nearest x) = 0%Qc) as ->; [|apply round_zero].
    apply Qc_is_canon. simpl. by rewrite Qred_correct, <-Hzero.
Qed.

Lemma opp_involutive h : opp (opp h) = h.
Proof. destruct h; simpl; [|done..]. by rewrite Qcopp_involutive. Qed.

Lemma Qcopp_pos (x : Qc) : (x < 0)%Qc -> (0 < - x)%Qc.
Proof.
  intros H. apply Qclt_minus_iff in H. by rewrite Qcplus_0_l in H.
Qed.

Lemma Qcopp_neg (x : Qc) : (0 < x)%Qc -> (- x < 0)%Qc.
Proof.
  intros H. apply Qclt_minus_iff.
  by rewrite Qcplus_0_l, Qcopp_involutive.
Qed.

Lemma Qc_sign (x : Qc) : (x < 0)%Qc \/ x = 0%Qc \/ (0 < x)%Qc.
Proof. destruct (Qc_dec x 0) as [[?|?]|?]; auto. Qed.

Lemma round_neg_eq (x : Qc) :
  (x < 0)%Qc -> round x = opp (round_pos (- x)%Qc).
Proof.
  intros Hx. unfold round.
  assert (x < 0) as Hx' by exact Hx.
  destruct (Qcompare_spec x 0) as [E|_|H]; [|done|].
  - rewrite E in Hx'. by apply Qlt_irrefl in Hx'.
  - destruct (Qlt_irrefl 0). by eapply Qlt_trans.
Qed.

Lemma round_opp (x : Qc) : round (- x)%Qc = opp (round x).
Proof.
  destruct (Qc_sign x) as [Hx|[->|Hx]].
  - pose proof (Qcopp_pos _ Hx) as Hx'.
    by rewrite (round_pos_eq _ Hx'), (round_neg_eq _ Hx), opp_involutive.
  - done.
  - pose proof (Qcopp_neg _ Hx) as Hx'.
    by rewrite (round_neg_eq _ Hx'), (round_pos_eq _ Hx), Qcopp_involutive.
Qed.

Lemma round_is_double x : is_double (round x).
Proof.
  assert (forall y : Qc, (0 < y)%Qc -> is_double (round y)) as Hpos.
  { intros y Hy. rewrite (round_pos_eq _ Hy).
    destruct (round_pos y) as [w| | |] eqn:E; simpl; [|done..].
    by apply (round_pos_fixed y). }
  destruct (Qc_sign x) as [Hx|[->|Hx]].
  - pose proof (Qcopp_pos _ Hx) as Hx'.
    specialize (Hpos _ Hx'). rewrite round_opp in Hpos.
    destruct (round x) as [w| | |]; simpl in *; [|done..].
    rewrite <-(Qcopp_involutive w), round_opp, Hpos. simpl.
    by rewrite Qcopp_involutive.
  - done.
  - by apply Hpos.
Qed.

Lemma add_is_double a b : is_double a -> is_double b -> is_double (add a b).
Proof.
  destruct a, b; simpl; try done. intros _ _. apply round_is_double.
Qed.

(** Adding [0.0] changes nothing. *)
Lemma add_zero a : is_double a -> add a (Finite 0%Qc) = a.
Proof.
  destruct a as [v| | |]; simpl; [|done..].
  by rewrite Qcplus_0_r.
Qed.

(** *** Rounding keeps the order, on what is not negative *)

Lemma Q2Qc_le a b : a <= b -> (Q2Qc a <= Q2Qc b)%Qc.
Proof. intros H. unfold Qcle. cbn [this Q2Qc]. by rewrite !Qred_correct. Qed.

Lemma round_nonneg (x : Qc) : (0 <= x)%Qc -> ge_rat (round x) 0%Qc.
Proof.
  intros Hx. destruct (Qcle_lt_or_eq _ _ Hx) as [Hpos| <-]; [|done].
  rewrite (round_pos_eq _ Hpos).
  destruct (round_pos_cases x) as [-> |[-> _]]; [done|].
  apply (Q2Qc_le 0). by apply nearest_nonneg.
Qed.

Lemma round_mono (x y v : Qc) :
  (0 <= x)%Qc -> (x <= y)%Qc -> round x = Finite v -> ge_rat (round y) v.
Proof.
  intros Hx Hxy Hv.
  destruct (Qcle_lt_or_eq _ _ Hx) as [Hpos| <-].
  - assert (0 < y)%Qc as Hy by (by eapply Qclt_le_trans).
    rewrite (round_pos_eq _ Hpos) in Hv. rewrite (round_pos_eq _ Hy).
    destruct (round_pos_cases x) as [E|[E _]]; [congruence|].
    rewrite E in Hv. injection Hv as <-.
    destruct (round_pos_cases y) as [-> |[-> _]]; [done|].
    apply Q2Qc_le. by apply nearest_mono.
  - rewrite round_zero in Hv. injection Hv as <-.
    by apply round_nonneg.
Qed.

Lemma round_mono_finite (x y w : Qc) :
  (0 <= x)%Qc -> (x <= y)%Qc -> round y = Finite w ->
  exists v : Qc, round x = Finite v /\ (v <= w)%Qc.
Proof.
  intros Hx Hxy Hw.
  destruct (Qcle_lt_or_eq _ _ Hx) as [Hpos| <-].
  - assert (0 < y)%Qc as Hy by (by eapply Qclt_le_trans).
    rewrite (round_pos_eq _ Hy) in Hw. rewrite (round_pos_eq _ Hpos).
    pose proof (nearest_mono x y Hpos Hxy) as Hn.
    unfold round_pos in *.
    destruct (Qle_bool (pow2 1024) (nearest y)) eqn:Ey; [done|].
    injection Hw as <-.
    destruct (Qle_bool (pow2 1024) (nearest x)) eqn:Ex.
    + apply Qle_bool_iff in Ex.
      assert (Qle_bool (pow2 1024) (nearest y) = true) as Ey'
        by (apply Qle_bool_iff; by eapply Qle_trans).
      congruence.
    + eexists. split; [done|]. by apply Q2Qc_le.
  - exists 0%Qc. split; [apply round_zero|].
    pose proof (round_nonneg y Hxy) as Hge. by rewrite Hw in Hge.
Qed.

Lemma ge_rat_trans h (q q' : Qc) : (q' <= q)%Qc -> ge_rat h q -> ge_rat h q'.
Proof.
  destruct h; simpl; [|done..]. intros ??. by eapply Qcle_trans.
Qed.

(** A sum is not below either term, when neither is negative. *)
Lemma add_ge a (q v : Qc) :
  is_double a -> ge_rat a 0%Qc -> (0 <= q)%Qc ->
  ge_rat (add a (round q)) 0%Qc /\
  (ge_rat a v -> ge_rat (add a (round q)) v) /\
  (ge_rat (round q) v -> ge_rat (add a (round q)) v).
Proof.
  intros Ha Ha0 Hq.
  pose proof (round_nonneg q Hq) as Hq0.
  pose proof (round_is_double q) as Hqd.
  destruct a as [va| | |], (round q) as [w| | |]; simpl in *; try done.
  assert (0 <= va + w)%Qc as Hsum.
  { rewrite <-(Qcplus_0_l 0). by apply Qcplus_le_compat. }
  assert (va <= va + w)%Qc as Hl.
  { rewrite <-(Qcplus_0_r va) at 1.
    apply Qcplus_le_compat; [apply Qcle_refl|done]. }
  assert (w <= va + w)%Qc as Hr.
  { rewrite <-(Qcplus_0_l w) at 1.
    apply Qcplus_le_compat; [done|apply Qcle_refl]. }
  split_and!.
  - by apply round_nonneg.
  - intros Hv. eapply ge_rat_trans; [exact Hv|]. by apply (round_mono va).
  - intros Hv. eapply ge_rat_trans; [exact Hv|]. by apply (round_mono w).
Qed.

(** A running sum of terms that are not negative is not below any of
    them. *)
Lemma sum_ge (qs : list Qc) acc :
  Forall (fun q => 0 <= q)%Qc qs -> is_double acc -> ge_rat acc 0%Qc ->
  is_double (foldl add acc (round <$> qs)) /\
  ge_rat (foldl add acc (round <$> qs)) 0%Qc /\
  (forall v, ge_rat acc v -> ge_rat (foldl add acc (round <$> qs)) v) /\
  (forall q v, q ∈ qs -> ge_rat (round q) v ->
     ge_rat (foldl add acc (round <$> qs)) v).
Proof.
  intros Hqs. revert acc.
  induction Hqs as [|q qs Hq _ IH]; intros acc Hd H0; csimpl.
  - split_and!; [done..|]. by intros q v ?%elem_of_nil.
  - assert (is_double (add acc (round q))) as Hd'
      by (apply add_is_double; [done|apply round_is_double]).
    destruct (add_ge acc q 0%Qc Hd H0 Hq) as (H0' & _ & _).
    destruct (IH _ Hd' H0') as (IH1 & IH2 & IH3 & IH4).
    split_and!; [done..| |].
    + intros v Hv. apply IH3.
      destruct (add_ge acc q v Hd H0 Hq) as (_ & Hkeep & _). by apply Hkeep.
    + intros q' v [->|Hin]%elem_of_cons Hv.
      * apply IH3.
        destruct (add_ge acc q v Hd H0 Hq) as (_ & _ & Hnew). by apply Hnew.
      * by apply (IH4 q').
Qed.

Lemma sum_is_double (hs : list t) acc :
  is_double acc -> Forall is_double hs -> is_double (foldl add acc hs).
Proof.
  intros Hacc Hhs. revert acc Hacc.
  induction Hhs as [|h hs Hh _ IH]; intros acc Hacc; simpl; [done|].
  apply IH. by apply add_is_double.
Qed.

(** Being over an integer, through a rational in between. *)
Lemma gt_int_ge_rat h n :
  gt_int h n <-> exists v : Qc, (Z2Qc n < v)%Qc /\ ge_rat h v.
Proof.
  destruct h as [w| | |]; simpl.
  - split.
    + intros Hw. exists w. split; [done|apply Qcle_refl].
    + intros (v & Hv & Hle). by eapply Qclt_le_trans.
  - split; [|done]. intros _. exists (Z2Qc n + 1)%Qc. split; [|done].
    rewrite <-(Qcplus_0_r (Z2Qc n)) at 1.
    by apply (proj1 (Qcplus_lt_mono_l 0 1 (Z2Qc n))).
  - split; [done|by intros (? & _ & ?)].
  - split; [done|by intros (? & _ & ?)].
Qed.

(** A double is settled by its value. *)
Lemma finite_eq h (q : Q) :
  match h with Finite w => Qeq_bool w q | _ => false end = true ->
  h = Finite (Q2Qc q).
Proof.
  destruct h as [w| | |]; [|done..]. intros Hw%Qeq_bool_eq.
  f_equal. apply Qc_is_canon. simpl. by rewrite Qred_correct.
Qed.

(** *** Doubles with few bits *)

(** A number with a mantissa of less than 53 bits and an exponent in the
    range of the doubles is rounded to itself. *)
Lemma round_dyadic m c :
  (0 < m < 2 ^ 53)%Z -> (-1074 <= c <= 970)%Z ->
  round (Q2Qc (inject_Z m * pow2 c)) = Finite (Q2Qc (inject_Z m * pow2 c)).
Proof.
  intros Hm Hc.
  assert (0 < inject_Z m * pow2 c) as Hpos.
  { apply Qmult_lt_0_compat; [apply inject_Z_pos; lia|apply pow2_pos]. }
  assert (0 < Q2Qc (inject_Z m * pow2 c)) as Hpos'
    by (cbn [this Q2Qc]; by rewrite Qred_correct).
  rewrite (round_pos_eq _ Hpos').
  rewrite (round_pos_comp _ (inject_Z m * pow2 c) Hpos')
    by apply Qred_correct.
  pose proof (nearest_fixed m c Hm ltac:(lia)) as Hfix.
  unfold round_pos.
  assert (Qle_bool (pow2 1024) (nearest (inject_Z m * pow2 c)) = false)
    as ->.
  { apply not_true_is_false. intros H. apply Qle_bool_iff in H.
    rewrite Hfix in H. apply Qle_not_lt in H. apply H.
    apply Qlt_le_trans with (pow2 53 * pow2 c).
    - apply Qmult_lt_compat_r; [apply pow2_pos|].
      rewrite (pow2_Z 53) by lia. rewrite <-Zlt_Qlt. lia.
    - rewrite <-pow2_add. apply pow2_le. lia. }
  f_equal. apply Qc_is_canon. cbn [this Q2Qc].
  by rewrite !Qred_correct.
Qed.

(** A working time of whole minutes within a day that is over a whole
    number of hours stays over it when the quotient is rounded. *)
Lemma round_minutes_over n cap :
  (0 <= n < 1440)%Z -> (Z2Qc cap < hours_of_minutes n)%Qc ->
  gt_int (round (hours_of_minutes n)) cap.
Proof.
  intros Hn Hover.
  assert (cap * 60 < n)%Z as Hlt.
  { rewrite hours_of_minutes_Z in Hover.
    by apply (proj1 (hours_of_minutes_lt _ _)) in Hover. }
  assert (0 <= hours_of_minutes n)%Qc as Hnn.
  { change 0%Qc with (Z2Qc 0). rewrite hours_of_minutes_Z.
    apply (proj2 (hours_of_minutes_le _ _)). lia. }
  destruct (decide (cap < 0)%Z) as [Hneg|Hnonneg].
  - pose proof (round_nonneg _ Hnn) as Hge.
    destruct (round (hours_of_minutes n)) as [v| | |]; simpl in *;
      [|done..].
    eapply Qclt_le_trans; [|exact Hge].
    change 0%Qc with (Z2Qc 0). rewrite !hours_of_minutes_Z.
    apply (proj2 (hours_of_minutes_lt _ _)). lia.
  - pose proof (round_dyadic (64 * cap + 1) (-6) ltac:(lia) ltac:(lia))
      as Hfix.
    assert (Q2Qc (inject_Z (64 * cap + 1) * pow2 (-6))
            <= hours_of_minutes n)%Qc as Hle.
    { unfold hours_of_minutes. apply Q2Qc_le.
      unfold Qle, pow2. simpl. lia. }
    assert (0 <= Q2Qc (inject_Z (64 * cap + 1) * pow2 (-6)))%Qc as H0.
    { apply (Q2Qc_le 0). unfold Qle, pow2. simpl. lia. }
    pose proof (round_mono _ _ _ H0 Hle Hfix) as Hge.
    destruct (round (hours_of_minutes n)) as [v| | |]; simpl in *;
      [|done..].
    eapply Qclt_le_trans; [|exact Hge].
    unfold Z2Qc. unfold Qclt. cbn [this Q2Qc]. rewrite !Qred_correct.
    unfold Qlt, pow2. simpl. lia.
Qed.

Lemma round_minutes_within n cap :
  (0 <= n < 1440)%Z -> (hours_of_minutes n <= Z2Qc cap)%Qc ->
  ~ gt_int (round (hours_of_minutes n)) cap.
Proof.
  intros Hn Hle.
  assert (n <= cap * 60)%Z as Hcap.
  { rewrite hours_of_minutes_Z in Hle.
    by apply (proj1 (hours_of_minutes_le _ _)) in Hle. }
  assert (0 <= hours_of_minutes n)%Qc as Hnn.
  { change 0%Qc with (Z2Qc 0). rewrite hours_of_minutes_Z.
    apply (proj2 (hours_of_minutes_le _ _)). lia. }
  destruct (decide (cap = 0)%Z) as [->|Hne].
  - replace n with 0%Z by lia. by vm_compute.
  - assert (0 < Z.min cap 24 < 2 ^ 53)%Z as Hm by lia.
    pose proof (round_dyadic (Z.min cap 24) 0 Hm ltac:(lia)) as Hfix.
    assert (Q2Qc (inject_Z (Z.min cap 24) * pow2 0) = Z2Qc (Z.min cap 24))
      as Heq.
    { apply Qc_is_canon. unfold Z2Qc. cbn [this Q2Qc].
      rewrite !Qred_correct. unfold pow2. simpl. ring. }
    rewrite Heq in Hfix.
    assert (hours_of_minutes n <= Z2Qc (Z.min cap 24))%Qc as Hle'.
    { rewrite hours_of_minutes_Z.
      apply (proj2 (hours_of_minutes_le _ _)). lia. }
    destruct (round_mono_finite _ _ _ Hnn Hle' Hfix) as (v & -> & Hv).
    simpl. apply Qcle_not_lt. eapply Qcle_trans; [exact Hv|].
    rewrite !hours_of_minutes_Z.
    apply (proj2 (hours_of_minutes_le _ _)). lia.
Qed.
(** *** Known doubles *)

(** [0.1] is 3602879701896397 / 2^55, and [0.1 + 0.2] is
    [0.30000000000000004], 1351079888211149 / 2^52. *)
Example one_tenth :
  round (Q2Qc (1 # 10)) = Finite (Q2Qc (3602879701896397 # 2 ^ 55)).
Proof. apply finite_eq. by vm_compute. Qed.

Example one_tenth_plus_two_tenths :
  add (round (Q2Qc (1 # 10))) (round (Q2Qc (2 # 10))) =
  Finite (Q2Qc (1351079888211149 # 2 ^ 52)).
Proof. apply finite_eq. by vm_compute. Qed.

(** Ties go to the even neighbour: [2^53 + 1] becomes [2^53] and
    [2^53 + 3] becomes [2^53 + 4]. *)
Example ties_to_even :
  round (Z2Qc (2 ^ 53 + 1)) = Finite (Q2Qc (inject_Z (2 ^ 53))) /\
  round (Z2Qc (2 ^ 53 + 3)) = Finite (Q2Qc (inject_Z (2 ^ 53 + 4))).
Proof. split; apply finite_eq; by vm_compute. Qed.

(** The ends of the range: half the least subnormal becomes zero, and
    [2^1024] is out of range. *)
Example ends_of_the_range :
  round (Q2Qc (pow2 (-1075))) = Finite (Q2Qc 0) /\
  round (Q2Qc (3 * pow2 (-1075))) = Finite (Q2Qc (pow2 (-1073))) /\
  round (Q2Qc (pow2 1024)) = PInf.
Proof.
  split_and!; [apply finite_eq; by vm_compute..|by vm_compute].
Qed.
End DoubleFacts.

(** ** Dictionaries and grouped sums *)
Module DictFacts.
Import Models Dict LaborLaw.

Section keyed.
Context {K V : Type} `{EqDecision K}.
Implicit Types (ks : list K) (f : K → V).

Lemma first_occ_snoc ks k :
  first_occ (ks ++ [k]) =
  if decide (k ∈ first_occ ks) then first_occ ks else first_occ ks ++ [k].
Proof. unfold first_occ. by rewrite foldl_snoc. Qed.

Lemma elem_of_first_occ ks k : k ∈ first_occ ks ↔ k ∈ ks.
Proof.
  induction ks as [|x ks IH] using rev_ind.
  - done.
  - rewrite first_occ_snoc, elem_of_app, list_elem_of_singleton.
    case_decide as Hx.
    + split; [tauto|]. intros [?| ->]; [tauto|done].
    + rewrite elem_of_app, list_elem_of_singleton. tauto.
Qed.

Lemma NoDup_first_occ ks : NoDup (first_occ ks).
Proof.
  induction ks as [|x ks IH] using rev_ind.
  - constructor.
  - rewrite first_occ_snoc. case_decide as Hx; [done|].
    apply NoDup_app. split_and!; [done| |apply NoDup_singleton].
    intros y Hy ->%list_elem_of_singleton. done.
Qed.

Lemma get_fmap ks f k :
  get k ((λ k, (k, f k)) <$> ks) =
  if decide (k ∈ ks) then Some (f k) else None.
Proof.
  induction ks as [|x ks IH]; csimpl.
  - done.
  - destruct (decide (k = x)) as [->|Hx].
    + by rewrite decide_True by left.
    + rewrite IH. destruct (decide (k ∈ ks)) as [Hin|Hin].
      * by rewrite decide_True by (by right).
      * rewrite decide_False; [done|]. by intros [?|?]%elem_of_cons.
Qed.

Lemma set_fmap_in ks f k v :
  k ∈ ks → NoDup ks →
  set k v ((λ k, (k, f k)) <$> ks) =
  (λ k', (k', if decide (k' = k) then v else f k')) <$> ks.
Proof.
  induction ks as [|x ks IH]; csimpl; intros Hin Hnd.
  - by apply elem_of_nil in Hin.
  - apply NoDup_cons in Hnd as [Hx Hnd].
    destruct (decide (k = x)) as [->|Hk].
    + rewrite decide_True by done. f_equal.
      apply list_fmap_ext. intros i y Hy.
      rewrite decide_False; [done|]. intros ->.
      apply Hx. eapply list_elem_of_lookup_2. done.
    + rewrite decide_False by done. f_equal. apply IH; [|done].
      apply elem_of_cons in Hin as [?|?]; done.
Qed.

Lemma set_fmap_notin ks f k v :
  k ∉ ks →
  set k v ((λ k, (k, f k)) <$> ks) = ((λ k, (k, f k)) <$> ks) ++ [(k, v)].
Proof.
  induction ks as [|x ks IH]; csimpl; intros Hin; [done|].
  apply not_elem_of_cons in Hin as [? ?].
  rewrite decide_False by done. f_equal. by apply IH.
Qed.
End keyed.

Lemma sum_hours_app l1 l2 :
  sum_hours (l1 ++ l2) = (sum_hours l1 + sum_hours l2)%Qc.
Proof.
  induction l1 as [|s l1 IH]; simpl.
  - by rewrite Qcplus_0_l.
  - rewrite IH. apply Qcplus_assoc.
Qed.

Section totals.
Context {K : Type} `{EqDecision K} (key : Shift → K).

(** The running sum of a key, one shift later. *)
Lemma accumulated_snoc k l s :
  accumulated key k (l ++ [s]) =
  if decide (key s = k)
  then Double.add (accumulated key k l) (duration s)
  else accumulated key k l.
Proof.
  unfold accumulated. rewrite filter_app, filter_cons, filter_nil.
  case_decide; [|by rewrite app_nil_r].
  rewrite fmap_app. csimpl. by rewrite foldl_snoc.
Qed.

Lemma accumulated_absent k l :
  k ∉ key <$> l → accumulated key k l = Double.Finite 0.
Proof.
  intros Hk. unfold accumulated.
  induction l as [|s l IH]; [done|].
  apply not_elem_of_cons in Hk as [? ?].
  rewrite filter_cons_False by done. by apply IH.
Qed.

(** The dictionary built by a grouping loop: the keys in order of
    first appearance, each with the sum of its shifts as the loop has
    added them up. *)
Lemma group_hours_spec l :
  group_hours key l =
  (λ k, (k, accumulated key k l)) <$> first_occ (key <$> l).
Proof.
  induction l as [|s l IH] using rev_ind; [done|].
  unfold group_hours in *. rewrite foldl_snoc, IH. clear IH.
  rewrite fmap_app. csimpl. rewrite first_occ_snoc.
  set (ks := first_occ (key <$> l)).
  unfold add_hours, mem. rewrite get_fmap.
  destruct (decide (key s ∈ ks)) as [Hin|Hin].
  - rewrite bool_decide_eq_true_2 by eauto. rewrite get_fmap.
    rewrite decide_True by done.
    rewrite set_fmap_in by (done || apply NoDup_first_occ).
    apply list_fmap_ext. intros i k Hk. f_equal.
    rewrite accumulated_snoc. case_decide as Hks.
    + subst k. by rewrite decide_True.
    + by rewrite decide_False by done.
  - rewrite bool_decide_eq_false_2 by (by intros [? [=]]).
    rewrite set_fmap_notin by done.
    assert (get (key s)
             (((λ k, (k, accumulated key k l)) <$> ks)
              ++ [(key s, Double.Finite 0)])
            = Some (Double.Finite 0)) as ->.
    { clear -Hin. induction ks as [|x ks IH]; csimpl.
      - by rewrite decide_True.
      - apply not_elem_of_cons in Hin as [? ?].
        rewrite decide_False by done. by apply IH. }
    assert (∀ v w, set (key s) w
             (((λ k, (k, accumulated key k l)) <$> ks) ++ [(key s, v)])
            = ((λ k, (k, accumulated key k l)) <$> ks) ++ [(key s, w)])
      as ->.
    { clear -Hin. intros v w. induction ks as [|x ks IH]; csimpl.
      - by rewrite decide_True.
      - apply not_elem_of_cons in Hin as [? ?].
        rewrite decide_False by done. f_equal. by apply IH. }
    rewrite fmap_app. csimpl. f_equal.
    + apply list_fmap_ext. intros i k Hk. f_equal.
      rewrite accumulated_snoc, decide_False; [done|].
      intros <-. apply Hin. eapply list_elem_of_lookup_2. done.
    + rewrite accumulated_snoc, decide_True by done.
      rewrite accumulated_absent; [done|].
      by rewrite <-elem_of_first_occ.
Qed.
End totals.

(** [first_over] stops at the first entry above the limit. *)
Lemma first_over_fmap {K} limit (f : K → Double.t) (ks : list K) :
  first_over limit ((λ k, (k, f k)) <$> ks) =
  (λ k, (k, f k)) <$> head (filter (λ k, Double.gt_int (f k) limit) ks).
Proof.
  induction ks as [|k ks IH]; csimpl; [done|].
  rewrite filter_cons. by case_decide.
Qed.
End DictFacts.

(** ** The compliance rules *)
Module LaborLawFacts.
Import Calendar Models Dict Config LaborLaw DictFacts DurationFacts DoubleFacts.

(** What a grouping rule finds: the first key, in order of first
    appearance, whose accumulated hours are over the limit. *)
Lemma first_over_group {K} `{EqDecision K} (key : Shift → K) limit l :
  first_over limit (group_hours key l) =
  (λ k, (k, accumulated key k l)) <$>
    head (filter (λ k, Double.gt_int (accumulated key k l) limit)
            (first_occ (key <$> l))).
Proof.
  rewrite group_hours_spec.
  apply (first_over_fmap limit (λ k, accumulated key k l)).
Qed.

Section rules.
Variable cfg : Config.t.



(** The daily rule reports the first date, in order of first appearance
    among the worker's shifts, whose accumulated hours are over the
    cap. *)
Lemma check_daily_work_hours_spec shifts uid uname :
  let mine := filter (λ s, Models.user_id s = uid) shifts in
  check_daily_work_hours cfg shifts uid uname =
  daily_violation cfg uid uname mine <$>
    head (filter (λ d, Double.gt_int (accumulated date d mine)
                         (MAX_WORK_HOURS_PER_DAY cfg))
            (first_occ (date <$> mine))).
Proof.
  intros mine. unfold check_daily_work_hours. fold mine.
  rewrite first_over_group. by destruct (head _).
Qed.

(** The weekly rule reports the first key, in order of first appearance
    among the worker's shifts, whose accumulated hours are over the cap;
    the key of a shift is the calendar year of its date with the ISO week
    number of its date. *)
Lemma check_weekly_work_hours_spec shifts uid uname :
  let mine := filter (λ s, Models.user_id s = uid) shifts in
  let week_of s := (year (date s), iso_week (date s)) in
  check_weekly_work_hours cfg shifts uid uname =
  weekly_violation cfg uid uname mine <$>
    head (filter (λ wk, Double.gt_int (accumulated week_of wk mine)
                          (MAX_WORK_HOURS_PER_WEEK cfg))
            (first_occ (week_of <$> mine))).
Proof.
  intros mine week_of. unfold check_weekly_work_hours. fold mine.
  rewrite first_over_group. by destruct (head _).
Qed.



(** The loops of [check_all_violations] only append to the list. *)
Lemma foldl_append {A B} (f : A → list B) (step : list B → A → list B)
    (acc : list B) (l : list A) :
  (∀ acc x, step acc x = acc ++ f x) →
  foldl step acc l = acc ++ (l ≫= f).
Proof.
  intros Hstep. revert acc.
  induction l as [|x l IH]; intros acc; csimpl.
  - by rewrite app_nil_r.
  - by rewrite IH, Hstep, <-app_assoc.
Qed.

Lemma append_if_app acc (o : option LaborLawViolation) :
  append_if acc o = acc ++ option_list o.
Proof. destruct o; simpl; [done|by rewrite app_nil_r]. Qed.

Lemma check_all_violations_unfold set_iter shifts :
  check_all_violations cfg set_iter shifts =
  (set_iter (Models.user_id <$> shifts) ≫= per_worker cfg shifts)
  ++ omap check_rest_time shifts.
Proof.
  unfold check_all_violations.
  rewrite (foldl_append (λ s, option_list (check_rest_time s)))
    by (intros; apply append_if_app).
  rewrite (foldl_append (per_worker cfg shifts)).
  - simpl. f_equal. induction shifts as [|s shifts IH]; [done|].
    csimpl. rewrite IH. by destruct (check_rest_time s).
  - intros acc u. unfold per_worker.
    destruct (filter _ _) as [|first ?]; [by rewrite app_nil_r|].
    by rewrite !append_if_app, <-!app_assoc.
Qed.

Lemma filter_none {A} (P : A → Prop) `{∀ x, Decision (P x)} (l : list A) :
  Forall (λ x, ¬ P x) l → filter P l = [].
Proof.
  induction 1 as [|x l Hx _ IH]; [done|].
  by rewrite filter_cons_False.
Qed.





(** *** Sorting by date *)

Lemma insert_by_date_perm s l : insert_by_date s l ≡ₚ s :: l.
Proof.
  induction l as [|x l IH]; simpl; [done|].
  case_decide; [done|]. rewrite IH. apply Permutation_swap.
Qed.

Lemma sorted_by_date_perm l : sorted_by_date l ≡ₚ l.
Proof.
  induction l as [|x l IH]; simpl; [done|].
  by rewrite insert_by_date_perm, IH.
Qed.

Lemma insert_by_date_sorted s l :
  Sorted (λ a b, date a ≤ date b) l →
  Sorted (λ a b, date a ≤ date b) (insert_by_date s l).
Proof.
  induction 1 as [|x l Hl IH Hhd]; simpl.
  - by repeat constructor.
  - case_decide as Hle.
    + by repeat constructor.
    + constructor; [done|].
      destruct Hhd as [|y l' Hy]; simpl.
      * constructor. lia.
      * case_decide; constructor; lia.
Qed.

Lemma sorted_by_date_sorted l :
  Sorted (λ a b, date a ≤ date b) (sorted_by_date l).
Proof.
  induction l as [|x l IH]; simpl; [constructor|].
  by apply insert_by_date_sorted.
Qed.

(** *** The walk over the sorted dates *)

Lemma walk_days_spec uid uname n prev rest :
  1 ≤ MAX_CONSECUTIVE_WORK_DAYS cfg → n ≤ MAX_CONSECUTIVE_WORK_DAYS cfg →
  walk_days cfg uid uname n prev rest =
  consecutive_violation cfg uid uname <$>
    head (filter (λ k, MAX_CONSECUTIVE_WORK_DAYS cfg < k)
            (streaks_from prev n (date <$> rest))).
Proof.
  intros Hmax. revert n prev.
  induction rest as [|s rest IH]; intros n prev Hn; csimpl; [done|].
  destruct (decide (date s = prev + 1)) as [Hd|Hd].
  - destruct (decide (MAX_CONSECUTIVE_WORK_DAYS cfg < n + 1)) as [Hlt|Hlt].
    + by rewrite filter_cons_True.
    + rewrite filter_cons_False by done. apply IH. lia.
  - rewrite filter_cons_False by lia. by apply IH.
Qed.

Lemma check_consecutive_work_days_spec shifts uid uname :
  1 ≤ MAX_CONSECUTIVE_WORK_DAYS cfg →
  check_consecutive_work_days cfg shifts uid uname =
  consecutive_violation cfg uid uname <$>
    head (filter (λ k, MAX_CONSECUTIVE_WORK_DAYS cfg < k)
            (streaks (date <$> sorted_by_date
               (filter (λ s, Models.user_id s = uid) shifts)))).
Proof.
  intros Hmax. unfold check_consecutive_work_days.
  destruct (sorted_by_date _) as [|first rest]; csimpl; [done|].
  rewrite filter_cons_False by lia. by apply walk_days_spec.
Qed.

(** Without an assumption on the maximum: a streak value is compared
    with the maximum only where the streak has just been extended, so a
    value of 1 is never tested. *)
Lemma walk_days_tested uid uname n prev rest :
  1 ≤ n →
  walk_days cfg uid uname n prev rest =
  consecutive_violation cfg uid uname <$>
    head (filter (λ k, MAX_CONSECUTIVE_WORK_DAYS cfg < k ∧ 1 < k)
            (streaks_from prev n (date <$> rest))).
Proof.
  revert n prev.
  induction rest as [|s rest IH]; intros n prev Hn; csimpl; [done|].
  destruct (decide (date s = prev + 1)) as [Hd|Hd].
  - destruct (decide (MAX_CONSECUTIVE_WORK_DAYS cfg < n + 1)) as [Hlt|Hlt].
    + by rewrite filter_cons_True by (split; [done|lia]).
    + rewrite filter_cons_False by (by intros [? _]). apply IH. lia.
  - rewrite filter_cons_False by (intros [_ ?]; lia). by apply IH.
Qed.

Lemma check_consecutive_work_days_tested shifts uid uname :
  check_consecutive_work_days cfg shifts uid uname =
  consecutive_violation cfg uid uname <$>
    head (filter (λ k, MAX_CONSECUTIVE_WORK_DAYS cfg < k ∧ 1 < k)
            (streaks (date <$> sorted_by_date
               (filter (λ s, Models.user_id s = uid) shifts)))).
Proof.
  unfold check_consecutive_work_days.
  destruct (sorted_by_date _) as [|first rest]; csimpl; [done|].
  rewrite filter_cons_False by (intros [_ ?]; lia).
  by apply walk_days_tested.
Qed.

(** *** The rules as stated *)

(** C5 (amended).  [check_all_violations] first visits the distinct
    workers in the iteration order of the id set, each exactly once,
    and appends for each worker the daily, weekly and consecutive-days
    results in that order, named after the worker's first shift; it
    then appends the rest-time results of all shifts in list order.
    The list is grouped by worker for the three aggregated rules, with
    the rest-time violations last. *)
Theorem check_all_violations_order set_iter shifts :
  let workers := set_iter (Models.user_id <$> shifts) in
  NoDup workers →
  (∀ u, u ∈ workers ↔ u ∈ (Models.user_id <$> shifts)) →
  check_all_violations cfg set_iter shifts =
    (workers ≫= per_worker cfg shifts) ++ omap check_rest_time shifts ∧
  (∀ s, s ∈ shifts → ∃ before after,
     workers = before ++ Models.user_id s :: after ∧
     (Models.user_id s ∉ before) ∧ (Models.user_id s ∉ after)) ∧
  (∀ u, u ∈ workers → ∃ first,
     head (filter (λ s, Models.user_id s = u) shifts) = Some first ∧
     per_worker cfg shifts u =
       option_list (check_daily_work_hours cfg shifts u (name_of first))
       ++ option_list
            (check_weekly_work_hours cfg shifts u (name_of first))
       ++ option_list
            (check_consecutive_work_days cfg shifts u (name_of first))).
Proof.
  intros workers Hnd Hin. split_and!.
  - apply check_all_violations_unfold.
  - intros s Hs.
    assert (Models.user_id s ∈ workers) as Hw.
    { apply Hin. by apply list_elem_of_fmap_2. }
    apply list_elem_of_split in Hw as (before & after & Heq).
    exists before, after. split; [done|]. rewrite Heq in Hnd.
    apply NoDup_app in Hnd as (_ & Hb & [Ha _]%NoDup_cons).
    split; [|done]. intros Hbefore. apply (Hb _ Hbefore). by left.
  - intros u Hu. apply Hin, list_elem_of_fmap in Hu as (s & -> & Hs).
    unfold per_worker.
    destruct (filter (λ s0, Models.user_id s0 = Models.user_id s) shifts)
      as [|first rest] eqn:Hf.
    + exfalso. eapply (filter_nil_not_elem_of _ _ s); [exact Hf|done|done].
    + by exists first.
Qed.

(** C7 (amended).  The consecutive-days rule walks the worker's dates
    in ascending order, keeping a streak that grows by one when a date
    is one day after the previous one and restarts at 1 otherwise (a
    repeated date included).  The streak is compared with the maximum
    only where it has just grown: the rule reports a critical
    [consecutive_days_exceeded] violation for the first streak value
    that is over the maximum and over 1.  For a maximum of at least 1
    that is the first streak value over the maximum. *)
Theorem consecutive_days_rule shifts uid uname :
  let mine := filter (λ s, Models.user_id s = uid) shifts in
  let days := date <$> sorted_by_date mine in
  let limit := MAX_CONSECUTIVE_WORK_DAYS cfg in
  days ≡ₚ date <$> mine ∧ Sorted Z.le days ∧
  check_consecutive_work_days cfg shifts uid uname =
    consecutive_violation cfg uid uname <$>
      head (filter (λ k, limit < k ∧ 1 < k) (streaks days)) ∧
  (1 ≤ limit →
   check_consecutive_work_days cfg shifts uid uname =
     consecutive_violation cfg uid uname <$>
       head (filter (λ k, limit < k) (streaks days))).
Proof.
  intros mine days limit. split_and!.
  - subst days. by rewrite sorted_by_date_perm.
  - apply (Sorted_fmap _ (λ a b, date a ≤ date b));
      [done|apply sorted_by_date_sorted].
  - apply check_consecutive_work_days_tested.
  - apply check_consecutive_work_days_spec.
Qed.


(** C10.  A shift without a start time or without an end time has a
    duration of zero hours: the rest-time rule reports nothing for it,
    and it leaves the total of every date and of every week as it is
    without the shift, in exact hours and in the doubles that the
    grouping loops add up. *)
Theorem missing_time_counts_zero s :
  start_time s = None ∨ end_time s = None →
  get_duration_hours s = 0%Qc ∧ check_rest_time s = None ∧
  (∀ l1 l2 d, total date d (l1 ++ s :: l2) = total date d (l1 ++ l2)) ∧
  (∀ l1 l2 wk,
     total (λ s, week_key (date s)) wk (l1 ++ s :: l2) =
     total (λ s, week_key (date s)) wk (l1 ++ l2)) ∧
  duration s = Double.Finite 0 ∧
  (∀ l1 l2 d,
     accumulated date d (l1 ++ s :: l2) = accumulated date d (l1 ++ l2)) ∧
  (∀ l1 l2 wk,
     accumulated (λ s, week_key (date s)) wk (l1 ++ s :: l2) =
     accumulated (λ s, week_key (date s)) wk (l1 ++ l2)).
Proof.
  intros Hs%get_duration_hours_missing.
  assert (∀ K `(EqDecision K) (key : Shift → K) l1 l2 k,
            total key k (l1 ++ s :: l2) = total key k (l1 ++ l2)) as Ht.
  { intros K ? key l1 l2 k. unfold total.
    rewrite !filter_app, !sum_hours_app, filter_cons.
    case_decide; [|done]. simpl. by rewrite Hs, Qcplus_0_l. }
  assert (duration s = Double.Finite 0) as Hd.
  { unfold duration. by rewrite Hs. }
  assert (∀ K `(EqDecision K) (key : Shift → K) l1 l2 k,
            accumulated key k (l1 ++ s :: l2) = accumulated key k (l1 ++ l2))
    as Ha.
  { intros K ? key l1 l2 k. unfold accumulated.
    rewrite !filter_app, filter_cons. case_decide; [|done].
    rewrite !fmap_app, !foldl_app. csimpl. rewrite Hd. f_equal.
    apply add_zero, sum_is_double; [done|].
    apply Forall_fmap, Forall_forall. intros s' _. apply round_is_double. }
  split_and!;
    [done| |intros; apply Ht|intros; apply Ht|done
    |intros; apply Ha|intros; apply Ha].
  unfold check_rest_time. rewrite Hs.
  rewrite decide_False by (by intros [? _]).
  by rewrite decide_False.
Qed.
End rules.

(** *** The rules on concrete shift lists *)
Import Examples.

(** C6.  The key under which the weekly rule adds up hours is the
    calendar year of a date with its ISO week number.  That is not the
    ISO week.  The six days from Monday 30 December 2024 to Saturday 4
    January 2025 are one ISO week; with eight hours on each of them the
    week holds 48 hours, but the rule files two days under (2024, 1) and
    four under (2025, 1) and reports nothing.  Monday 1 January 2024 and
    Monday 30 December 2024 are fifty-two weeks apart and share the key
    (2024, 1): eight hours on each of the first five days of 2024 and on
    30 December 2024 are reported as a week of 48 hours, though no ISO
    week holds more than 40.  The hours are added as doubles: a week of
    452, 762, 350, 682 and 154 minutes, forty hours, is reported with
    40 + 2^-47 hours. *)
Theorem weekly_hours_key_is_not_the_iso_week :
  (Forall (λ s, week_monday (date s) = year_end_2024) one_long_week ∧
   sum_hours one_long_week = Z2Qc 48 ∧
   (week_key ∘ date) <$> one_long_week =
     [(2024, 1); (2024, 1); (2025, 1); (2025, 1); (2025, 1); (2025, 1)] ∧
   check_weekly_work_hours Config.defaults one_long_week 1 "A" = None) ∧
  (week_key new_year_2024 = (2024, 1) ∧ week_key year_end_2024 = (2024, 1) ∧
   week_monday new_year_2024 = new_year_2024 ∧
   week_monday year_end_2024 = new_year_2024 + 52 * 7 ∧
   Forall (λ s, (total (week_monday ∘ date) (week_monday (date s)) split_year
                 ≤ Z2Qc 40)%Qc) split_year ∧
   check_weekly_work_hours Config.defaults split_year 1 "A" =
     Some (weekly_violation Config.defaults 1 "A" split_year (2024, 1)) ∧
   accumulated (week_key ∘ date) (2024, 1) split_year =
     Double.Finite (Z2Qc 48)) ∧
  (Forall (λ s, week_monday (date s) = monday) forty_hour_week ∧
   sum_hours forty_hour_week = Z2Qc 40 ∧
   check_weekly_work_hours Config.defaults forty_hour_week 1 "A" =
     Some (weekly_violation Config.defaults 1 "A" forty_hour_week (2024, 10)) ∧
   accumulated (week_key ∘ date) (2024, 10) forty_hour_week =
     Double.Finite (Q2Qc (40 + (1 # 2 ^ 47)))).
Proof.
  split_and!.
  - by repeat constructor.
  - apply Qc_is_canon. by vm_compute.
  - by vm_compute.
  - rewrite check_weekly_work_hours_spec. by vm_compute.
  - by vm_compute.
  - by vm_compute.
  - by vm_compute.
  - by vm_compute.
  - repeat constructor; by vm_compute.
  - rewrite check_weekly_work_hours_spec.
    assert (head (filter
      (λ wk, Double.gt_int
         (accumulated (λ s, (year (date s), iso_week (date s))) wk
            (filter (λ s, Models.user_id s = 1) split_year))
         (MAX_WORK_HOURS_PER_WEEK Config.defaults))
      (first_occ ((λ s, (year (date s), iso_week (date s))) <$>
         filter (λ s, Models.user_id s = 1) split_year))) = Some (2024, 1))
      as -> by (by vm_compute).
    done.
  - apply (finite_eq _ 48). by vm_compute.
  - by repeat constructor.
  - apply Qc_is_canon. by vm_compute.
  - rewrite check_weekly_work_hours_spec.
    assert (head (filter
      (λ wk, Double.gt_int
         (accumulated (λ s, (year (date s), iso_week (date s))) wk
            (filter (λ s, Models.user_id s = 1) forty_hour_week))
         (MAX_WORK_HOURS_PER_WEEK Config.defaults))
      (first_occ ((λ s, (year (date s), iso_week (date s))) <$>
         filter (λ s, Models.user_id s = 1) forty_hour_week)))
      = Some (2024, 10)) as -> by (by vm_compute).
    done.
  - apply finite_eq. by vm_compute.
Qed.

(** Two workers who both break the daily and the weekly cap: the list
    alternates between the two rules, so it is not grouped by rule. *)
Lemma check_all_violations_not_grouped_by_rule :
  ¬ grouped_by_rule
      (check_all_violations Config.defaults in_order_of_appearance
         two_overworked).
Proof.
  unfold grouped_by_rule. intros H.
  assert ("weekly_hours_exceeded" = "daily_hours_exceeded") as Habs.
  { apply (H 0 1 2 "daily_hours_exceeded" "weekly_hours_exceeded"
             "daily_hours_exceeded")%nat;
      [lia|vm_compute; reflexivity..]. }
  discriminate Habs.
Qed.

Lemma check_all_violations_order_witness :
  NoDup (in_order_of_appearance (Models.user_id <$> two_overworked)) ∧
  check_all_violations Config.defaults in_order_of_appearance two_overworked
  = (in_order_of_appearance (Models.user_id <$> two_overworked)
       ≫= per_worker Config.defaults two_overworked)
    ++ omap check_rest_time two_overworked.
Proof.
  assert (NoDup (in_order_of_appearance (Models.user_id <$> two_overworked)))
    as Hnd by apply NoDup_first_occ.
  split; [exact Hnd|].
  apply (check_all_violations_order Config.defaults in_order_of_appearance
           two_overworked Hnd).
  intros u. apply elem_of_first_occ.
Defined.

(** With a maximum of no consecutive work day, the streak of a single
    shift is 1 and over the maximum, and nothing is reported. *)
Lemma lone_shift_is_not_reported :
  streaks (date <$> sorted_by_date
             (filter (λ s, Models.user_id s = 1)
                [shift_on 1 monday 9 0 17 0])) = [1] ∧
  MAX_CONSECUTIVE_WORK_DAYS no_consecutive_days < 1 ∧
  check_consecutive_work_days no_consecutive_days
    [shift_on 1 monday 9 0 17 0] 1 "A" = None ∧
  check_consecutive_work_days no_consecutive_days
    [shift_on 1 monday 9 0 17 0] 1 "A" ≠
  consecutive_violation no_consecutive_days 1 "A" <$>
    head (filter (λ k, MAX_CONSECUTIVE_WORK_DAYS no_consecutive_days < k)
            (streaks (date <$> sorted_by_date
               (filter (λ s, Models.user_id s = 1)
                  [shift_on 1 monday 9 0 17 0])))).
Proof. split_and!; by vm_compute. Qed.


(** Seven successive days with a maximum of six: the seventh day is
    reported. *)
Lemma consecutive_days_rule_witness :
  1 ≤ MAX_CONSECUTIVE_WORK_DAYS Config.defaults ∧
  check_consecutive_work_days Config.defaults seven_days 1 "A" =
  Some (consecutive_violation Config.defaults 1 "A" 7).
Proof.
  assert (1 ≤ MAX_CONSECUTIVE_WORK_DAYS Config.defaults) as Hmax
    by (simpl; lia).
  split; [exact Hmax|].
  destruct (consecutive_days_rule Config.defaults seven_days 1 "A")
    as (_ & _ & _ & Hrule).
  rewrite (Hrule Hmax). vm_compute. reflexivity.
Defined.


Lemma missing_time_counts_zero_witness :
  end_time open_ended = None ∧
  get_duration_hours open_ended = 0%Qc ∧
  check_rest_time open_ended = None.
Proof.
  assert (start_time open_ended = None ∨ end_time open_ended = None) as Hm
    by (right; reflexivity).
  destruct (missing_time_counts_zero open_ended Hm) as (H1 & H2 & _).
  split_and!; [reflexivity|exact H1|exact H2].
Defined.

(** The compliance cases listed with the rules. *)
Example daily_nine_hours_flagged :
  violation_type <$>
    check_daily_work_hours Config.defaults
      [shift_on 1 monday 9 0 13 0; shift_on 1 monday 14 0 19 0] 1 "A"
  = Some "daily_hours_exceeded".
Proof. vm_compute. reflexivity. Qed.

Example weekly_forty_one_hours_flagged :
  violation_type <$>
    check_weekly_work_hours Config.defaults
      (days_from 1 monday 5 9 17 ++ [shift_on 1 (monday + 5) 9 0 10 0]) 1 "A"
  = Some "weekly_hours_exceeded".
Proof. vm_compute. reflexivity. Qed.

Example weekly_forty_hours_not_flagged :
  check_weekly_work_hours Config.defaults (days_from 1 monday 5 9 17) 1 "A"
  = None.
Proof. vm_compute. reflexivity. Qed.

Example seven_hour_shift_needs_rest :
  details <$> check_rest_time (shift_on 1 monday 9 0 16 0)
  = Some (RestDetails monday (get_duration_hours (shift_on 1 monday 9 0 16 0))
            45).
Proof. vm_compute. reflexivity. Qed.

(** Three shifts of 81, 353 and 46 minutes on one day, none longer than
    six hours and eight hours together: the doubles add up to
    8 + 2^-49, and the day is reported. *)
Example three_short_shifts_flagged :
  accumulated date monday
    [shift_on 1 monday 8 0 9 21; shift_on 1 monday 9 21 15 14;
     shift_on 1 monday 15 14 16 0] =
    Double.Finite (Q2Qc (8 + (1 # 2 ^ 49))) ∧
  violation_type <$>
    check_all_violations Config.defaults in_order_of_appearance
      [shift_on 1 monday 8 0 9 21; shift_on 1 monday 9 21 15 14;
       shift_on 1 monday 15 14 16 0]
  = ["daily_hours_exceeded"].
Proof. split; [apply finite_eq|]; by vm_compute. Qed.

(** A repeated date restarts the streak: eight shifts over seven
    successive days, two of them on the third day, are not flagged. *)
Example repeated_date_restarts_streak :
  check_consecutive_work_days Config.defaults
    (seven_days ++ [shift_on 1 (monday + 2) 18 0 20 0]) 1 "A" = None.
Proof. vm_compute. reflexivity. Qed.

(** Worker 1 is over the daily cap on five dates; one daily violation is
    reported, for the first of them. *)
Example five_dates_over_one_report :
  (λ v, match details v with DailyDetails d _ _ => Some d | _ => None end) <$>
    filter (λ v, v_user_id v = 1 ∧ violation_type v = "daily_hours_exceeded")
      (check_all_violations Config.defaults in_order_of_appearance
         two_overworked)
  = [Some monday].
Proof. vm_compute. reflexivity. Qed.
End LaborLawFacts.

(** ** The approval workflow *)
Module ApprovalFacts.
Import Models ShiftRevision Approval Examples.

(** What [reject_shifts] does to the row stored under [k]. *)
Lemma reject_shifts_lookup st g rejecter reason now k :
  shifts (reject_shifts st g rejecter reason now).2 !! k =
  (λ s, if reject_selected g s
        then set_rejected rejecter now reason (set_status DRAFT s)
        else s) <$> shifts st !! k.
Proof. unfold reject_shifts. simpl. apply lookup_fmap. Qed.

Lemma reject_shifts_returns st g rejecter reason now :
  (reject_shifts st g rejecter reason now).1 = true ∧
  revisions (reject_shifts st g rejecter reason now).2 = revisions st.
Proof. done. Qed.

(** The rows that are reset, and what the reset records. *)
Lemma reject_shifts_resets st g rejecter reason now k s :
  shifts st !! k = Some s → group_id s = g →
  status s ∈ [ADJUSTED; PENDING; APPROVED] →
  ∃ s', shifts (reject_shifts st g rejecter reason now).2 !! k = Some s' ∧
    status s' = DRAFT ∧ rejected_by s' = Some rejecter ∧
    rejected_at s' = Some now ∧ rejection_reason s' = Some reason ∧
    user_id s' = user_id s ∧ date s' = date s ∧
    start_time s' = start_time s ∧ end_time s' = end_time s ∧
    version s' = version s.
Proof.
  intros Hk Hg Hs. rewrite reject_shifts_lookup, Hk. simpl.
  unfold reject_selected. rewrite bool_decide_eq_true_2 by done.
  eexists. split; [done|]. by destruct s.
Qed.

(** The rows that are left as they are. *)
Lemma reject_shifts_keeps st g rejecter reason now k s :
  shifts st !! k = Some s →
  group_id s ≠ g ∨ status s ∈ [DRAFT; ADJUSTING; PUBLISHED; REJECTED] →
  shifts (reject_shifts st g rejecter reason now).2 !! k = Some s.
Proof.
  intros Hk Hs. rewrite reject_shifts_lookup, Hk. simpl.
  unfold reject_selected. rewrite bool_decide_eq_false_2; [done|].
  intros [Hg Hst]. destruct Hs as [?|Hs]; [done|].
  destruct (status s);
    first [by (apply (bool_decide_pack _) in Hst; vm_compute in Hst)
          |by (apply (bool_decide_pack _) in Hs; vm_compute in Hs)].
Qed.

(** C1.  A row of the group whose status is [ADJUSTING] can be rejected
    according to [Shift.can_reject], yet [reject_shifts] leaves it as it
    is: the query selects [ADJUSTED], [PENDING] and [APPROVED] only. *)
Theorem reject_shifts_skips_adjusting st g rejecter reason now k s :
  shifts st !! k = Some s → group_id s = g → status s = ADJUSTING →
  can_reject s = true ∧
  (reject_shifts st g rejecter reason now).1 = true ∧
  shifts (reject_shifts st g rejecter reason now).2 !! k = Some s.
Proof.
  intros Hk Hg Hs. split_and!.
  - unfold can_reject. rewrite Hs. apply bool_decide_eq_true_2.
    rewrite !elem_of_cons. tauto.
  - done.
  - apply reject_shifts_keeps; [done|]. right. rewrite Hs.
    rewrite !elem_of_cons. tauto.
Qed.

Lemma reject_shifts_skips_adjusting_witness :
  shifts one_of_each !! 2 = Some (row ADJUSTING) ∧
  can_reject (row ADJUSTING) = true ∧
  shifts (reject_shifts one_of_each "g" 9 "late" 100).2 !! 2
    = Some (row ADJUSTING).
Proof.
  assert (shifts one_of_each !! 2 = Some (row ADJUSTING)) as Hk
    by (vm_compute; reflexivity).
  destruct (reject_shifts_skips_adjusting one_of_each "g" 9 "late" 100 2
              (row ADJUSTING) Hk eq_refl eq_refl) as (H1 & _ & H3).
  split_and!; [exact Hk|exact H1|exact H3].
Defined.

(** The other rows of the same session: the three selected states are
    reset to draft, a draft and a published row stay as they are. *)
Example reject_shifts_one_of_each :
  (λ k, status <$> shifts (reject_shifts one_of_each "g" 9 "late" 100).2 !! k)
    <$> [1; 2; 3; 4; 5; 6]
  = [Some DRAFT; Some ADJUSTING; Some DRAFT; Some DRAFT; Some DRAFT;
     Some PUBLISHED].
Proof. vm_compute. reflexivity. Qed.

(** C2.  An adjustment of an editable shift raises its version by one
    and appends one revision for each tracked field (worker, start time,
    end time) for which a value is given that differs from the stored
    one; each revision names the shift, the field, the old and the new
    value, the actor and the reason.  When no tracked field differs, the
    version still goes up by one and no revision is appended. *)
Theorem adjust_shift_version_and_revisions
    st shift_id new_data admin_id reason now shift :
  shifts st !! shift_id = Some shift → can_edit shift = true →
  ∃ shift' changes,
    adjust_shift st shift_id new_data admin_id reason now =
      (true, mkStore (<[shift_id := shift']> (shifts st))
               (revisions st ++ changes)) ∧
    version shift' = version shift + 1 ∧
    field_name <$> changes = changed_fields shift new_data ∧
    length changes = length (changed_fields shift new_data) ∧
    NoDup (field_name <$> changes) ∧
    Forall (λ r, ShiftRevision.shift_id r = shift_id ∧
                 changed_by r = admin_id ∧ change_reason r = reason ∧
                 old_value r ≠ new_value r ∧
                 (field_name r = "user_id" →
                    old_value r = Some (VInt (user_id shift)) ∧
                    new_value r = Some (VInt (user_id shift'))) ∧
                 (field_name r = "start_time" →
                    old_value r = VTime <$> start_time shift ∧
                    new_value r = VTime <$> start_time shift') ∧
                 (field_name r = "end_time" →
                    old_value r = VTime <$> end_time shift ∧
                    new_value r = VTime <$> end_time shift')) changes ∧
    (changed_fields shift new_data = [] → changes = []) ∧
    user_id shift' = default (user_id shift) (nd_user_id new_data) ∧
    start_time shift' =
      from_option Some (start_time shift) (nd_start_time new_data) ∧
    end_time shift' =
      from_option Some (end_time shift) (nd_end_time new_data) ∧
    status shift' = ADJUSTED ∧
    adjusted_by shift' = Some admin_id ∧ adjusted_at shift' = Some now.
Proof.
  intros Hk Hedit. unfold adjust_shift. rewrite Hk, Hedit. simpl.
  unfold changed_fields, differs.
  destruct shift as [g u d st0 en0 stat v cb ca ab aa pb pa ub ua rb ra rr us].
  destruct new_data as [[nu|] [ns|] [ne|]]; simpl;
    repeat case_decide; repeat case_bool_decide; try done;
    (eexists _, _; split; [reflexivity|]; simpl;
     split_and!; try done;
     repeat (apply NoDup_cons; split;
               [rewrite ?elem_of_cons, ?elem_of_nil; intuition congruence|]);
     try apply NoDup_nil_2;
     repeat (apply Forall_cons; split;
               [simpl; split_and!;
                first [done|congruence
                      |by (destruct st0; simpl; congruence)
                      |by (destruct en0; simpl; congruence)]|]);
     try apply Forall_nil_2; try congruence).
Qed.

Lemma adjust_shift_version_and_revisions_witness :
  shifts one_of_each !! 1 = Some (row DRAFT) ∧
  can_edit (row DRAFT) = true ∧
  (∃ shift',
     adjust_shift one_of_each 1 (mkNewData (Some 7) None None) 9 None 100
     = (true, mkStore (<[1 := shift']> (shifts one_of_each)) []) ∧
     version shift' = 2).
Proof.
  assert (shifts one_of_each !! 1 = Some (row DRAFT)) as Hk
    by (vm_compute; reflexivity).
  destruct (adjust_shift_version_and_revisions one_of_each 1
              (mkNewData (Some 7) None None) 9 None 100 (row DRAFT)
              Hk eq_refl)
    as (shift' & changes & Heq & Hv & _ & _ & _ & _ & Hnil & _).
  split_and!; [exact Hk|reflexivity|].
  exists shift'. rewrite (Hnil eq_refl) in Heq. split; [exact Heq|exact Hv].
Defined.

(** C8.  For an id under which no shift is stored, and for a shift whose
    status is not one of draft, adjusting and adjusted, [adjust_shift]
    returns [False] and the session is as before: no field, status or
    version of any shift has changed and no revision has been added. *)
Theorem adjust_shift_refuses st shift_id new_data admin_id reason now :
  shifts st !! shift_id = None ∨
  (∃ shift, shifts st !! shift_id = Some shift ∧
            status shift ∉ [DRAFT; ADJUSTING; ADJUSTED]) →
  adjust_shift st shift_id new_data admin_id reason now = (false, st).
Proof.
  unfold adjust_shift. intros [->|(shift & -> & Hs)]; [done|].
  unfold can_edit. by rewrite bool_decide_eq_false_2.
Qed.

Lemma adjust_shift_refuses_witness :
  shifts one_of_each !! 6 = Some (row PUBLISHED) ∧
  (status (row PUBLISHED) ∉ [DRAFT; ADJUSTING; ADJUSTED]) ∧
  adjust_shift one_of_each 6 (mkNewData (Some 8) None None) 9 None 100
    = (false, one_of_each).
Proof.
  assert (shifts one_of_each !! 6 = Some (row PUBLISHED)) as Hk
    by (vm_compute; reflexivity).
  assert (status (row PUBLISHED) ∉ [DRAFT; ADJUSTING; ADJUSTED]) as Hs.
  { simpl. rewrite !elem_of_cons, elem_of_nil. intuition congruence. }
  split_and!; [exact Hk|exact Hs|].
  apply adjust_shift_refuses. right. exists (row PUBLISHED). by split.
Defined.

Example adjust_shift_unknown_id :
  adjust_shift one_of_each 99 (mkNewData (Some 8) None None) 9 None 100
  = (false, one_of_each).
Proof. vm_compute. reflexivity. Qed.
End ApprovalFacts.

(** ** The optimizer *)
Module OptimizerFacts.
Import Models Optimizer Examples.

(** *** Dictionaries built by assignment *)

Lemma set_Forall {K V} `{EqDecision K} (P : K * V → Prop) k v d :
  P (k, v) → Forall P d → Forall P (Dict.set k v d).
Proof.
  intros Hkv. induction 1 as [|[k' v'] d Hp Hd IH]; simpl.
  - by repeat constructor.
  - case_decide; constructor; done.
Qed.

Lemma set_keys {K V} `{EqDecision K} (k : K) (v : V) d :
  (Dict.set k v d).*1 = if decide (k ∈ d.*1) then d.*1 else d.*1 ++ [k].
Proof.
  induction d as [|[k' v'] d IH]; csimpl; [done|].
  destruct (decide (k = k')) as [->|Hk]; csimpl.
  - by rewrite decide_True by left.
  - rewrite IH. destruct (decide (k ∈ d.*1)) as [Hin|Hin].
    + by rewrite decide_True by (by right).
    + rewrite decide_False; [done|]. by intros [?|?]%elem_of_cons.
Qed.

Lemma set_NoDup {K V} `{EqDecision K} (k : K) (v : V) d :
  NoDup d.*1 → NoDup (Dict.set k v d).*1.
Proof.
  intros Hd. rewrite set_keys. case_decide as Hk; [done|].
  apply NoDup_app. split_and!; [done| |apply NoDup_singleton].
  by intros x Hx ->%list_elem_of_singleton.
Qed.

Lemma unique_value {K V} (d : list (K * V)) k v1 v2 :
  NoDup d.*1 → (k, v1) ∈ d → (k, v2) ∈ d → v1 = v2.
Proof.
  induction d as [|[k' v'] d IH]; csimpl; intros Hnd H1 H2.
  - by apply elem_of_nil in H1.
  - apply NoDup_cons in Hnd as [Hk Hnd].
    apply elem_of_cons in H1 as [[= -> ->]|H1];
      apply elem_of_cons in H2 as [[= ->]|H2].
    + done.
    + destruct Hk. by apply (list_elem_of_fmap_2 fst _ (k', v2)).
    + subst. destruct Hk. by apply (list_elem_of_fmap_2 fst _ (k', v1)).
    + by apply IH.
Qed.

Lemma foldl_invariant {A B} (I : A → Prop) (step : A → B → A) l a :
  I a → (∀ a x, x ∈ l → I a → I (step a x)) → I (foldl step a l).
Proof.
  revert a. induction l as [|x l IH]; intros a Ha Hstep; simpl; [done|].
  apply IH.
  - apply Hstep; [by left|done].
  - intros a' y Hy. apply Hstep. by right.
Qed.

(** The date range holds the days from the first to the last, so the
    bound on the number of rounds never cuts the loop short. *)
Lemma date_range_loop_spec fuel current end_date d :
  end_date - current < Z.of_nat fuel →
  d ∈ date_range_loop fuel current end_date ↔ current ≤ d ≤ end_date.
Proof.
  revert current. induction fuel as [|fuel IH]; intros current Hfuel; simpl.
  - rewrite elem_of_nil. lia.
  - case_decide as Hle.
    + rewrite elem_of_cons, IH by lia. lia.
    + rewrite elem_of_nil. lia.
Qed.

Lemma generate_date_range_spec start_date end_date d :
  d ∈ _generate_date_range start_date end_date ↔ start_date ≤ d ≤ end_date.
Proof. unfold _generate_date_range. apply date_range_loop_spec. lia. Qed.

(** With distinct ids, looking a request up by its id finds it. *)
Lemma lookup_by_id reqs req :
  NoDup (ShiftRequest.id <$> reqs) → req ∈ reqs →
  head (filter (λ r, ShiftRequest.id r = ShiftRequest.id req) reqs)
  = Some req.
Proof.
  induction reqs as [|r reqs IH]; csimpl; intros Hnd Hin.
  - by apply elem_of_nil in Hin.
  - apply NoDup_cons in Hnd as [Hr Hnd].
    apply elem_of_cons in Hin as [->|Hin].
    + by rewrite filter_cons_True.
    + rewrite filter_cons_False; [by apply IH|].
      intros Heq. apply Hr. rewrite Heq. by apply list_elem_of_fmap_2.
Qed.

(** *** The variables *)

Lemma build_shift_vars_ok shift_requests users date_range :
  shift_vars_ok shift_requests
    (build_shift_vars users shift_requests date_range).
Proof.
  unfold build_shift_vars.
  apply (foldl_invariant (shift_vars_ok shift_requests));
    [by split; constructor|].
  intros vars user _ [Hkeys Hvars].
  destruct (is_active user); simpl; [|done].
  split; [by apply set_NoDup|]. apply set_Forall; [|done]. simpl.
  unfold date_vars.
  apply (foldl_invariant (dates_ok shift_requests (uid user)));
    [by split; constructor|].
  intros by_date d _ [Hdkeys Hdates].
  split; [by apply set_NoDup|]. apply set_Forall; [|done]. simpl.
  unfold request_vars.
  apply (foldl_invariant (requests_ok shift_requests (uid user) d));
    [by split; constructor|].
  intros by_request r Hr [Hrkeys Hreqs].
  split; [by apply set_NoDup|]. apply set_Forall; [|done].
  split; [done|].
  apply list_elem_of_filter in Hr as [Hd Hr].
  apply list_elem_of_filter in Hr as [Hu Hr].
  exists r. by repeat split.
Qed.

(** Every decision variable occurs once. *)
Lemma decision_variables_NoDup shift_requests shift_vars :
  shift_vars_ok shift_requests shift_vars →
  NoDup (decision_variables shift_vars).
Proof.
  intros [Hkeys Hvars]. rewrite Forall_forall in Hvars.
  unfold decision_variables. apply NoDup_bind.
  - intros [u1 bd1] [u2 bd2] var H1 H2
      ([d1 br1] & Hv1 & Hq1)%list_elem_of_bind
      ([d2 br2] & Hv2 & Hq2)%list_elem_of_bind.
    simpl in *.
    destruct (Hvars _ H1) as [_ Hd1]. destruct (Hvars _ H2) as [_ Hd2].
    rewrite Forall_forall in Hd1, Hd2.
    destruct (Hd1 _ Hq1) as [_ Hr1]. destruct (Hd2 _ Hq2) as [_ Hr2].
    rewrite Forall_forall in Hr1, Hr2. simpl in *.
    apply list_elem_of_fmap in Hv1 as ([r1 v1] & -> & Hv1).
    apply list_elem_of_fmap in Hv2 as ([r2 v2] & Heq & Hv2).
    destruct (Hr1 _ Hv1) as [E1 _]. destruct (Hr2 _ Hv2) as [E2 _].
    simpl in *. rewrite E1, E2 in Heq. injection Heq as -> -> ->.
    f_equal. by eapply unique_value.
  - intros [u bd] Hp. simpl. destruct (Hvars _ Hp) as [Hdkeys Hd].
    rewrite Forall_forall in Hd. simpl in *. apply NoDup_bind.
    + intros [d1 br1] [d2 br2] var H1 H2 Hv1 Hv2. simpl in *.
      destruct (Hd _ H1) as [_ Hr1]. destruct (Hd _ H2) as [_ Hr2].
      rewrite Forall_forall in Hr1, Hr2. simpl in *.
      apply list_elem_of_fmap in Hv1 as ([r1 v1] & -> & Hv1).
      apply list_elem_of_fmap in Hv2 as ([r2 v2] & Heq & Hv2).
      destruct (Hr1 _ Hv1) as [E1 _]. destruct (Hr2 _ Hv2) as [E2 _].
      simpl in *. rewrite E1, E2 in Heq. injection Heq as -> ->.
      f_equal. by eapply unique_value.
    + intros [d br] Hq. simpl. destruct (Hd _ Hq) as [Hrkeys Hr].
      rewrite Forall_forall in Hr. simpl in *.
      apply NoDup_fmap_2_strong; [|by eapply NoDup_fmap_1].
      intros [r1 v1] [r2 v2] H1 H2 Heq. simpl in *. subst v2.
      destruct (Hr _ H1) as [E1 _]. destruct (Hr _ H2) as [E2 _].
      simpl in *. rewrite E1 in E2. by injection E2 as ->.
    + by eapply NoDup_fmap_1.
  - by eapply NoDup_fmap_1.
Qed.

(** *** Reading the solution *)
Section solved.
Variable solved_status : LpStatus.
Variable value : LpVariable → option Qc.
Variable shift_requests : list ShiftRequest.t.
Variable group_id : string.
Variable created_by : Z.
Variable now : Z.

Abbreviation answers :=
  (Optimizer.answers shift_requests group_id created_by now).
Abbreviation selected := (Optimizer.selected value).

Hypothesis distinct_ids : NoDup (ShiftRequest.id <$> shift_requests).

Lemma collect_requests_ok u d items created :
  Forall (request_entry_ok shift_requests u d) items →
  ∃ new,
    collect_requests value shift_requests group_id created_by now u d
      (Some created) items = Some (created ++ new) ∧
    Forall2 answers (filter selected items.*2) new.
Proof.
  intros Hitems. revert created.
  induction Hitems as [|[r var] items [Hvar (req & Hreq & Horig)] _ IH];
    intros created.
  - exists []. split; [by rewrite app_nil_r|constructor].
  - unfold collect_requests in *. simpl in Hvar. subst var. csimpl.
    destruct Horig as (Hid & Hu & Hd). simpl in *.
    rewrite filter_cons. unfold Optimizer.selected at 1.
    destruct (decide (value (mkVar u d r) = Some 1%Qc)) as [Hsel|Hsel].
    + rewrite <-Hid, (lookup_by_id _ _ distinct_ids Hreq). simpl.
      destruct (IH (created ++
                 [mkShift group_id u d (ShiftRequest.start_time req)
                    (ShiftRequest.end_time req) DRAFT 1 created_by now
                    None None None None None None None None None None]))
        as (new & -> & Hnew).
      eexists (_ :: new). split; [by rewrite <-app_assoc|].
      constructor; [|done].
      exists req. split; [done|]. split; [by repeat split|].
      unfold shift_from. by rewrite Hu, Hd.
    + destruct (IH created) as (new & -> & Hnew). by exists new.
Qed.

Lemma collect_dates_ok u by_date created :
  Forall (λ q, requests_ok shift_requests u q.1 q.2) by_date →
  ∃ new,
    collect_dates value shift_requests group_id created_by now u
      (Some created) by_date = Some (created ++ new) ∧
    Forall2 answers (filter selected (q ← by_date; q.2.*2)) new.
Proof.
  intros Hdates. revert created.
  induction Hdates as [|[d by_request] by_date [_ Hd] _ IH]; intros created.
  - exists []. split; [by rewrite app_nil_r|constructor].
  - unfold collect_dates in *. csimpl.
    destruct (collect_requests_ok u d by_request created Hd)
      as (new1 & -> & Hnew1).
    destruct (IH (created ++ new1)) as (new2 & -> & Hnew2).
    exists (new1 ++ new2). split; [by rewrite app_assoc|].
    rewrite filter_app. by apply Forall2_app.
Qed.

Lemma collect_users_ok shift_vars created :
  Forall (λ p, dates_ok shift_requests p.1 p.2) shift_vars →
  ∃ new,
    foldl (λ created_shifts '(user_id, by_date),
             collect_dates value shift_requests group_id created_by now
               user_id created_shifts by_date)
          (Some created) shift_vars = Some (created ++ new) ∧
    Forall2 answers (filter selected (decision_variables shift_vars)) new.
Proof.
  intros Hvars. revert created.
  induction Hvars as [|[u by_date] shift_vars [_ Hu] _ IH]; intros created.
  - exists []. split; [by rewrite app_nil_r|constructor].
  - unfold decision_variables in *. csimpl.
    destruct (collect_dates_ok u by_date created Hu)
      as (new1 & -> & Hnew1).
    destruct (IH (created ++ new1)) as (new2 & -> & Hnew2).
    exists (new1 ++ new2). split; [by rewrite app_assoc|].
    rewrite filter_app. by apply Forall2_app.
Qed.
End solved.

(** C3.  Requests have distinct ids.  When the solver reports an optimal
    solution, [create_shifts] returns, in the order in which the
    variables are read, one shift for each decision variable whose value
    is 1, and every such variable occurs once: the shift is a draft with
    the group id and the creator that were passed in, and with the
    worker, date, start time and end time of the request the variable was
    made for.  With any other status, or when no variable has the value
    1, it returns the empty list.  No lookup of a request fails. *)
Theorem create_shifts_result solved_status value shift_requests g creator
    now start_date end_date users :
  NoDup (ShiftRequest.id <$> shift_requests) →
  let shift_vars :=
    build_shift_vars users shift_requests
      (_generate_date_range start_date end_date) in
  let chosen := filter (selected value) (decision_variables shift_vars) in
  ∃ created,
    create_shifts solved_status value shift_requests g creator now
      start_date end_date users = Some created ∧
    (solved_status = LpStatusOptimal →
       Forall2 (answers shift_requests g creator now) chosen created) ∧
    (solved_status ≠ LpStatusOptimal → created = []) ∧
    (chosen = [] → created = []) ∧
    Forall (λ shift, status shift = DRAFT ∧ group_id shift = g ∧
                     created_by shift = creator) created ∧
    NoDup chosen.
Proof.
  intros Hnd shift_vars chosen. unfold create_shifts. fold shift_vars.
  pose proof (build_shift_vars_ok shift_requests users
                (_generate_date_range start_date end_date)) as Hok.
  fold shift_vars in Hok.
  assert (NoDup chosen) as Hchosen.
  { apply NoDup_filter. by eapply decision_variables_NoDup. }
  destruct (decide (solved_status = LpStatusOptimal)) as [Hopt|Hopt].
  - destruct (collect_users_ok value shift_requests g creator now Hnd
                shift_vars [] (proj2 Hok))
      as (created & Heq & Hall).
    exists created. split; [exact Heq|]. fold chosen in Hall.
    split_and!; [done|done| | |done].
    + intros Hnone. rewrite Hnone in Hall. by apply Forall2_nil_inv_l in Hall.
    + apply Forall_forall. intros shift Hshift.
      apply list_elem_of_lookup in Hshift as (i & Hi).
      destruct (Forall2_lookup_r _ _ _ _ _ Hall Hi)
        as (var & _ & r & _ & _ & ->).
      done.
  - exists []. split_and!; [done| |done|done|constructor|done].
    intros ?. by destruct Hopt.
Qed.

Lemma create_shifts_result_witness :
  NoDup (ShiftRequest.id <$> two_requests) ∧
  ∃ created,
    create_shifts LpStatusOptimal all_selected two_requests "2024-03-W10" 5
      100 monday (monday + 6) two_workers = Some created ∧
    length created = 2%nat.
Proof.
  assert (NoDup (ShiftRequest.id <$> two_requests)) as Hnd
    by (apply (bool_decide_unpack _); vm_compute; exact I).
  split; [exact Hnd|].
  destruct (create_shifts_result LpStatusOptimal all_selected two_requests
              "2024-03-W10" 5 100 monday (monday + 6) two_workers Hnd)
    as (created & Heq & Hopt & _).
  exists created. split; [exact Heq|].
  rewrite <-(Forall2_length _ _ _ (Hopt eq_refl)). vm_compute. reflexivity.
Defined.

(** The same run, evaluated: two drafts that carry the group id. *)
Example create_shifts_two_workers :
  (λ shifts : list Shift,
     (λ s, (user_id s, status s, group_id s)) <$> shifts) <$>
    create_shifts LpStatusOptimal all_selected two_requests "2024-03-W10" 5
      100 monday (monday + 6) two_workers
  = Some [(1, DRAFT, "2024-03-W10"); (2, DRAFT, "2024-03-W10")].
Proof. vm_compute. reflexivity. Qed.

Example create_shifts_infeasible :
  create_shifts LpStatusInfeasible all_selected two_requests "2024-03-W10" 5
    100 monday (monday + 6) two_workers = Some [].
Proof. reflexivity. Qed.
End OptimizerFacts.

(** ** The workflow as a whole *)
Module WorkflowFacts.
Import Models ShiftRevision Approval Workflow.

(** *** One call *)

Lemma adjust_shift_unfold st k nd a r t :
  adjust_shift st k nd a r t =
  match shifts st !! k with
  | Some shift =>
      if can_edit shift
      then (true, mkStore (<[k := adjusted_row nd a t shift]> (shifts st))
                    (revisions st ++ revisions_for k nd a r shift))
      else (false, st)
  | None => (false, st)
  end.
Proof.
  unfold adjust_shift. destruct (shifts st !! k) as [shift|]; [|done].
  destruct (can_edit shift); [|done]. simpl.
  unfold adjusted_row, revisions_for, differs.
  destruct shift as [g u d st0 en0 stat v cb ca ab aa pb pa ub ua rb ra rr us].
  destruct nd as [[nu|] [ns|] [ne|]]; simpl;
    repeat case_decide; repeat case_bool_decide; try done;
    repeat match goal with
           | H : ¬ (_ ≠ _) |- _ => apply dec_stable in H
           end;
    simplify_eq; try done.
Qed.

Lemma run_lookup op st k :
  shifts (run op st).2 !! k = row_after op k <$> shifts st !! k.
Proof.
  destruct op as [g a|k' nd a r t|g a t|g a t|g a r t]; simpl;
    try apply lookup_fmap.
  rewrite adjust_shift_unfold.
  destruct (shifts st !! k') as [shift|] eqn:Hk'.
  - destruct (can_edit shift) eqn:Hedit; simpl.
    + destruct (decide (k' = k)) as [->|Hne].
      * rewrite lookup_insert_eq, Hk'. simpl.
        by rewrite bool_decide_eq_true_2, Hedit.
      * rewrite lookup_insert_ne by done.
        destruct (shifts st !! k) as [s|]; simpl; [|done].
        by rewrite bool_decide_eq_false_2.
    + destruct (shifts st !! k) as [s|] eqn:Hk; simpl; [|done].
      case_bool_decide as Heq; simpl; [|done].
      subst k'. rewrite Hk in Hk'. injection Hk' as ->. by rewrite Hedit.
  - simpl. destruct (shifts st !! k) as [s|] eqn:Hk; simpl; [|done].
    case_bool_decide as Heq; simpl; [|done]. congruence.
Qed.

Lemma run_all_lookup ops st k :
  shifts (run_all ops st) !! k = row_after_all ops k <$> shifts st !! k.
Proof.
  unfold run_all, row_after_all. revert st.
  induction ops as [|op ops IH]; intros st; simpl.
  - by destruct (shifts st !! k).
  - rewrite IH, run_lookup. by destruct (shifts st !! k).
Qed.

Lemma evolves_refl s : evolves s s.
Proof. unfold evolves. split_and!; try done; lia. Qed.

Lemma evolves_trans s1 s2 s3 : evolves s1 s2 → evolves s2 s3 → evolves s1 s3.
Proof.
  unfold evolves.
  intros (G1 & D1 & B1 & A1 & V1 & P1 & R1) (G2 & D2 & B2 & A2 & V2 & P2 & R2).
  split_and!; try congruence; try lia.
  - intros Hp. specialize (P1 Hp). subst s2. by apply P2.
  - intros Hr. rewrite (R2 Hr). apply R1. by rewrite <-(R2 Hr).
Qed.

Lemma row_after_evolves op k s : evolves s (row_after op k s).
Proof.
  destruct s as [g u d st0 en0 stat v cb ca ab aa pb pa ub ua rb ra rr us].
  destruct op as [g' a|k' nd a r t|g' a t|g' a t|g' a r t]; simpl.
  - case_bool_decide as H; [|apply evolves_refl].
    destruct H as [_ H]. simpl in H. subst stat.
    unfold evolves. simpl. split_and!; try done; try lia. by intros [?|?].
  - destruct (bool_decide (k' = k)); simpl; [|apply evolves_refl].
    destruct (can_edit _) eqn:Hedit; [|apply evolves_refl].
    unfold evolves. simpl. split_and!; try done; try lia.
    + intros ->. by vm_compute in Hedit.
    + by intros [?|?].
  - case_bool_decide as H; [|apply evolves_refl].
    destruct H as [_ H]. simpl in H.
    unfold evolves. simpl. split_and!; try done; try lia.
    + intros ->. by (apply (bool_decide_pack _) in H; vm_compute in H).
    + by intros [?|?].
  - case_bool_decide as H; [|apply evolves_refl].
    destruct H as [_ H]. simpl in H. subst stat.
    unfold evolves. simpl. split_and!; try done; try lia. by intros [?|?].
  - unfold reject_selected. case_bool_decide as H; [|apply evolves_refl].
    destruct H as [_ H]. simpl in H.
    unfold evolves. simpl. split_and!; try done; try lia.
    + intros ->. by (apply (bool_decide_pack _) in H; vm_compute in H).
    + by intros [?|?].
Qed.

Lemma row_after_all_evolves ops k s : evolves s (row_after_all ops k s).
Proof.
  unfold row_after_all. revert s.
  induction ops as [|op ops IH]; intros s; simpl; [apply evolves_refl|].
  eapply evolves_trans; [apply row_after_evolves|apply IH].
Qed.

(** *** Sequences of calls *)

(** X1.  A published row is final: whatever calls follow, of whatever
    group, shift id or actor, the row stays exactly as it is. *)
Theorem published_rows_are_final ops st k s :
  shifts st !! k = Some s → status s = PUBLISHED →
  shifts (run_all ops st) !! k = Some s.
Proof.
  intros Hk Hs. rewrite run_all_lookup, Hk. simpl. f_equal.
  by apply (row_after_all_evolves ops k s).
Qed.

(** X2.  No sequence of workflow calls adds or removes a row, and every
    row keeps its group, date and creator; its version never goes down. *)
Theorem rows_are_kept ops st k :
  match shifts st !! k with
  | None => shifts (run_all ops st) !! k = None
  | Some s =>
      ∃ s', shifts (run_all ops st) !! k = Some s' ∧
        group_id s' = group_id s ∧ date s' = date s ∧
        created_by s' = created_by s ∧ created_at s' = created_at s ∧
        version s ≤ version s'
  end.
Proof.
  rewrite run_all_lookup. destruct (shifts st !! k) as [s|]; [|done].
  simpl. eexists. split; [done|].
  by destruct (row_after_all_evolves ops k s) as (? & ? & ? & ? & ? & _).
Qed.

(** X3.  The workflow never sets the states [PENDING] and [REJECTED]: when
    no row is in one of them, no row is after any sequence of calls. *)
Theorem pending_and_rejected_are_never_set ops st :
  map_Forall (λ _ s, status s ≠ PENDING ∧ status s ≠ REJECTED) (shifts st) →
  map_Forall (λ _ s, status s ≠ PENDING ∧ status s ≠ REJECTED)
    (shifts (run_all ops st)).
Proof.
  intros Hst k s'. rewrite run_all_lookup.
  destruct (shifts st !! k) as [s|] eqn:Hk; [|done].
  simpl. intros [= <-]. destruct (Hst k s Hk) as [Hp Hr].
  destruct (row_after_all_evolves ops k s) as (_ & _ & _ & _ & _ & _ & Hkeep).
  split; intros Hs; rewrite Hkeep in Hs by auto; done.
Qed.

Lemma store_eq (a b : Store) :
  shifts a = shifts b → revisions a = revisions b → a = b.
Proof. destruct a, b. simpl. by intros -> ->. Qed.

(** Without an adjustment, a call keeps the assignment of a row. *)
Lemma row_after_keeps_assignment op k s :
  ¬ adjusts k op →
  user_id (row_after op k s) = user_id s ∧
  start_time (row_after op k s) = start_time s ∧
  end_time (row_after op k s) = end_time s ∧
  version (row_after op k s) = version s ∧
  (status s ∈ [DRAFT; ADJUSTING] →
   status (row_after op k s) ∈ [DRAFT; ADJUSTING]).
Proof.
  intros Hop.
  destruct s as [g u d st0 en0 stat v cb ca ab aa pb pa ub ua rb ra rr us].
  destruct op as [g' a|k' nd a r t|g' a t|g' a t|g' a r t]; simpl in *.
  - case_bool_decide; simpl; split_and!; try done.
    intros _. rewrite !elem_of_cons. tauto.
  - rewrite bool_decide_eq_false_2 by done. simpl. by split_and!.
  - case_bool_decide as H; simpl; split_and!; try done.
    destruct H as [_ H]. simpl in H. intros Hs. exfalso.
    destruct stat;
      first [by (apply (bool_decide_pack _) in H; vm_compute in H)
            |by (apply (bool_decide_pack _) in Hs; vm_compute in Hs)].
  - case_bool_decide as H; simpl; split_and!; try done.
    destruct H as [_ H]. simpl in H. subst stat. intros Hs. exfalso.
    by (apply (bool_decide_pack _) in Hs; vm_compute in Hs).
  - unfold reject_selected. case_bool_decide as H; simpl; split_and!; try done.
    intros _. rewrite !elem_of_cons. tauto.
Qed.

Lemma row_after_all_keeps_assignment ops k s :
  Forall (λ op, ¬ adjusts k op) ops →
  user_id (row_after_all ops k s) = user_id s ∧
  start_time (row_after_all ops k s) = start_time s ∧
  end_time (row_after_all ops k s) = end_time s ∧
  version (row_after_all ops k s) = version s ∧
  (status s ∈ [DRAFT; ADJUSTING] →
   status (row_after_all ops k s) ∈ [DRAFT; ADJUSTING]).
Proof.
  unfold row_after_all. intros Hops. revert s.
  induction Hops as [|op ops Hop _ IH]; intros s; simpl; [done|].
  destruct (row_after_keeps_assignment op k s Hop) as (U & S & E & V & D).
  destruct (IH (row_after op k s)) as (U' & S' & E' & V' & D').
  split_and!; try congruence. auto.
Qed.

(** X4.  Only [adjust_shift] changes the worker, the times and the
    version of a row: after any calls among which none adjusts the row,
    they are as before. *)
Theorem assignment_changes_only_by_adjustment ops st k s :
  Forall (λ op, ¬ adjusts k op) ops →
  shifts st !! k = Some s →
  ∃ s', shifts (run_all ops st) !! k = Some s' ∧
    user_id s' = user_id s ∧ start_time s' = start_time s ∧
    end_time s' = end_time s ∧ version s' = version s.
Proof.
  intros Hops Hk. rewrite run_all_lookup, Hk. simpl. eexists. split; [done|].
  by destruct (row_after_all_keeps_assignment ops k s Hops)
    as (? & ? & ? & ? & _).
Qed.

(** X5.  A row in draft or in adjustment is approved or published only
    after [adjust_shift]: after any calls among which none adjusts the
    row, it is still in draft or in adjustment. *)
Theorem no_approval_without_adjustment ops st k s :
  Forall (λ op, ¬ adjusts k op) ops →
  shifts st !! k = Some s → status s ∈ [DRAFT; ADJUSTING] →
  ∃ s', shifts (run_all ops st) !! k = Some s' ∧
    status s' ∈ [DRAFT; ADJUSTING].
Proof.
  intros Hops Hk Hs. rewrite run_all_lookup, Hk. simpl.
  eexists. split; [done|].
  by apply (row_after_all_keeps_assignment ops k s Hops).
Qed.


(** *** The ledger *)

Lemma revisions_for_shift_id k nd a r shift :
  Forall (λ rev, shift_id rev = k) (revisions_for k nd a r shift).
Proof.
  unfold revisions_for.
  repeat (apply Forall_app; split);
    destruct (differs _ _); by repeat constructor.
Qed.

Lemma run_revisions op st :
  ∃ added, revisions (run op st).2 = revisions st ++ added ∧
    Forall (λ rev, is_Some (shifts st !! shift_id rev) ∧
                   adjusts (shift_id rev) op) added.
Proof.
  destruct op as [g a|k nd a r t|g a t|g a t|g a r t]; simpl;
    try (exists []; split; [by rewrite app_nil_r|constructor]).
  rewrite adjust_shift_unfold.
  destruct (shifts st !! k) as [shift|] eqn:Hk;
    [|exists []; split; [by rewrite app_nil_r|constructor]].
  destruct (can_edit shift);
    [|exists []; split; [by rewrite app_nil_r|constructor]].
  eexists. split; [done|].
  eapply Forall_impl; [apply revisions_for_shift_id|].
  intros rev ->. by rewrite Hk.
Qed.

(** X6.  The ledger only grows: after any calls the old revisions come
    first, unchanged, and every revision added since names a stored shift
    and stems from an [adjust_shift] call for that shift. *)
Theorem ledger_is_append_only ops st :
  ∃ added, revisions (run_all ops st) = revisions st ++ added ∧
    Forall (λ rev, is_Some (shifts st !! shift_id rev) ∧
                   Exists (adjusts (shift_id rev)) ops) added.
Proof.
  unfold run_all. revert st.
  induction ops as [|op ops IH]; intros st; simpl.
  - exists []. split; [by rewrite app_nil_r|constructor].
  - destruct (run_revisions op st) as (a1 & E1 & F1).
    destruct (IH (run op st).2) as (a2 & E2 & F2).
    exists (a1 ++ a2). split; [by rewrite E2, E1, app_assoc|].
    apply Forall_app. split.
    + eapply Forall_impl; [exact F1|]. intros rev [? ?]. split; [done|].
      by apply Exists_cons_hd.
    + eapply Forall_impl; [exact F2|]. intros rev [Hs ?]. split.
      * rewrite run_lookup in Hs. by apply fmap_is_Some in Hs.
      * by apply Exists_cons_tl.
Qed.

(** *** How the calls compose *)

(** X7.  Publishing is idempotent: a second [publish_shifts] for the
    group, by whoever and whenever, changes nothing. *)
Theorem publish_shifts_twice st g p t p' t' :
  publish_shifts (publish_shifts st g p t).2 g p' t' =
  (true, (publish_shifts st g p t).2).
Proof.
  unfold publish_shifts. simpl. f_equal. apply store_eq; simpl; [|done].
  rewrite <-map_fmap_compose. apply map_fmap_ext. intros k s _.
  destruct s as [g0 u d st0 en0 stat v cb ca ab aa pb pa ub ua rb ra rr us].
  unfold compose. simpl.
  destruct (decide (g0 = g ∧ stat = APPROVED)) as [H1|H1].
  - rewrite (bool_decide_eq_true_2 _ H1). simpl.
    rewrite bool_decide_eq_false_2; [done|]. by intros [_ ?].
  - rewrite (bool_decide_eq_false_2 _ H1).
    by rewrite (bool_decide_eq_false_2 _ H1).
Qed.

(** X8.  A rejection holds the group back: right after [reject_shifts],
    neither [approve_shifts] nor [publish_shifts] for the group changes
    any row. *)
Theorem reject_blocks_approval_and_publication st g a r t a' t' :
  let rejected := (reject_shifts st g a r t).2 in
  (approve_shifts rejected g a' t').2 = rejected ∧
  (publish_shifts rejected g a' t').2 = rejected.
Proof.
  intros rejected. subst rejected.
  unfold approve_shifts, publish_shifts, reject_shifts, reject_selected.
  simpl. split; apply store_eq; simpl; try done;
    rewrite <-map_fmap_compose; apply map_fmap_ext; intros k s _;
    destruct s as [g0 u d st0 en0 stat v cb ca ab aa pb pa ub ua rb ra rr us];
    unfold compose; simpl;
    (destruct (decide (g0 = g ∧ stat ∈ [ADJUSTED; PENDING; APPROVED]))
       as [H1|H1];
     [rewrite (bool_decide_eq_true_2 _ H1)
     |rewrite (bool_decide_eq_false_2 _ H1)]); simpl.
  - rewrite bool_decide_eq_false_2; [done|]. intros [_ H].
    by (apply (bool_decide_pack _) in H; vm_compute in H).
  - rewrite bool_decide_eq_false_2; [done|]. intros [Hg H]. apply H1.
    split; [done|]. rewrite !elem_of_cons in *. tauto.
  - rewrite bool_decide_eq_false_2; [done|]. by intros [_ H].
  - rewrite bool_decide_eq_false_2; [done|]. intros [Hg H]. apply H1.
    split; [done|]. subst stat. rewrite !elem_of_cons. tauto.
Qed.

(** X9.  Approval and publication in a row: a row of the group that is
    adjusted (or pending) is published afterwards and holds the approver
    and the publisher with their times; its assignment is as before. *)
Theorem approve_then_publish st g a t p t' k s :
  shifts st !! k = Some s → group_id s = g →
  status s ∈ [ADJUSTED; PENDING] →
  ∃ s', shifts (publish_shifts (approve_shifts st g a t).2 g p t').2 !! k
          = Some s' ∧
    status s' = PUBLISHED ∧
    approved_by s' = Some a ∧ approved_at s' = Some t ∧
    published_by s' = Some p ∧ published_at s' = Some t' ∧
    user_id s' = user_id s ∧ date s' = date s ∧
    start_time s' = start_time s ∧ end_time s' = end_time s ∧
    version s' = version s.
Proof.
  intros Hk Hg Hs. unfold publish_shifts, approve_shifts. simpl.
  rewrite !lookup_fmap, Hk.
  destruct s as [g0 u d st0 en0 stat v cb ca ab aa pb pa ub ua rb ra rr us].
  simpl in *.
  rewrite (bool_decide_eq_true_2 (g0 = g ∧ stat ∈ [ADJUSTED; PENDING]))
    by done.
  simpl. rewrite bool_decide_eq_true_2 by done.
  eexists. split; [done|]. simpl. by split_and!.
Qed.

(** X10.  The same adjustment made twice: the second call succeeds, adds
    no revision, and raises the version once more. *)
Theorem adjust_shift_twice st k nd a r t a' r' t' s :
  shifts st !! k = Some s → can_edit s = true →
  let once := (adjust_shift st k nd a r t).2 in
  ∃ s1 s2,
    shifts once !! k = Some s1 ∧
    adjust_shift once k nd a' r' t' =
      (true, mkStore (<[k := s2]> (shifts once)) (revisions once)) ∧
    version s2 = version s + 2 ∧
    user_id s2 = user_id s1 ∧ start_time s2 = start_time s1 ∧
    end_time s2 = end_time s1 ∧ status s2 = ADJUSTED.
Proof.
  intros Hk Hedit once. subst once.
  rewrite (adjust_shift_unfold st), Hk, Hedit. simpl.
  rewrite adjust_shift_unfold. simpl. rewrite lookup_insert_eq.
  exists (adjusted_row nd a t s), (adjusted_row nd a' t' (adjusted_row nd a t s)).
  split; [done|].
  assert (can_edit (adjusted_row nd a t s) = true) as ->.
  { by destruct s. }
  assert (revisions_for k nd a' r' (adjusted_row nd a t s) = []) as ->.
  { unfold revisions_for, differs.
    destruct s as [g u d st0 en0 stat v cb ca ab aa pb pa ub ua rb ra rr us].
    destruct nd as [[nu|] [ns|] [ne|]]; simpl;
      rewrite ?bool_decide_eq_false_2 by (intros H; by apply H); done. }
  rewrite app_nil_r. split; [done|].
  destruct s as [g u d st0 en0 stat v cb ca ab aa pb pa ub ua rb ra rr us].
  destruct nd as [[nu|] [ns|] [ne|]]; simpl; split_and!; try done; lia.
Qed.
End WorkflowFacts.

(** ** The views and the creation of drafts *)
Module QueryFacts.
Import Calendar Models ShiftRevision Approval Workflow WorkflowFacts Examples.

(** *** The order of the staff view *)

Lemma time_le_total t1 t2 : time_le t1 t2 ∨ time_le t2 t1.
Proof. unfold time_le. lia. Qed.

Lemma start_le_total o1 o2 : start_le o1 o2 ∨ start_le o2 o1.
Proof. destruct o1, o2; simpl; auto using time_le_total. Qed.

Lemma row_le_total a b : row_le a b ∨ row_le b a.
Proof.
  unfold row_le. destruct (start_le_total (start_time a) (start_time b));
    destruct (Z.lt_trichotomy (date a) (date b)) as [?|[?|?]]; auto.
Qed.

Lemma row_le_date a b : row_le a b → date a ≤ date b.
Proof. unfold row_le. lia. Qed.

Lemma insert_row_perm s l : insert_row s l ≡ₚ s :: l.
Proof.
  induction l as [|x l IH]; simpl; [done|].
  case_decide; [done|]. rewrite IH. apply Permutation_swap.
Qed.

Lemma order_rows_perm l : order_rows l ≡ₚ l.
Proof.
  induction l as [|x l IH]; simpl; [done|].
  by rewrite insert_row_perm, IH.
Qed.

Lemma insert_row_sorted s l :
  Sorted row_le l → Sorted row_le (insert_row s l).
Proof.
  induction 1 as [|x l Hl IH Hhd]; simpl.
  - by constructor.
  - case_decide as Hle.
    + constructor; [by constructor|by constructor].
    + assert (row_le x s) by (by destruct (row_le_total s x)).
      constructor; [done|].
      destruct Hhd as [|y l' Hy]; simpl.
      * by constructor.
      * case_decide; by constructor.
Qed.

Lemma order_rows_sorted l : Sorted row_le (order_rows l).
Proof.
  induction l as [|x l IH]; simpl; [constructor|].
  by apply insert_row_sorted.
Qed.

Lemma Sorted_weaken {A} (R R' : relation A) l :
  (∀ a b, R a b → R' a b) → Sorted R l → Sorted R' l.
Proof.
  intros HR. induction 1 as [|x l _ IH Hhd]; constructor; [done|].
  destruct Hhd; constructor; auto.
Qed.

Lemma elem_of_rows (m : gmap Z Shift) s :
  s ∈ (map_to_list m).*2 ↔ ∃ k, m !! k = Some s.
Proof.
  rewrite list_elem_of_fmap. split.
  - intros ([k s'] & -> & H%elem_of_map_to_list). by exists k.
  - intros (k & H). exists (k, s). split; [done|].
    by apply elem_of_map_to_list.
Qed.

(** X11.  The staff view holds exactly the stored rows of the worker that
    are published and dated within the range, each as often as it is
    stored, in ascending order of date and, within a date, of start
    time. *)
Theorem staff_view_is_published_rows st uid start_date end_date :
  let view := get_published_shifts_for_user st uid start_date end_date in
  (∀ s, s ∈ view ↔
     (∃ k, shifts st !! k = Some s) ∧ user_id s = uid ∧
     status s = PUBLISHED ∧ start_date ≤ date s ≤ end_date) ∧
  view ≡ₚ filter (λ s, user_id s = uid ∧ status s = PUBLISHED ∧
                       start_date ≤ date s ∧ date s ≤ end_date)
                 (map_to_list (shifts st)).*2 ∧
  Sorted row_le view ∧
  Sorted (λ a b, date a ≤ date b) view.
Proof.
  intros view. subst view. unfold get_published_shifts_for_user.
  split_and!.
  - intros s. rewrite order_rows_perm, list_elem_of_filter, elem_of_rows.
    tauto.
  - apply order_rows_perm.
  - apply order_rows_sorted.
  - eapply Sorted_weaken; [|apply order_rows_sorted].
    intros a b. apply row_le_date.
Qed.

(** X12.  The staff view never loses a row: what a worker sees stays
    there, unchanged, after any sequence of workflow calls. *)
Theorem staff_view_only_grows ops st uid start_date end_date s :
  s ∈ get_published_shifts_for_user st uid start_date end_date →
  s ∈ get_published_shifts_for_user (run_all ops st) uid start_date end_date.
Proof.
  unfold get_published_shifts_for_user.
  rewrite !order_rows_perm, !list_elem_of_filter, !elem_of_rows.
  intros (Hs & k & Hk). split; [done|]. exists k.
  destruct Hs as (_ & Hp & _).
  rewrite run_all_lookup, Hk. simpl. f_equal.
  by apply (row_after_all_evolves ops k s).
Qed.

End QueryFacts.

Module DraftFacts.
Import Calendar Models ShiftRevision Approval Workflow WorkflowFacts Examples.

Lemma foldl_insert_lookup_notin (l : list (Z * Shift)) (m : gmap Z Shift) k :
  k ∉ l.*1 →
  foldl (λ table '(k, row), <[k := row]> table) m l !! k = m !! k.
Proof.
  revert m. induction l as [|[k' v] l IH]; intros m Hk; csimpl in *; [done|].
  apply not_elem_of_cons in Hk as [Hne Hk].
  rewrite IH by done. by rewrite lookup_insert_ne.
Qed.

Lemma foldl_insert_lookup_in (l : list (Z * Shift)) (m : gmap Z Shift) k v :
  NoDup l.*1 → (k, v) ∈ l →
  foldl (λ table '(k, row), <[k := row]> table) m l !! k = Some v.
Proof.
  revert m. induction l as [|[k' v'] l IH]; intros m Hnd Hin; csimpl in *.
  - by apply elem_of_nil in Hin.
  - apply NoDup_cons in Hnd as [Hk' Hnd].
    apply elem_of_cons in Hin as [[= -> ->]|Hin].
    + rewrite foldl_insert_lookup_notin by done. apply lookup_insert_eq.
    + by apply IH.
Qed.

(** X14.  [create_draft_shifts] with fresh, distinct keys: each shift is
    stored under its key as a draft created by the caller at the time of
    the call, whatever status and creator it came with, with its group,
    worker, date and times; the rows that were stored and the ledger are
    as before. *)
Theorem create_draft_shifts_stores_drafts st new admin_id now new_ids :
  length new_ids = length new → NoDup new_ids →
  Forall (λ k, shifts st !! k = None) new_ids →
  let st' := (create_draft_shifts st new admin_id now new_ids).2 in
  (∀ i k s, new_ids !! i = Some k → new !! i = Some s →
     ∃ row, shifts st' !! k = Some row ∧
       status row = DRAFT ∧ created_by row = admin_id ∧
       created_at row = now ∧
       group_id row = group_id s ∧ user_id row = user_id s ∧
       date row = date s ∧ start_time row = start_time s ∧
       end_time row = end_time s ∧ version row = version s) ∧
  (∀ k s, shifts st !! k = Some s → shifts st' !! k = Some s) ∧
  (∀ k, k ∉ new_ids → shifts st' !! k = shifts st !! k) ∧
  revisions st' = revisions st.
Proof.
  intros Hlen Hnd Hfresh st'. subst st'. unfold create_draft_shifts. simpl.
  set (rows := (λ shift, set_created admin_id now (set_status DRAFT shift))
                 <$> new).
  assert ((zip new_ids rows).*1 = new_ids) as Hkeys.
  { apply fst_zip. subst rows. rewrite length_fmap. lia. }
  split_and!; [| | |done].
  - intros i k s Hi Hs.
    exists (set_created admin_id now (set_status DRAFT s)). split.
    + apply foldl_insert_lookup_in; [by rewrite Hkeys|].
      apply list_elem_of_lookup. exists i. apply lookup_zip_with_Some.
      eexists _, _. split_and!; [done|done|].
      subst rows. by rewrite list_lookup_fmap, Hs.
    + by destruct s.
  - intros k s Hk. rewrite foldl_insert_lookup_notin; [done|].
    rewrite Hkeys. intros Hin. rewrite Forall_forall in Hfresh.
    rewrite (Hfresh k Hin) in Hk. done.
  - intros k Hk. apply foldl_insert_lookup_notin. by rewrite Hkeys.
Qed.

(** X15.  Permissions grow with the rank of the role, with one
    exception: the permission to evaluate staff, which an evaluator holds
    and the next higher role, the sub-manager, does not.  The roles from
    sub-manager upwards are exactly those that may adjust shifts. *)
Theorem permissions_grow_with_rank :
  (∀ r1 r2 p,
     Permissions.role_value r1 ≤ Permissions.role_value r2 →
     p ≠ Permissions.EVALUATE_STAFF →
     Permissions.has_permission r1 p = true →
     Permissions.has_permission r2 p = true) ∧
  Permissions.can_evaluate_staff Permissions.EVALUATOR = true ∧
  Permissions.can_evaluate_staff Permissions.SUB_MANAGER = false ∧
  (∀ r, Permissions.is_manager_or_above r = Permissions.can_adjust_shifts r) ∧
  (∀ r, Permissions.can_approve_shifts r = true →
     Forall (λ p, Permissions.has_permission r p = true)
       [Permissions.CREATE_DRAFT_SHIFT; Permissions.ADJUST_SHIFT;
        Permissions.PUBLISH_SHIFT; Permissions.REJECT_SHIFT]).
Proof.
  split_and!; [|done|done| |].
  - intros r1 r2 p Hle Hp.
    destruct r1, r2; simpl in Hle; try lia; destruct p; try done.
  - by intros [].
  - intros [] Hr; try done; by repeat constructor.
Qed.
End DraftFacts.

(** ** The workflow on concrete sessions *)
Module WorkflowWitnesses.
Import Calendar Models ShiftRevision Approval Workflow WorkflowFacts QueryFacts DraftFacts Examples WorkflowExamples.

Lemma published_rows_are_final_witness :
  shifts one_of_each !! 6 = Some (row PUBLISHED) ∧
  shifts (run_all sample_calls one_of_each) !! 6 = Some (row PUBLISHED).
Proof.
  assert (shifts one_of_each !! 6 = Some (row PUBLISHED)) as Hk
    by (vm_compute; reflexivity).
  split; [exact Hk|].
  exact (published_rows_are_final sample_calls one_of_each 6 (row PUBLISHED)
           Hk eq_refl).
Defined.

Lemma pending_and_rejected_are_never_set_witness :
  map_Forall (λ _ s, status s ≠ PENDING ∧ status s ≠ REJECTED)
    (shifts settled) ∧
  map_Forall (λ _ s, status s ≠ PENDING ∧ status s ≠ REJECTED)
    (shifts (run_all sample_calls settled)).
Proof.
  assert (map_Forall (λ _ s, status s ≠ PENDING ∧ status s ≠ REJECTED)
            (shifts settled)) as H.
  { apply (bool_decide_unpack _). vm_compute. exact I. }
  split; [exact H|].
  exact (pending_and_rejected_are_never_set sample_calls settled H).
Defined.

Lemma group_calls_adjust_nothing k : Forall (λ op, ¬ adjusts k op) group_calls.
Proof. unfold group_calls. repeat constructor; simpl; tauto. Qed.

Lemma assignment_changes_only_by_adjustment_witness :
  Forall (λ op, ¬ adjusts 3 op) group_calls ∧
  shifts one_of_each !! 3 = Some (row ADJUSTED) ∧
  ∃ s', shifts (run_all group_calls one_of_each) !! 3 = Some s' ∧
    user_id s' = 7 ∧ version s' = 1.
Proof.
  assert (shifts one_of_each !! 3 = Some (row ADJUSTED)) as Hk
    by (vm_compute; reflexivity).
  split; [apply group_calls_adjust_nothing|]. split; [exact Hk|].
  destruct (assignment_changes_only_by_adjustment group_calls one_of_each 3
              (row ADJUSTED) (group_calls_adjust_nothing 3) Hk)
    as (s' & Hs' & Hu & _ & _ & Hv).
  exists s'. split; [exact Hs'|]. split; [exact Hu|exact Hv].
Defined.

Lemma no_approval_without_adjustment_witness :
  Forall (λ op, ¬ adjusts 1 op) group_calls ∧
  shifts one_of_each !! 1 = Some (row DRAFT) ∧
  ∃ s', shifts (run_all group_calls one_of_each) !! 1 = Some s' ∧
    status s' ∈ [DRAFT; ADJUSTING].
Proof.
  assert (shifts one_of_each !! 1 = Some (row DRAFT)) as Hk
    by (vm_compute; reflexivity).
  assert (status (row DRAFT) ∈ [DRAFT; ADJUSTING]) as Hs by (by left).
  split; [apply group_calls_adjust_nothing|]. split; [exact Hk|].
  exact (no_approval_without_adjustment group_calls one_of_each 1 (row DRAFT)
           (group_calls_adjust_nothing 1) Hk Hs).
Defined.

Lemma approve_then_publish_witness :
  shifts one_of_each !! 3 = Some (row ADJUSTED) ∧
  ∃ s', shifts (publish_shifts (approve_shifts one_of_each "g" 9 101).2
                  "g" 8 102).2 !! 3 = Some s' ∧
    status s' = PUBLISHED ∧ approved_by s' = Some 9 ∧
    published_by s' = Some 8.
Proof.
  assert (shifts one_of_each !! 3 = Some (row ADJUSTED)) as Hk
    by (vm_compute; reflexivity).
  assert (status (row ADJUSTED) ∈ [ADJUSTED; PENDING]) as Hs by (by left).
  split; [exact Hk|].
  destruct (approve_then_publish one_of_each "g" 9 101 8 102 3 (row ADJUSTED)
              Hk eq_refl Hs)
    as (s' & Hs' & Hp & Ha & _ & Hb & _).
  exists s'. by split_and!.
Defined.

Lemma adjust_shift_twice_witness :
  shifts one_of_each !! 1 = Some (row DRAFT) ∧
  can_edit (row DRAFT) = true ∧
  ∃ s2,
    adjust_shift
      (adjust_shift one_of_each 1 (mkNewData (Some 8) None None) 9 None 100).2
      1 (mkNewData (Some 8) None None) 9 None 101
    = (true,
       mkStore
         (<[1 := s2]>
            (shifts (adjust_shift one_of_each 1
                       (mkNewData (Some 8) None None) 9 None 100).2))
         (revisions (adjust_shift one_of_each 1
                       (mkNewData (Some 8) None None) 9 None 100).2)) ∧
    version s2 = 3.
Proof.
  assert (shifts one_of_each !! 1 = Some (row DRAFT)) as Hk
    by (vm_compute; reflexivity).
  split; [exact Hk|]. split; [reflexivity|].
  destruct (adjust_shift_twice one_of_each 1 (mkNewData (Some 8) None None)
              9 None 100 9 None 101 (row DRAFT) Hk eq_refl)
    as (s1 & s2 & _ & Heq & Hv & _).
  exists s2. split; [exact Heq|exact Hv].
Defined.

Lemma staff_view_only_grows_witness :
  row PUBLISHED ∈ get_published_shifts_for_user one_of_each 7 monday monday ∧
  row PUBLISHED ∈
    get_published_shifts_for_user (run_all sample_calls one_of_each)
      7 monday monday.
Proof.
  assert (row PUBLISHED ∈
            get_published_shifts_for_user one_of_each 7 monday monday) as H.
  { assert (get_published_shifts_for_user one_of_each 7 monday monday
            = [row PUBLISHED]) as -> by (vm_compute; reflexivity).
    by left. }
  split; [exact H|].
  exact (staff_view_only_grows sample_calls one_of_each 7 monday monday
           (row PUBLISHED) H).
Defined.

Lemma create_draft_shifts_stores_drafts_witness :
  length fresh_ids = length fresh_shifts ∧ NoDup fresh_ids ∧
  Forall (λ k, shifts one_of_each !! k = None) fresh_ids ∧
  ∃ r,
    shifts (create_draft_shifts one_of_each fresh_shifts 5 200 fresh_ids).2
      !! 11 = Some r ∧
    status r = DRAFT ∧ created_by r = 5 ∧ user_id r = 2.
Proof.
  assert (NoDup fresh_ids) as Hnd
    by (apply (bool_decide_unpack _); vm_compute; exact I).
  assert (Forall (λ k, shifts one_of_each !! k = None) fresh_ids) as Hfresh
    by (repeat constructor).
  split; [reflexivity|]. split; [exact Hnd|]. split; [exact Hfresh|].
  destruct (create_draft_shifts_stores_drafts one_of_each fresh_shifts 5 200
              fresh_ids eq_refl Hnd Hfresh) as (Hnew & _).
  destruct (Hnew 1%nat 11 (shift_on 2 monday 9 0 17 0) eq_refl eq_refl)
    as (r & Hr & Hs & Hc & _ & _ & Hu & _).
  exists r. by split_and!.
Defined.

(** A draft that is approved and published without adjustment stays a
    draft; the same calls after an adjustment publish it. *)
Example draft_needs_adjustment :
  status <$> shifts (run_all [ApproveShifts "g" 9 101; PublishShifts "g" 9 102]
                       one_of_each) !! 1 = Some DRAFT ∧
  status <$> shifts (run_all [AdjustShift 1 (mkNewData None None None) 9 None
                                100;
                              ApproveShifts "g" 9 101; PublishShifts "g" 9 102]
                       one_of_each) !! 1 = Some PUBLISHED.
Proof. split; vm_compute; reflexivity. Qed.
End WorkflowWitnesses.

Module CalendarRangeFacts.
Import Calendar Models Optimizer Planning.

(** *** The date range *)

Lemma date_range_loop_closed fuel current end_date :
  end_date - current < Z.of_nat fuel →
  date_range_loop fuel current end_date =
  (λ i, current + Z.of_nat i) <$> seq 0 (Z.to_nat (end_date - current + 1)).
Proof.
  revert current. induction fuel as [|fuel IH]; intros current Hfuel; simpl.
  - replace (Z.to_nat (end_date - current + 1)) with 0%nat by lia. done.
  - case_decide as Hle.
    + rewrite IH by lia.
      replace (Z.to_nat (end_date - current + 1))
        with (S (Z.to_nat (end_date - (current + 1) + 1))) by lia.
      csimpl. f_equal; [lia|].
      rewrite <-fmap_S_seq, <-list_fmap_compose.
      apply list_fmap_ext. intros i x _. simpl. lia.
    + replace (Z.to_nat (end_date - current + 1)) with 0%nat by lia. done.
Qed.

(** X16.  The date range is the list of the days from the start date to
    the end date, both included, in ascending order; it is empty when the
    end date is before the start date. *)
Theorem generate_date_range_days start_date end_date :
  _generate_date_range start_date end_date =
    (λ i, start_date + Z.of_nat i) <$>
      seq 0 (Z.to_nat (end_date - start_date + 1)) ∧
  (∀ d, d ∈ _generate_date_range start_date end_date ↔
        start_date ≤ d ≤ end_date) ∧
  Sorted Z.lt (_generate_date_range start_date end_date) ∧
  (_generate_date_range start_date end_date = [] ↔ end_date < start_date).
Proof.
  assert (_generate_date_range start_date end_date =
          (λ i, start_date + Z.of_nat i) <$>
            seq 0 (Z.to_nat (end_date - start_date + 1))) as Heq.
  { unfold _generate_date_range. apply date_range_loop_closed. lia. }
  split_and!; [done| | |].
  - intros d. rewrite Heq, list_elem_of_fmap. split.
    + intros (i & -> & Hi%elem_of_seq). lia.
    + intros Hd. exists (Z.to_nat (d - start_date)).
      split; [lia|]. apply elem_of_seq. lia.
  - rewrite Heq. generalize (Z.to_nat (end_date - start_date + 1)).
    intros n. generalize 0%nat.
    induction n as [|n IH]; intros k; csimpl; [constructor|].
    constructor; [apply IH|].
    destruct n; csimpl; constructor. lia.
  - rewrite Heq. split.
    + intros H%fmap_nil_inv.
      destruct (Z.to_nat (end_date - start_date + 1)) eqn:E; [lia|done].
    + intros H. by replace (Z.to_nat (end_date - start_date + 1)) with 0%nat
        by lia.
Qed.

(** *** The week starts *)

Lemma weekday_range d : 0 ≤ weekday d < 7.
Proof. unfold weekday. apply Z.mod_pos_bound. lia. Qed.

Lemma back_to_monday_closed fuel d :
  weekday d < Z.of_nat fuel → back_to_monday fuel d = d - weekday d.
Proof.
  revert d. induction fuel as [|fuel IH]; intros d Hfuel; simpl.
  - pose proof (weekday_range d). lia.
  - case_decide as Hw; [|lia].
    assert (weekday (d - 1) = weekday d - 1) as Hprev.
    { unfold weekday in *. Z.div_mod_to_equations. lia. }
    rewrite IH by lia. lia.
Qed.

Lemma week_starts_loop_elem fuel current last w :
  (last - current) / 7 < Z.of_nat fuel →
  w ∈ week_starts_loop fuel current last ↔
  ∃ i, 0 ≤ i ∧ w = current + 7 * i ∧ w ≤ last.
Proof.
  revert current. induction fuel as [|fuel IH]; intros current Hfuel; simpl.
  - rewrite elem_of_nil. split; [done|]. intros (i & Hi & -> & Hle).
    Z.div_mod_to_equations. lia.
  - case_decide as Hle.
    + rewrite elem_of_cons, IH by (Z.div_mod_to_equations; lia). split.
      * intros [->|(i & Hi & -> & Hl)].
        -- exists 0. lia.
        -- exists (i + 1). lia.
      * intros (i & Hi & -> & Hl).
        destruct (decide (i = 0)) as [->|Hne]; [left; lia|].
        right. exists (i - 1). lia.
    + rewrite elem_of_nil. split; [done|]. intros (i & Hi & -> & Hl). lia.
Qed.

Lemma week_starts_loop_sorted fuel current last :
  Sorted Z.lt (week_starts_loop fuel current last).
Proof.
  revert current. induction fuel as [|fuel IH]; intros current; simpl;
    [constructor|].
  case_decide; [|constructor]. constructor; [apply IH|].
  destruct fuel; simpl; [constructor|].
  case_decide; constructor. lia.
Qed.

Lemma date_range_loop_last fuel current end_date d0 :
  current ≤ end_date → end_date - current < Z.of_nat fuel →
  ∃ tail, date_range_loop fuel current end_date = current :: tail ∧
    List.last (current :: tail) d0 = end_date.
Proof.
  revert current. induction fuel as [|fuel IH]; intros current Hle Hfuel;
    [lia|]. simpl. rewrite decide_True by done.
  destruct (decide (current = end_date)) as [->|Hne].
  - exists []. split; [|done]. f_equal.
    destruct fuel; simpl; [done|]. by rewrite decide_False by lia.
  - destruct (IH (current + 1)) as (tail & Heq & Hlast); [lia..|].
    rewrite Heq. eexists. split; [done|]. exact Hlast.
Qed.

Lemma get_week_starts_cons first rest :
  _get_week_starts (first :: rest) =
  let monday := first - weekday first in
  let last := List.last (first :: rest) first in
  week_starts_loop (Z.to_nat ((last - monday) / 7 + 1)) monday last.
Proof.
  unfold _get_week_starts.
  rewrite back_to_monday_closed by (pose proof (weekday_range first); lia).
  done.
Qed.

Lemma get_week_starts_of_range start_date end_date w :
  start_date ≤ end_date →
  w ∈ _get_week_starts (_generate_date_range start_date end_date) ↔
  ∃ i, 0 ≤ i ∧ w = start_date - weekday start_date + 7 * i ∧ w ≤ end_date.
Proof.
  intros Hle. unfold _generate_date_range.
  destruct (date_range_loop_last
              (Z.to_nat (end_date - start_date + 1)) start_date end_date
              start_date Hle) as (tail & -> & Hlast); [lia|].
  rewrite get_week_starts_cons. cbv zeta. unfold Date in *. rewrite Hlast.
  apply week_starts_loop_elem. lia.
Qed.

(** X17.  The week starts of a date range are Mondays, seven days apart,
    and every day of the range lies in the week of exactly one of them;
    the list is empty when the range is. *)
Theorem get_week_starts_cover start_date end_date :
  let weeks :=
    _get_week_starts (_generate_date_range start_date end_date) in
  (∀ w, w ∈ weeks → weekday w = 0 ∧ w ≤ end_date) ∧
  (∀ d, start_date ≤ d ≤ end_date →
     ∃ w, w ∈ weeks ∧ w ≤ d ≤ w + 6 ∧
       ∀ w', w' ∈ weeks → w' ≤ d ≤ w' + 6 → w' = w) ∧
  Sorted Z.lt weeks ∧
  (end_date < start_date → weeks = []).
Proof.
  intros weeks. subst weeks.
  destruct (decide (start_date ≤ end_date)) as [Hle|Hgt].
  - pose proof (weekday_range start_date) as Hwd.
    split_and!.
    + intros w (i & Hi & -> & Hl)%get_week_starts_of_range; [|done].
      split; [|done]. unfold weekday in *. Z.div_mod_to_equations. lia.
    + intros d Hd.
      set (m := start_date - weekday start_date).
      exists (m + 7 * ((d - m) / 7)). split_and!.
      * apply get_week_starts_of_range; [done|].
        exists ((d - m) / 7). subst m.
        split_and!; [|done|]; Z.div_mod_to_equations; lia.
      * subst m. Z.div_mod_to_equations. lia.
      * subst m. Z.div_mod_to_equations. lia.
      * intros w' (i & Hi & -> & Hl)%get_week_starts_of_range Hw'; [|done].
        subst m. Z.div_mod_to_equations. lia.
    + unfold _generate_date_range.
      destruct (date_range_loop_last
                  (Z.to_nat (end_date - start_date + 1)) start_date end_date
                  start_date Hle) as (tail & -> & Hlast); [lia|].
      rewrite get_week_starts_cons. apply week_starts_loop_sorted.
    + lia.
  - assert (_generate_date_range start_date end_date = []) as ->.
    { unfold _generate_date_range.
      by replace (Z.to_nat (end_date - start_date + 1)) with 0%nat by lia. }
    simpl.
    split_and!; [by intros w ?%elem_of_nil|intros d ?; lia|constructor|done].
Qed.
End CalendarRangeFacts.

Module PlanFacts.
Import Calendar Models Optimizer Planning OptimizerFacts.

(** *** Sums of binary values *)

Lemma Z2Qc_le a b : (Z2Qc a ≤ Z2Qc b)%Qc ↔ a ≤ b.
Proof.
  unfold Qcle, Z2Qc. simpl. rewrite !Qred_correct.
  unfold Qle. simpl. lia.
Qed.

Lemma Z2Qc_succ n : (1 + Z2Qc n)%Qc = Z2Qc (n + 1).
Proof.
  apply Qc_is_canon. unfold Z2Qc. simpl. rewrite !Qred_correct.
  unfold Qeq. simpl. lia.
Qed.

Lemma zero_is_not_one : Some 0%Qc ≠ Some 1%Qc.
Proof.
  intros H. apply (f_equal (λ o, this (default 0%Qc o))) in H.
  simpl in H. discriminate H.
Qed.

Lemma lp_sum_binary value l :
  Forall (binary value) l →
  lp_sum value l = Z2Qc (Z.of_nat (length (filter (selected value) l))).
Proof.
  induction 1 as [|var l Hvar _ IH]; [done|].
  simpl. rewrite IH, filter_cons.
  destruct Hvar as [Hv|Hv]; rewrite Hv; simpl.
  - rewrite decide_False; [by rewrite Qcplus_0_l|].
    unfold selected. rewrite Hv. apply zero_is_not_one.
  - rewrite decide_True by exact Hv. simpl. rewrite Z2Qc_succ. f_equal. lia.
Qed.

(** *** Dictionaries whose values know their key *)

Lemma get_None {K V} `{EqDecision K} (l : list (K * V)) k :
  k ∉ l.*1 → Dict.get k l = None.
Proof.
  induction l as [|[k' v'] l IH]; csimpl; intros Hk; [done|].
  apply not_elem_of_cons in Hk as [? ?]. rewrite decide_False by done. auto.
Qed.

Lemma filter_all {A} (P : A → Prop) `{∀ x, Decision (P x)} (l : list A) :
  Forall P l → filter P l = l.
Proof.
  induction 1 as [|x l Hx _ IH]; [done|].
  by rewrite filter_cons_True, IH.
Qed.

Lemma filter_bind_key {K V X} `{EqDecision K}
    (l : list (K * V)) (f : K * V → list X) (key : X → K) k :
  NoDup l.*1 → (∀ p x, p ∈ l → x ∈ f p → key x = p.1) →
  filter (λ x, key x = k) (l ≫= f) =
  from_option (λ v, f (k, v)) [] (Dict.get k l).
Proof.
  induction l as [|[k' v'] l IH]; csimpl; intros Hnd Hkey; [done|].
  apply NoDup_cons in Hnd as [Hk' Hnd]. rewrite filter_app.
  rewrite IH; [|done|intros p x Hp; apply Hkey; by right].
  destruct (decide (k = k')) as [->|Hne].
  - rewrite get_None by done. simpl. rewrite app_nil_r.
    apply filter_all, Forall_forall. intros x Hx.
    apply (Hkey (k', v') x); [by left|done].
  - rewrite LaborLawFacts.filter_none; [done|].
    apply Forall_forall. intros x Hx Heq.
    rewrite (Hkey (k', v') x) in Heq; [|by left|done]. by destruct Hne.
Qed.

Lemma filter_bind {A B} (P : B → Prop) `{∀ x, Decision (P x)}
    (f : A → list B) (l : list A) :
  filter P (l ≫= f) = l ≫= (λ x, filter P (f x)).
Proof.
  induction l as [|x l IH]; csimpl; [done|]. by rewrite filter_app, IH.
Qed.

Lemma vars_of_user reqs shift_vars u :
  shift_vars_ok reqs shift_vars →
  filter (λ v, var_user v = u) (decision_variables shift_vars) =
  from_option vars_of [] (Dict.get u shift_vars).
Proof.
  intros [Hkeys Hvars]. rewrite Forall_forall in Hvars.
  unfold decision_variables.
  rewrite (filter_bind_key shift_vars (λ p, q ← p.2; q.2.*2) var_user u);
    [done|done|].
  intros [u' bd] var Hp ([d br] & Hv & Hq)%list_elem_of_bind. simpl in *.
  destruct (Hvars _ Hp) as [_ Hd]. rewrite Forall_forall in Hd.
  destruct (Hd _ Hq) as [_ Hr]. rewrite Forall_forall in Hr.
  apply list_elem_of_fmap in Hv as ([r v] & -> & Hv).
  destruct (Hr _ Hv) as [E _]. simpl in *. by rewrite E.
Qed.

Lemma vars_of_date reqs u by_date d :
  dates_ok reqs u by_date →
  filter (λ v, var_date v = d) (vars_of by_date) =
  from_option (λ by_request, by_request.*2) [] (Dict.get d by_date).
Proof.
  intros [Hkeys Hd]. rewrite Forall_forall in Hd. unfold vars_of.
  rewrite (filter_bind_key by_date (λ q, q.2.*2) var_date d); [done|done|].
  intros [d' br] var Hq Hv. simpl in *.
  destruct (Hd _ Hq) as [_ Hr]. rewrite Forall_forall in Hr.
  apply list_elem_of_fmap in Hv as ([r v] & -> & Hv).
  destruct (Hr _ Hv) as [E _]. simpl in *. by rewrite E.
Qed.

Lemma get_Some_elem {K V} `{EqDecision K} (l : list (K * V)) k v :
  Dict.get k l = Some v → (k, v) ∈ l.
Proof.
  induction l as [|[k' v'] l IH]; csimpl; [done|].
  case_decide as Hk; [intros [= ->]; subst; by left|].
  intros H. right. by apply IH.
Qed.

(** *** The constraints in closed form *)

Lemma daily_workers_filter reqs shift_vars d :
  shift_vars_ok reqs shift_vars →
  daily_workers shift_vars d =
  filter (λ v, var_date v = d) (decision_variables shift_vars).
Proof.
  intros [_ Hvars]. unfold daily_workers, decision_variables.
  rewrite (LaborLawFacts.foldl_append
             (λ p, from_option (λ br : Dict.dict Z LpVariable, br.*2) []
                     (Dict.get d p.2))).
  - simpl. rewrite filter_bind.
    induction Hvars as [|[u bd] l Hbd _ IH]; csimpl; [done|].
    rewrite IH. f_equal. symmetry. by eapply vars_of_date.
  - intros acc [u bd]. simpl.
    change (list (Z * LpVariable)) with (Dict.dict Z LpVariable).
    destruct (Dict.get d bd); simpl; [done|by rewrite app_nil_r].
Qed.

Lemma staff_constraints_elem cfg shift_vars date_range d :
  d ∈ date_range → daily_workers shift_vars d ≠ [] →
  mkConstraint (daily_workers shift_vars d) AtLeast
    (Config.MIN_STAFF_PER_SHIFT cfg)
    ∈ staff_constraints cfg shift_vars date_range ∧
  mkConstraint (daily_workers shift_vars d) AtMost
    (Config.MAX_STAFF_PER_SHIFT cfg)
    ∈ staff_constraints cfg shift_vars date_range.
Proof.
  intros Hd Hne. unfold staff_constraints.
  rewrite (LaborLawFacts.foldl_append
    (λ d, match daily_workers shift_vars d with
          | [] => []
          | _ :: _ =>
              [mkConstraint (daily_workers shift_vars d) AtLeast
                 (Config.MIN_STAFF_PER_SHIFT cfg);
               mkConstraint (daily_workers shift_vars d) AtMost
                 (Config.MAX_STAFF_PER_SHIFT cfg)]
          end)).
  - simpl. rewrite !list_elem_of_bind.
    split; exists d; (split; [|done]);
      destruct (daily_workers shift_vars d); try done;
      rewrite !elem_of_cons; auto.
  - intros acc d'. destruct (daily_workers shift_vars d'); [|done].
    by rewrite app_nil_r.
Qed.

Lemma one_shift_constraints_elem shift_vars u by_date d by_request :
  (u, by_date) ∈ shift_vars → (d, by_request) ∈ by_date →
  mkConstraint by_request.*2 AtMost 1 ∈ one_shift_constraints shift_vars.
Proof.
  intros Hu Hd. unfold one_shift_constraints.
  rewrite (LaborLawFacts.foldl_append
    (λ p : Z * Dict.dict Date (Dict.dict Z LpVariable),
       p.2 ≫= (λ q, [mkConstraint q.2.*2 AtMost 1]))).
  - simpl. apply list_elem_of_bind. exists (u, by_date). split; [|done].
    apply list_elem_of_bind. exists (d, by_request). split; [|done].
    by left.
  - intros acc [u' bd]. simpl.
    apply (LaborLawFacts.foldl_append
             (λ q : Date * Dict.dict Z LpVariable,
                [mkConstraint q.2.*2 AtMost 1])).
    by intros acc' [d' br].
Qed.

Lemma weekly_constraints_elem cfg shift_vars date_range u by_date w :
  (u, by_date) ∈ shift_vars → w ∈ _get_week_starts date_range →
  week_shifts by_date w ≠ [] →
  mkConstraint (week_shifts by_date w) AtMost
    (Config.MAX_WORK_HOURS_PER_WEEK cfg / 8)
    ∈ weekly_constraints cfg shift_vars date_range.
Proof.
  intros Hu Hw Hne. unfold weekly_constraints.
  rewrite (LaborLawFacts.foldl_append
    (λ p : Z * Dict.dict Date (Dict.dict Z LpVariable),
       _get_week_starts date_range ≫=
         (λ w, match week_shifts p.2 w with
               | [] => []
               | _ :: _ =>
                   [mkConstraint (week_shifts p.2 w) AtMost
                      (Config.MAX_WORK_HOURS_PER_WEEK cfg / 8)]
               end))).
  - simpl. apply list_elem_of_bind. exists (u, by_date). split; [|done].
    apply list_elem_of_bind. exists w. split; [|done]. simpl.
    destruct (week_shifts by_date w); [done|by left].
  - intros acc [u' bd]. simpl.
    apply (LaborLawFacts.foldl_append
      (λ w, match week_shifts bd w with
            | [] => []
            | _ :: _ =>
                [mkConstraint (week_shifts bd w) AtMost
                   (Config.MAX_WORK_HOURS_PER_WEEK cfg / 8)]
            end)).
    intros acc' w'. destruct (week_shifts bd w'); [|done].
    by rewrite app_nil_r.
Qed.

(** *** From variables to shifts *)

Lemma answers_fields reqs g c n var shift :
  answers reqs g c n var shift →
  user_id shift = var_user var ∧ date shift = var_date var.
Proof. by intros (r & _ & (_ & Hu & Hd) & ->). Qed.

Lemma count_answers reqs g c n (Q : Z → Date → Prop)
    `{∀ u d, Decision (Q u d)} chosen created :
  Forall2 (answers reqs g c n) chosen created →
  length (filter (λ s, Q (user_id s) (date s)) created) =
  length (filter (λ v, Q (var_user v) (var_date v)) chosen).
Proof.
  induction 1 as [|var shift chosen created Hans _ IH]; [done|].
  apply answers_fields in Hans as [Hu Hd].
  rewrite !filter_cons, Hu, Hd. case_decide; simpl; by rewrite IH.
Qed.

Lemma create_shifts_chosen value reqs g c n start_date end_date users :
  NoDup (ShiftRequest.id <$> reqs) →
  ∃ created,
    create_shifts LpStatusOptimal value reqs g c n start_date end_date users
      = Some created ∧
    Forall2 (answers reqs g c n)
      (filter (selected value)
         (decision_variables
            (build_shift_vars users reqs
               (_generate_date_range start_date end_date))))
      created.
Proof.
  intros Hnd. unfold create_shifts. rewrite decide_True by done.
  destruct (build_shift_vars_ok reqs users
              (_generate_date_range start_date end_date)) as [_ Hok].
  destruct (collect_users_ok value reqs g c n Hnd _ [] Hok)
    as (created & Heq & Hall).
  by exists created.
Qed.

Lemma count_selected value (P : LpVariable → Prop) `{∀ v, Decision (P v)}
    vars :
  length (filter P (filter (selected value) vars)) =
  length (filter (selected value) (filter P vars)).
Proof.
  rewrite !list_filter_filter. f_equal. apply list_filter_iff. tauto.
Qed.

Lemma count_bounded value l b :
  Forall (binary value) l → (lp_sum value l ≤ Z2Qc b)%Qc →
  Z.of_nat (length (filter (selected value) l)) ≤ b.
Proof. intros Hb. rewrite (lp_sum_binary _ _ Hb). apply Z2Qc_le. Qed.

Lemma count_at_least value l b :
  Forall (binary value) l → (Z2Qc b ≤ lp_sum value l)%Qc →
  b ≤ Z.of_nat (length (filter (selected value) l)).
Proof. intros Hb. rewrite (lp_sum_binary _ _ Hb). apply Z2Qc_le. Qed.

Lemma Forall_filter_sub {A} (P Q : A → Prop) `{∀ x, Decision (Q x)} l :
  Forall P l → Forall P (filter Q l).
Proof.
  rewrite !Forall_forall. intros Hall x [_ ?]%list_elem_of_filter. auto.
Qed.

(** *** What [shift_vars] holds *)

Lemma get_set {K V} `{EqDecision K} (l : list (K * V)) k k' v :
  Dict.get k (Dict.set k' v l) =
  if decide (k = k') then Some v else Dict.get k l.
Proof.
  induction l as [|[k0 v0] l IH]; simpl.
  - done.
  - destruct (decide (k' = k0)) as [->|Hne]; simpl.
    + by destruct (decide (k = k0)).
    + rewrite IH. destruct (decide (k = k0)) as [->|?]; [|done].
      by rewrite decide_False by done.
Qed.

Lemma elem_get {K V} `{EqDecision K} (l : list (K * V)) k v :
  NoDup l.*1 → (k, v) ∈ l → Dict.get k l = Some v.
Proof.
  induction l as [|[k' v'] l IH]; csimpl; intros Hnd Hin.
  - by apply elem_of_nil in Hin.
  - apply NoDup_cons in Hnd as [Hk Hnd].
    apply elem_of_cons in Hin as [[= -> ->]|Hin].
    + by rewrite decide_True.
    + rewrite decide_False; [by apply IH|].
      intros ->. apply Hk, list_elem_of_fmap. by exists (k', v).
Qed.

Lemma get_request_vars user d rs i :
  Dict.get i (request_vars user d rs) =
  if decide (i ∈ ShiftRequest.id <$> rs)
  then Some (mkVar (uid user) d i) else None.
Proof.
  unfold request_vars.
  induction rs as [|r rs IH] using rev_ind; [done|].
  rewrite foldl_snoc, get_set, IH, fmap_app. simpl.
  destruct (decide (i = ShiftRequest.id r)) as [->|Hne].
  - rewrite decide_True; [done|].
    apply elem_of_app. right. by left.
  - destruct (decide (i ∈ ShiftRequest.id <$> rs)) as [Hin|Hin].
    + rewrite decide_True; [done|]. apply elem_of_app. by left.
    + rewrite decide_False; [done|].
      rewrite elem_of_app, list_elem_of_singleton. tauto.
Qed.

Lemma get_date_vars user user_requests date_range d :
  Dict.get d (date_vars user user_requests date_range) =
  if decide (d ∈ date_range)
  then Some (request_vars user d
               (filter (λ r, ShiftRequest.date r = d) user_requests))
  else None.
Proof.
  unfold date_vars.
  induction date_range as [|d' ds IH] using rev_ind; [done|].
  rewrite foldl_snoc, get_set, IH.
  destruct (decide (d = d')) as [->|Hne].
  - rewrite decide_True; [done|]. apply elem_of_app. right. by left.
  - destruct (decide (d ∈ ds)) as [Hin|Hin].
    + rewrite decide_True; [done|]. apply elem_of_app. by left.
    + rewrite decide_False; [done|].
      rewrite elem_of_app, list_elem_of_singleton. tauto.
Qed.

Lemma date_vars_uid user1 user2 user_requests date_range :
  uid user1 = uid user2 →
  date_vars user1 user_requests date_range =
  date_vars user2 user_requests date_range.
Proof. unfold date_vars, request_vars. by intros ->. Qed.

Lemma build_shift_vars_snoc users user reqs date_range :
  build_shift_vars (users ++ [user]) reqs date_range =
  if negb (is_active user) then build_shift_vars users reqs date_range
  else Dict.set (uid user)
         (date_vars user
            (filter (λ r, ShiftRequest.user_id r = uid user) reqs)
            date_range)
         (build_shift_vars users reqs date_range).
Proof. unfold build_shift_vars. by rewrite foldl_snoc. Qed.

Lemma get_build_active users reqs date_range user :
  user ∈ users → is_active user = true →
  Dict.get (uid user) (build_shift_vars users reqs date_range) =
  Some (date_vars user
          (filter (λ r, ShiftRequest.user_id r = uid user) reqs)
          date_range).
Proof.
  induction users as [|user' users IH] using rev_ind; intros Hin Hact.
  - by apply elem_of_nil in Hin.
  - rewrite build_shift_vars_snoc.
    destruct (is_active user') eqn:Hact'; simpl.
    + rewrite get_set. case_decide as Hu.
      * rewrite <-Hu. f_equal. by apply date_vars_uid.
      * apply IH; [|done].
        apply elem_of_app in Hin as [?|Heq%list_elem_of_singleton];
          [done|subst; by destruct Hu].
    + apply IH; [|done].
      apply elem_of_app in Hin as [?|Heq%list_elem_of_singleton];
        [done|congruence].
Qed.

Lemma get_build_Some users reqs date_range u by_date :
  Dict.get u (build_shift_vars users reqs date_range) = Some by_date →
  ∃ user, user ∈ users ∧ is_active user = true ∧ uid user = u ∧
    by_date =
    date_vars user (filter (λ r, ShiftRequest.user_id r = u) reqs)
      date_range.
Proof.
  induction users as [|user' users IH] using rev_ind; [done|].
  rewrite build_shift_vars_snoc.
  assert (∀ user, user ∈ users → user ∈ users ++ [user']) as Hsub
    by (intros ??; apply elem_of_app; by left).
  destruct (is_active user') eqn:Hact'; simpl.
  - rewrite get_set. case_decide as Hu.
    + intros [= <-]. exists user'. subst u.
      split_and!; try done. apply elem_of_app. right. by left.
    + intros (user & ? & ?)%IH. exists user. split; auto.
  - intros (user & ? & ?)%IH. exists user. split; auto.
Qed.

Lemma decision_variables_unfold shift_vars var :
  var ∈ decision_variables shift_vars ↔
  ∃ u by_date d by_request i,
    (u, by_date) ∈ shift_vars ∧ (d, by_request) ∈ by_date ∧
    (i, var) ∈ by_request.
Proof.
  unfold decision_variables. split.
  - intros ([u bd] & ([d br] & Hv & Hq)%list_elem_of_bind & Hp)
      %list_elem_of_bind.
    apply list_elem_of_fmap in Hv as ([i v] & -> & Hv).
    by exists u, bd, d, br, i.
  - intros (u & bd & d & br & i & Hp & Hq & Hv).
    apply list_elem_of_bind. exists (u, bd). split; [|done].
    apply list_elem_of_bind. exists (d, br). split; [|done].
    apply list_elem_of_fmap. by exists (i, var).
Qed.

Lemma decision_variables_spec users reqs start_date end_date var :
  var ∈ decision_variables
          (build_shift_vars users reqs
             (_generate_date_range start_date end_date)) ↔
  (∃ user, user ∈ users ∧ is_active user = true ∧
           uid user = var_user var) ∧
  start_date ≤ var_date var ≤ end_date ∧
  (∃ r, r ∈ reqs ∧ originates r var).
Proof.
  set (date_range := _generate_date_range start_date end_date).
  rewrite <-(generate_date_range_spec start_date end_date).
  fold date_range.
  destruct (build_shift_vars_ok reqs users date_range) as [Hkeys Hvars].
  rewrite Forall_forall in Hvars.
  rewrite decision_variables_unfold. split.
  - intros (u & bd & d & br & i & Hp & Hq & Hv).
    destruct (Hvars _ Hp) as [Hdkeys Hd]. rewrite Forall_forall in Hd.
    destruct (Hd _ Hq) as [_ Hr]. rewrite Forall_forall in Hr.
    destruct (Hr _ Hv) as [E Hreq]. simpl in *.
    apply elem_get in Hp; [|done].
    apply get_build_Some in Hp as (user & Hin & Hact & Hu & Hbd).
    apply elem_get in Hq; [|done].
    rewrite Hbd, get_date_vars in Hq. case_decide as Hrange; [|done].
    rewrite E. simpl. split_and!; [by exists user|done|by rewrite E in Hreq].
  - intros ((user & Hin & Hact & Hu) & Hrange & r & Hr & Hid & Huser & Hdate).
    eexists (uid user), _, (var_date var), _, (var_request var).
    split_and!.
    + apply get_Some_elem. by apply get_build_active.
    + apply get_Some_elem. rewrite get_date_vars. by rewrite decide_True.
    + apply get_Some_elem. rewrite get_request_vars, decide_True.
      * rewrite Hu. by destruct var.
      * apply list_elem_of_fmap. exists r. split; [done|].
        apply list_elem_of_filter. split; [done|].
        apply list_elem_of_filter. split; [congruence|done].
Qed.

(** X18.  A variable is made for every request of an active worker that is
    dated within the range, and for nothing else; no variable is made
    twice, even when a worker is listed twice. *)
Theorem decision_variables_elem users reqs start_date end_date :
  let variables :=
    decision_variables
      (build_shift_vars users reqs
         (_generate_date_range start_date end_date)) in
  (∀ var, var ∈ variables ↔
     (∃ user, user ∈ users ∧ is_active user = true ∧
              uid user = var_user var) ∧
     start_date ≤ var_date var ≤ end_date ∧
     (∃ r, r ∈ reqs ∧ originates r var)) ∧
  NoDup variables.
Proof.
  intros variables. split.
  - intros var. apply decision_variables_spec.
  - apply (decision_variables_NoDup reqs), build_shift_vars_ok.
Qed.

(** *** What a feasible solution gives *)

Lemma created_answers value reqs group_id created_by now start_date
    end_date users created :
  NoDup (ShiftRequest.id <$> reqs) →
  create_shifts LpStatusOptimal value reqs group_id created_by now
    start_date end_date users = Some created →
  Forall2 (answers reqs group_id created_by now)
    (filter (selected value)
       (decision_variables
          (build_shift_vars users reqs
             (_generate_date_range start_date end_date))))
    created.
Proof.
  intros distinct_ids result.
  destruct (create_shifts_chosen value reqs group_id created_by now
              start_date end_date users distinct_ids)
    as (created' & Heq & Hans).
  rewrite result in Heq. by injection Heq as ->.
Qed.

Lemma all_binary cfg value reqs start_date end_date users :
  feasible cfg value users reqs start_date end_date →
  Forall (binary value)
    (decision_variables
       (build_shift_vars users reqs
          (_generate_date_range start_date end_date))).
Proof. by intros [? _]. Qed.

Lemma constraint_holds cfg value reqs start_date end_date users :
  feasible cfg value users reqs start_date end_date →
  ∀ c,
    c ∈ staff_constraints cfg
          (build_shift_vars users reqs
             (_generate_date_range start_date end_date))
          (_generate_date_range start_date end_date) ∨
    c ∈ one_shift_constraints
          (build_shift_vars users reqs
             (_generate_date_range start_date end_date)) ∨
    c ∈ weekly_constraints cfg
          (build_shift_vars users reqs
             (_generate_date_range start_date end_date))
          (_generate_date_range start_date end_date) →
    satisfied value c.
Proof.
  intros [_ Hall] c Hc. rewrite Forall_forall in Hall.
  apply Hall. unfold constraints.
  rewrite !elem_of_app. exact Hc.
Qed.

Lemma count_by_key {X} (key : X → Z) (ks : list Z) (l : list X) :
  NoDup ks →
  length (filter (λ x, key x ∈ ks) l) =
  length (ks ≫= (λ k, filter (λ x, key x = k) l)).
Proof.
  induction 1 as [|k ks Hk _ IH]; csimpl.
  - apply length_zero_iff_nil, LaborLawFacts.filter_none, Forall_forall.
    intros x _. apply not_elem_of_nil.
  - rewrite length_app, <-IH. clear IH.
    induction l as [|x l IHl]; [done|].
    rewrite !filter_cons.
    destruct (decide (key x = k)) as [E|E].
    + rewrite decide_True by (rewrite E; by left).
      rewrite decide_False by (by rewrite E). simpl. by rewrite IHl.
    + destruct (decide (key x ∈ ks)) as [Hin|Hin].
      * rewrite decide_True by (by right). simpl. rewrite IHl. lia.
      * rewrite decide_False; [done|].
        rewrite elem_of_cons. tauto.
Qed.

Lemma week_shifts_bind by_date w :
  week_shifts by_date w =
  ((λ i, w + Z.of_nat i) <$> seq 0 7) ≫=
    (λ d, from_option (λ br : Dict.dict Z LpVariable, br.*2) []
            (Dict.get d by_date)).
Proof.
  unfold week_shifts.
  apply (LaborLawFacts.foldl_append
           (λ d, from_option (λ br : Dict.dict Z LpVariable, br.*2) []
                   (Dict.get d by_date)) _ []).
  intros acc d.
  change (list (Z * LpVariable)) with (Dict.dict Z LpVariable).
  destruct (Dict.get d by_date); simpl; [done|by rewrite app_nil_r].
Qed.

Lemma week_shifts_count value reqs u by_date w :
  dates_ok reqs u by_date →
  length (filter (selected value) (week_shifts by_date w)) =
  length (filter (selected value)
            (filter (λ v, w ≤ var_date v ≤ w + 6) (vars_of by_date))).
Proof.
  intros Hok. rewrite week_shifts_bind.
  rewrite <-(count_selected value (λ v, w ≤ var_date v ≤ w + 6)).
  rewrite (list_filter_iff (λ v, w ≤ var_date v ≤ w + 6)
             (λ v, var_date v ∈ (λ i, w + Z.of_nat i) <$> seq 0 7)).
  - rewrite (count_by_key var_date).
    + rewrite filter_bind. apply (f_equal length).
      induction ((λ i, w + Z.of_nat i) <$> seq 0 7) as [|d ds IH];
        csimpl; [done|].
      rewrite <-IH. f_equal.
      transitivity (filter (selected value)
                      (filter (λ v, var_date v = d) (vars_of by_date))).
      * f_equal. symmetry. apply (vars_of_date reqs u by_date d Hok).
      * rewrite !list_filter_filter. apply list_filter_iff. tauto.
    + simpl.
      repeat (apply NoDup_cons; split;
              [rewrite ?elem_of_cons, elem_of_nil; lia|]).
      apply NoDup_nil_2.
  - intros v. simpl. rewrite !elem_of_cons, elem_of_nil. lia.
Qed.

Lemma week_shifts_sub shift_vars u by_date w var :
  (u, by_date) ∈ shift_vars → var ∈ week_shifts by_date w →
  var ∈ decision_variables shift_vars.
Proof.
  intros Hp. rewrite week_shifts_bind.
  intros (d & Hv & _)%list_elem_of_bind.
  destruct (Dict.get d by_date) as [br|] eqn:Hget; simpl in Hv;
    [|by apply elem_of_nil in Hv].
  apply list_elem_of_fmap in Hv as ([i v] & -> & Hv).
  apply decision_variables_unfold. exists u, by_date, d, br, i.
  split_and!; [done|by apply get_Some_elem|done].
Qed.

(** X19.  In the shifts made from a feasible solution no worker has two
    shifts on one day. *)
Theorem one_shift_per_worker_and_day cfg value reqs group_id created_by now
    start_date end_date users created u d :
  NoDup (ShiftRequest.id <$> reqs) →
  feasible cfg value users reqs start_date end_date →
  create_shifts LpStatusOptimal value reqs group_id created_by now
    start_date end_date users = Some created →
  (length (filter (λ shift, user_id shift = u ∧ date shift = d) created)
   ≤ 1)%nat.
Proof.
  intros Hids Hsol Hres.
  pose proof (created_answers _ _ _ _ _ _ _ _ _ Hids Hres) as Hans.
  pose proof (all_binary _ _ _ _ _ _ Hsol) as Hbin.
  pose proof (constraint_holds _ _ _ _ _ _ Hsol) as Hcons.
  destruct (build_shift_vars_ok reqs users
              (_generate_date_range start_date end_date)) as [Hkeys Hvars].
  set (shift_vars := build_shift_vars users reqs
                       (_generate_date_range start_date end_date)) in *.
  pose proof (count_answers _ _ _ _ (λ u' d', u' = u ∧ d' = d) _ _ Hans)
    as Hcount.
  cbv beta in Hcount. rewrite Hcount.
  rewrite count_selected.
  rewrite (list_filter_iff (λ v, var_user v = u ∧ var_date v = d)
             (λ v, var_date v = d ∧ var_user v = u)) by (intros; tauto).
  rewrite <-list_filter_filter.
  rewrite (vars_of_user reqs) by done.
  destruct (Dict.get u shift_vars) as [by_date|] eqn:Hu; simpl; [|lia].
  apply get_Some_elem in Hu. rewrite Forall_forall in Hvars.
  rewrite (vars_of_date reqs u) by apply (Hvars _ Hu).
  destruct (Dict.get d by_date) as [by_request|] eqn:Hd; simpl; [|lia].
  apply get_Some_elem in Hd.
  enough (Z.of_nat (length (filter (selected value) by_request.*2)) ≤ 1)
    by lia.
  assert (satisfied value (mkConstraint by_request.*2 AtMost 1)) as Hsat.
  { apply Hcons. right. left. by eapply one_shift_constraints_elem. }
  apply (count_bounded value); [|exact Hsat].
  rewrite Forall_forall in Hbin. apply Forall_forall.
  intros var ([i v] & -> & Hv)%list_elem_of_fmap. apply Hbin.
  apply decision_variables_unfold. by exists u, by_date, d, by_request, i.
Qed.

(** X20.  On a day of the range for which an active worker has a request,
    the number of shifts made from a feasible solution lies between the
    minimum and the maximum staff. *)
Theorem staff_per_day_within_bounds cfg value reqs group_id created_by now
    start_date end_date users created user r :
  NoDup (ShiftRequest.id <$> reqs) →
  feasible cfg value users reqs start_date end_date →
  create_shifts LpStatusOptimal value reqs group_id created_by now
    start_date end_date users = Some created →
  user ∈ users → is_active user = true →
  r ∈ reqs → ShiftRequest.user_id r = uid user →
  start_date ≤ ShiftRequest.date r ≤ end_date →
  Config.MIN_STAFF_PER_SHIFT cfg
  ≤ Z.of_nat (length (filter (λ shift, date shift = ShiftRequest.date r)
                        created))
  ≤ Config.MAX_STAFF_PER_SHIFT cfg.
Proof.
  intros Hids Hsol Hres Huser Hact Hr Hru Hrange.
  pose proof (created_answers _ _ _ _ _ _ _ _ _ Hids Hres) as Hans.
  pose proof (all_binary _ _ _ _ _ _ Hsol) as Hbin.
  pose proof (constraint_holds _ _ _ _ _ _ Hsol) as Hcons.
  assert (mkVar (uid user) (ShiftRequest.date r) (ShiftRequest.id r)
          ∈ decision_variables
              (build_shift_vars users reqs
                 (_generate_date_range start_date end_date))) as Hvar.
  { apply decision_variables_spec. simpl. split_and!; [by exists user|lia..|].
    by exists r. }
  pose proof (build_shift_vars_ok reqs users
                (_generate_date_range start_date end_date)) as Hok.
  set (shift_vars := build_shift_vars users reqs
                       (_generate_date_range start_date end_date)) in *.
  set (d := ShiftRequest.date r) in *.
  pose proof (count_answers _ _ _ _ (λ _ d', d' = d)
                (H:=λ _ d', decide_rel (=) d' d) _ _ Hans) as Hcount.
  cbv beta in Hcount. rewrite Hcount.
  rewrite count_selected, <-(daily_workers_filter reqs) by done.
  assert (Forall (binary value) (daily_workers shift_vars d)) as Hbin'.
  { rewrite (daily_workers_filter reqs) by done. by apply Forall_filter_sub. }
  assert (daily_workers shift_vars d ≠ []) as Hne.
  { rewrite (daily_workers_filter reqs) by done. intros Hnil.
    assert (mkVar (uid user) d (ShiftRequest.id r)
            ∈ filter (λ v, var_date v = d) (decision_variables shift_vars))
      as Hin by (by apply list_elem_of_filter).
    rewrite Hnil in Hin. by apply elem_of_nil in Hin. }
  destruct (staff_constraints_elem cfg shift_vars
              (_generate_date_range start_date end_date) d) as [Hmin Hmax];
    [by apply generate_date_range_spec|done|].
  pose proof (Hcons _ (or_introl Hmin)) as Hsat_min.
  pose proof (Hcons _ (or_introl Hmax)) as Hsat_max.
  split.
  - apply (count_at_least value); [done|exact Hsat_min].
  - apply (count_bounded value); [done|exact Hsat_max].
Qed.

(** X21.  In the shifts made from a feasible solution a worker has, in
    each week of the range, at most an eighth of the weekly hours as
    days. *)
Theorem days_per_week_capped cfg value reqs group_id created_by now
    start_date end_date users created u week_start :
  NoDup (ShiftRequest.id <$> reqs) →
  feasible cfg value users reqs start_date end_date →
  create_shifts LpStatusOptimal value reqs group_id created_by now
    start_date end_date users = Some created →
  0 ≤ Config.MAX_WORK_HOURS_PER_WEEK cfg →
  week_start ∈ _get_week_starts (_generate_date_range start_date end_date) →
  Z.of_nat
    (length (filter (λ shift, user_id shift = u ∧
                              week_start ≤ date shift ≤ week_start + 6)
               created))
  ≤ Config.MAX_WORK_HOURS_PER_WEEK cfg / 8.
Proof.
  intros Hids Hsol Hres Hcap Hweek.
  pose proof (created_answers _ _ _ _ _ _ _ _ _ Hids Hres) as Hans.
  pose proof (all_binary _ _ _ _ _ _ Hsol) as Hbin.
  pose proof (constraint_holds _ _ _ _ _ _ Hsol) as Hcons.
  destruct (build_shift_vars_ok reqs users
              (_generate_date_range start_date end_date)) as [Hkeys Hvars].
  set (shift_vars := build_shift_vars users reqs
                       (_generate_date_range start_date end_date)) in *.
  assert (0 ≤ Config.MAX_WORK_HOURS_PER_WEEK cfg / 8) as Hcap'
    by (apply Z.div_pos; lia).
  pose proof (count_answers _ _ _ _
                (λ u' d', u' = u ∧ week_start ≤ d' ≤ week_start + 6)
                _ _ Hans) as Hcount.
  cbv beta in Hcount. rewrite Hcount.
  rewrite count_selected.
  rewrite (list_filter_iff
             (λ v, var_user v = u ∧ week_start ≤ var_date v ≤ week_start + 6)
             (λ v, week_start ≤ var_date v ≤ week_start + 6 ∧ var_user v = u))
    by (intros; tauto).
  rewrite <-list_filter_filter.
  rewrite (vars_of_user reqs) by done.
  destruct (Dict.get u shift_vars) as [by_date|] eqn:Hu; simpl; [|done].
  apply get_Some_elem in Hu. rewrite Forall_forall in Hvars.
  rewrite <-(week_shifts_count value reqs u) by apply (Hvars _ Hu).
  destruct (week_shifts by_date week_start) as [|var vars] eqn:Hshifts;
    [done|].
  rewrite <-Hshifts.
  assert (satisfied value
            (mkConstraint (week_shifts by_date week_start) AtMost
               (Config.MAX_WORK_HOURS_PER_WEEK cfg / 8))) as Hsat.
  { apply Hcons. right. right.
    eapply weekly_constraints_elem; [done..|]. by rewrite Hshifts. }
  apply (count_bounded value); [|exact Hsat].
  rewrite Forall_forall in Hbin. apply Forall_forall.
  intros v Hv. apply Hbin. by eapply week_shifts_sub.
Qed.
End PlanFacts.

(** ** The rules of [utils/labor_law.py], further properties *)
Module RuleFacts.
Import Calendar Models Config LaborLaw DictFacts LaborLawFacts RuleNotions.
Import Examples.

(** *** Hours never count negative *)

Lemma get_duration_hours_nonneg s :
  valid_times s → (0 ≤ get_duration_hours s)%Qc.
Proof.
  intros [Hst Hen].
  destruct (start_time s) as [st|] eqn:Est;
    [|by rewrite DurationFacts.get_duration_hours_missing by auto].
  destruct (end_time s) as [en|] eqn:Een;
    [|by rewrite DurationFacts.get_duration_hours_missing by auto].
  simpl in *. apply DurationFacts.minutes_of_range in Hst, Hen.
  rewrite (DurationFacts.get_duration_hours_minutes s st en) by done.
  change 0%Qc with (Z2Qc 0). rewrite DurationFacts.hours_of_minutes_Z.
  apply DurationFacts.hours_of_minutes_le. case_decide; lia.
Qed.

(** The minutes of a shift, less than a day of them. *)
Lemma duration_minutes s :
  valid_times s →
  ∃ n, 0 ≤ n < 1440 ∧ get_duration_hours s = hours_of_minutes n.
Proof.
  intros [Hst Hen].
  assert (0%Qc = hours_of_minutes 0) as Hzero by (by apply Qc_is_canon).
  destruct (start_time s) as [st|] eqn:Est; cycle 1.
  { exists 0. split; [lia|].
    by rewrite DurationFacts.get_duration_hours_missing by auto. }
  destruct (end_time s) as [en|] eqn:Een; cycle 1.
  { exists 0. split; [lia|].
    by rewrite DurationFacts.get_duration_hours_missing by auto. }
  simpl in *. apply DurationFacts.minutes_of_range in Hst, Hen.
  rewrite (DurationFacts.get_duration_hours_minutes s st en) by done.
  eexists. split; [|done]. case_decide; lia.
Qed.

(** Comparing the double that [get_duration_hours] returns with an
    integer is comparing the exact quotient with it. *)
Lemma duration_over_iff s cap :
  valid_times s →
  Double.gt_int (duration s) cap ↔ (Z2Qc cap < get_duration_hours s)%Qc.
Proof.
  intros (n & Hn & Hq)%duration_minutes. unfold duration. rewrite Hq.
  split.
  - intros Hover. apply Qcnot_le_lt. intros Hle.
    by apply (DoubleFacts.round_minutes_within n cap Hn).
  - by apply DoubleFacts.round_minutes_over.
Qed.

(** The hours accumulated under a key are not below the hours of any
    shift under that key. *)
Lemma accumulated_ge {K} `{EqDecision K} (key : Shift → K) l s v :
  Forall valid_times l → s ∈ l →
  Double.ge_rat (duration s) v →
  Double.ge_rat (accumulated key (key s) l) v.
Proof.
  intros Hvalid Hs Hv. unfold accumulated.
  set (mine := filter (λ s', key s' = key s) l).
  assert (duration <$> mine = Double.round <$> (get_duration_hours <$> mine))
    as -> by (by rewrite <-list_fmap_compose).
  destruct (DoubleFacts.sum_ge (get_duration_hours <$> mine)
              (Double.Finite 0)) as (_ & _ & _ & Hsum); [|done|done|].
  - apply Forall_fmap, Forall_forall.
    intros s' [_ Hs']%list_elem_of_filter.
    apply get_duration_hours_nonneg.
    rewrite Forall_forall in Hvalid. by apply Hvalid.
  - apply (Hsum (get_duration_hours s)); [|done].
    apply list_elem_of_fmap. exists s. split; [done|].
    by apply list_elem_of_filter.
Qed.

Lemma head_filter_is_Some {A} (P : A → Prop) `{∀ x, Decision (P x)} l :
  is_Some (head (filter P l)) ↔ ∃ x, x ∈ l ∧ P x.
Proof.
  induction l as [|x l IH]; simpl.
  - split; [by intros [? [=]]|]. by intros (x & ?%elem_of_nil & _).
  - rewrite filter_cons. case_decide as Hx; simpl.
    + split; [|by eauto]. intros _. exists x. split; [by left|done].
    + rewrite IH. split.
      * intros (y & Hy & HP). exists y. split; [by right|done].
      * intros (y & [->|Hy]%elem_of_cons & HP); [done|by exists y].
Qed.

(** *** The daily rule *)

Lemma daily_hours_reported cfg shifts uid uname :
  let mine := filter (λ s, Models.user_id s = uid) shifts in
  is_Some (check_daily_work_hours cfg shifts uid uname) ↔
  ∃ s, s ∈ mine ∧
    Double.gt_int (accumulated date (date s) mine)
      (MAX_WORK_HOURS_PER_DAY cfg).
Proof.
  intros mine. rewrite check_daily_work_hours_spec. fold mine.
  rewrite fmap_is_Some, head_filter_is_Some. split.
  - intros (d & Hd & Hover).
    apply elem_of_first_occ, list_elem_of_fmap in Hd as (s & -> & Hs).
    by exists s.
  - intros (s & Hs & Hover). exists (date s). split; [|done].
    apply elem_of_first_occ, list_elem_of_fmap. by exists s.
Qed.

(** X22.  The daily rule reports exactly when the hours of the worker on
    some day, added up as doubles in the order of the list, come to more
    than the daily cap; the shifts of the other workers have no part in
    it. *)
Theorem daily_hours_rule cfg shifts uid uname :
  let mine := filter (λ s, Models.user_id s = uid) shifts in
  (is_Some (check_daily_work_hours cfg shifts uid uname) ↔
   ∃ s, s ∈ mine ∧
     Double.gt_int (accumulated date (date s) mine)
       (MAX_WORK_HOURS_PER_DAY cfg)) ∧
  check_daily_work_hours cfg shifts uid uname =
    check_daily_work_hours cfg mine uid uname.
Proof.
  intros mine. split; [apply daily_hours_reported|].
  unfold check_daily_work_hours.
  replace (filter (λ s, Models.user_id s = uid) mine) with mine; [done|].
  subst mine. rewrite list_filter_filter.
  apply list_filter_iff. tauto.
Qed.

(** X23.  A shift that is by itself longer than the daily cap is always
    reported for its worker, whatever else the list holds. *)
Theorem overlong_shift_is_reported cfg shifts s uname :
  Forall valid_times shifts → s ∈ shifts →
  (Z2Qc (MAX_WORK_HOURS_PER_DAY cfg) < get_duration_hours s)%Qc →
  is_Some (check_daily_work_hours cfg shifts (Models.user_id s) uname).
Proof.
  intros Hvalid Hs Hlong. apply daily_hours_reported. exists s.
  assert (s ∈ filter (λ s', Models.user_id s' = Models.user_id s) shifts)
    as Hmine by (by apply list_elem_of_filter).
  split; [done|].
  assert (valid_times s) as Hvs.
  { rewrite Forall_forall in Hvalid. by apply Hvalid. }
  destruct (duration_minutes s Hvs) as (n & Hn & Hq).
  rewrite Hq in Hlong.
  apply (DoubleFacts.round_minutes_over n _ Hn) in Hlong.
  apply DoubleFacts.gt_int_ge_rat in Hlong as (v & Hv & Hge).
  apply DoubleFacts.gt_int_ge_rat. exists v. split; [done|].
  apply accumulated_ge; [|done|].
  - rewrite Forall_forall in Hvalid. apply Forall_forall.
    intros s' [_ Hs']%list_elem_of_filter. auto.
  - unfold duration. by rewrite Hq.
Qed.

(** *** The order of the list *)

Lemma weekly_hours_reported cfg shifts uid uname :
  let mine := filter (λ s, Models.user_id s = uid) shifts in
  let week_of s := (year (date s), iso_week (date s)) in
  is_Some (check_weekly_work_hours cfg shifts uid uname) ↔
  ∃ s, s ∈ mine ∧
    Double.gt_int (accumulated week_of (week_of s) mine)
      (MAX_WORK_HOURS_PER_WEEK cfg).
Proof.
  intros mine week_of. rewrite check_weekly_work_hours_spec. fold mine.
  rewrite fmap_is_Some, head_filter_is_Some. split.
  - intros (wk & Hwk & Hover).
    apply elem_of_first_occ, list_elem_of_fmap in Hwk as (s & -> & Hs).
    by exists s.
  - intros (s & Hs & Hover). exists (week_of s). split; [|done].
    apply elem_of_first_occ, list_elem_of_fmap. by exists s.
Qed.

Lemma walk_days_dates cfg uid uname n prev rest1 rest2 :
  date <$> rest1 = date <$> rest2 →
  walk_days cfg uid uname n prev rest1 = walk_days cfg uid uname n prev rest2.
Proof.
  revert rest2 n prev.
  induction rest1 as [|s1 rest1 IH]; intros [|s2 rest2] n prev; csimpl;
    try done.
  intros [= -> Hrest]. repeat case_decide; auto.
Qed.

Lemma sorted_dates_perm l1 l2 :
  l1 ≡ₚ l2 → date <$> sorted_by_date l1 = date <$> sorted_by_date l2.
Proof.
  intros Hp. apply (Sorted_unique Z.le).
  - apply (Sorted_fmap _ (λ a b, date a ≤ date b) Z.le); [done|].
    apply sorted_by_date_sorted.
  - apply (Sorted_fmap _ (λ a b, date a ≤ date b) Z.le); [done|].
    apply sorted_by_date_sorted.
  - by rewrite !sorted_by_date_perm, Hp.
Qed.

(** X24.  Listing the same shifts in another order does not change what
    the consecutive-days rule reports.  It can change what the daily
    rule reports, since the hours of a day are added up as doubles in
    the order of the list: parts of 66, 368 and 46 minutes come to
    8 + 2^-49 hours and are reported, parts of 66, 46 and 368 minutes
    come to 8 hours and are not. *)
Theorem consecutive_days_ignore_the_order cfg :
  (∀ shifts1 shifts2 uid uname,
     shifts1 ≡ₚ shifts2 →
     check_consecutive_work_days cfg shifts1 uid uname =
     check_consecutive_work_days cfg shifts2 uid uname) ∧
  eight_hour_day ≡ₚ eight_hour_day_reordered ∧
  accumulated date monday eight_hour_day =
    Double.Finite (Q2Qc (8 + (1 # 2 ^ 49))) ∧
  accumulated date monday eight_hour_day_reordered =
    Double.Finite (Q2Qc 8) ∧
  check_daily_work_hours Config.defaults eight_hour_day 1 "A" =
    Some (daily_violation Config.defaults 1 "A" eight_hour_day monday) ∧
  check_daily_work_hours Config.defaults eight_hour_day_reordered 1 "A" =
    None.
Proof.
  split_and!.
  - intros shifts1 shifts2 uid uname Hp.
    assert (filter (λ s, Models.user_id s = uid) shifts1
            ≡ₚ filter (λ s, Models.user_id s = uid) shifts2) as Hmine
      by (by rewrite Hp).
    unfold check_consecutive_work_days.
    pose proof (sorted_dates_perm _ _ Hmine) as Hdates.
    destruct (sorted_by_date (filter _ shifts1)) as [|f1 r1],
             (sorted_by_date (filter _ shifts2)) as [|f2 r2];
      try done.
    injection Hdates as -> Hrest. by apply walk_days_dates.
  - unfold eight_hour_day, eight_hour_day_reordered.
    constructor. apply Permutation_swap.
  - apply DoubleFacts.finite_eq. by vm_compute.
  - apply DoubleFacts.finite_eq. by vm_compute.
  - rewrite check_daily_work_hours_spec.
    assert (head (filter
      (λ d, Double.gt_int
         (accumulated date d
            (filter (λ s, Models.user_id s = 1) eight_hour_day))
         (MAX_WORK_HOURS_PER_DAY Config.defaults))
      (first_occ (date <$>
         filter (λ s, Models.user_id s = 1) eight_hour_day)))
      = Some monday) as -> by (by vm_compute).
    done.
  - rewrite check_daily_work_hours_spec. by vm_compute.
Qed.

(** *** Days in a row *)

Lemma no_gap_crossing prev d M :
  (∀ i, 0 ≤ i ≤ M → d + i ≤ prev ∨ prev + 2 ≤ d + i) →
  d ≤ prev → 0 ≤ M → d + M ≤ prev.
Proof.
  intros Hall Hd HM.
  assert (∀ n : nat, Z.of_nat n ≤ M → d + Z.of_nat n ≤ prev) as Hn.
  { induction n as [|n IH]; intros Hle; [lia|].
    destruct (Hall (Z.of_nat (S n))); lia. }
  specialize (Hn (Z.to_nat M)). lia.
Qed.

Lemma streaks_from_run M prev n ds :
  1 ≤ n ≤ M → StronglySorted Z.lt (prev :: ds) →
  Exists (λ k, M < k) (streaks_from prev n ds) ↔
  ∃ d, d + M ∈ ds ∧
    ∀ i, 0 ≤ i ≤ M → prev - n < d + i ≤ prev ∨ d + i ∈ ds.
Proof.
  revert prev n. induction ds as [|d1 ds IH]; intros prev n Hn Hsorted.
  - simpl. split; [by intros ?%Exists_nil|].
    by intros (d & Hd%elem_of_nil & _).
  - apply StronglySorted_inv in Hsorted as [Hsorted Hprev].
    pose proof Hsorted as [_ Hd1]%StronglySorted_inv.
    apply Forall_cons in Hprev as [Hlt _].
    rewrite Forall_forall in Hd1.
    simpl. rewrite Exists_cons.
    destruct (decide (d1 = prev + 1)) as [Hnext|Hgap];
      [rewrite !decide_True by done|rewrite !decide_False by done].
    + destruct (decide (M < n + 1)) as [Hover|Hunder].
      * split; [intros _|by left]. exists (d1 - M). split.
        { replace (d1 - M + M) with d1 by lia. by left. }
        intros i Hi. destruct (decide (i = M)) as [->|Hne]; [|left; lia].
        right. replace (d1 - M + M) with d1 by lia. by left.
      * rewrite IH by (done || lia). split.
        -- intros [?|(d & Hd & Hi)]; [lia|]. exists d.
           split; [by right|]. intros i Hi'.
           destruct (Hi i Hi') as [?|?]; [|by right; right].
           destruct (decide (d + i = d1)) as [->|?]; [right; by left|].
           left. lia.
        -- intros (d & Hd & Hi). right. exists d. split.
           ++ apply elem_of_cons in Hd as [Hd|Hd]; [|done]. exfalso.
              destruct (Hi 0) as [?|Hin]; [lia|lia|].
              rewrite Z.add_0_r in Hin.
              apply elem_of_cons in Hin as [?|Hin]; [lia|].
              apply Hd1 in Hin. lia.
           ++ intros i Hi'. destruct (Hi i Hi') as [?|Hin]; [left; lia|].
              apply elem_of_cons in Hin as [->|?]; [left; lia|by right].
    + rewrite IH by (done || lia). split.
      * intros [?|(d & Hd & Hi)]; [lia|]. exists d.
        split; [by right|]. intros i Hi'.
        destruct (Hi i Hi') as [?|?]; [|by right; right].
        right. replace (d + i) with d1 by lia. by left.
      * intros (d & Hd & Hi). right.
        assert (∀ x, x ∈ d1 :: ds → d1 ≤ x) as Hge.
        { intros x [->|Hx%Hd1]%elem_of_cons; lia. }
        assert (d1 ≤ d) as Hd_ge.
        { destruct (decide (d ≤ prev)) as [Hle|Hgt].
          - pose proof (Hge _ Hd).
            assert (d + M ≤ prev); [|lia].
            apply no_gap_crossing; [|done|lia].
            intros i Hi'. destruct (Hi i Hi') as [?|Hin%Hge]; lia.
          - destruct (Hi 0) as [?|Hin%Hge]; lia. }
        exists d. split.
        -- apply elem_of_cons in Hd as [Hd|Hd]; [lia|done].
        -- intros i Hi'. destruct (Hi i Hi') as [?|Hin]; [lia|].
           apply elem_of_cons in Hin as [Hin|?]; [left; lia|by right].
Qed.

Lemma strictly_sorted ds :
  Sorted Z.le ds → NoDup ds → StronglySorted Z.lt ds.
Proof.
  intros Hs%Sorted_StronglySorted; [|apply _].
  induction Hs as [|d ds Hs IH Hd]; intros Hnd; [constructor|].
  apply NoDup_cons in Hnd as [Hin Hnd]. constructor; [auto|].
  rewrite Forall_forall in Hd. apply Forall_forall. intros x Hx.
  pose proof (Hd x Hx). assert (x ≠ d) by (by intros ->). lia.
Qed.

(** X25.  For a worker with at most one shift a day, the consecutive-days
    rule reports exactly when the worker has shifts on one more than the
    maximum number of days in a row. *)
Theorem consecutive_days_run cfg shifts uid uname :
  let mine := filter (λ s, Models.user_id s = uid) shifts in
  1 ≤ MAX_CONSECUTIVE_WORK_DAYS cfg →
  NoDup (date <$> mine) →
  is_Some (check_consecutive_work_days cfg shifts uid uname) ↔
  ∃ d, ∀ i, 0 ≤ i ≤ MAX_CONSECUTIVE_WORK_DAYS cfg → d + i ∈ date <$> mine.
Proof.
  intros mine Hmax Hnd.
  rewrite check_consecutive_work_days_spec by done. fold mine.
  assert (date <$> sorted_by_date mine ≡ₚ date <$> mine) as Hperm
    by (by rewrite sorted_by_date_perm).
  assert (Sorted Z.le (date <$> sorted_by_date mine)) as Hsorted.
  { apply (Sorted_fmap _ (λ a b, date a ≤ date b) Z.le); [done|].
    apply sorted_by_date_sorted. }
  rewrite <-Hperm in Hnd. setoid_rewrite <-Hperm.
  apply strictly_sorted in Hsorted; [|done].
  set (M := MAX_CONSECUTIVE_WORK_DAYS cfg) in *.
  destruct (date <$> sorted_by_date mine) as [|d0 ds]; simpl.
  - split; [by intros [? [=]]|]. intros (d & Hd).
    assert (0 ≤ 0 ≤ M) as H0 by lia. apply Hd in H0.
    by apply elem_of_nil in H0.
  - rewrite filter_cons_False by lia.
    rewrite fmap_is_Some.
    assert (is_Some (head (filter (λ k, M < k) (streaks_from d0 1 ds)))
            ↔ Exists (λ k, M < k) (streaks_from d0 1 ds)) as ->.
    { generalize (streaks_from d0 1 ds). intros l.
      induction l as [|k l IH]; simpl.
      - split; [by intros [? [=]]|by intros ?%Exists_nil].
      - rewrite filter_cons, Exists_cons. case_decide; simpl.
        + split; [by left|by eauto].
        + rewrite IH. tauto. }
    rewrite streaks_from_run by (done || lia).
    pose proof Hsorted as [_ Hd0]%StronglySorted_inv.
    rewrite Forall_forall in Hd0.
    split.
    + intros (d & Hd & Hi). exists d. intros i Hi'.
      destruct (Hi i Hi') as [?|?]; [|by right].
      replace (d + i) with d0 by lia. by left.
    + intros (d & Hi). exists d.
      assert (∀ i, 0 ≤ i ≤ M → d + i = d0 ∨ d + i ∈ ds) as Hi'
        by (intros i Hle; by apply elem_of_cons, Hi).
      assert (d0 ≤ d) as Hge.
      { destruct (Hi' 0) as [?|Hin%Hd0]; lia. }
      split.
      * destruct (Hi' M) as [?|?]; [lia|lia|done].
      * intros i Hle. destruct (Hi' i Hle) as [?|?]; [left; lia|by right].
Qed.

(** *** An empty report *)

Lemma check_rest_time_None s :
  check_rest_time s = None ↔ (get_duration_hours s ≤ Z2Qc 6)%Qc.
Proof.
  unfold check_rest_time.
  destruct (decide (Z2Qc 6 < get_duration_hours s)%Qc) as [Hlong|Hshort].
  - destruct (decide (get_duration_hours s ≤ Z2Qc 8)%Qc) as [Hle|Hgt].
    + rewrite decide_True by done.
      split; [done|]. intros Hle6. by apply Qcle_not_lt in Hle6.
    + rewrite decide_False by tauto.
      rewrite decide_True by (by apply Qcnot_le_lt).
      split; [done|]. intros Hle6. by apply Qcle_not_lt in Hle6.
  - rewrite decide_False by tauto.
    apply Qcnot_lt_le in Hshort.
    rewrite decide_False; [done|].
    apply Qcle_not_lt. eapply Qcle_trans; [exact Hshort|].
    by apply PlanFacts.Z2Qc_le.
Qed.

Lemma bind_nil {A B} (f : A → list B) l :
  l ≫= f = [] ↔ ∀ x, x ∈ l → f x = [].
Proof.
  induction l as [|x l IH]; csimpl.
  - split; [by intros _ ? ?%elem_of_nil|done].
  - rewrite app_nil, IH. split.
    + intros [Hx Hl] y [->|Hy]%elem_of_cons; auto.
    + intros Hall. split; [apply Hall; by left|].
      intros y Hy. apply Hall. by right.
Qed.

Lemma omap_nil {A B} (f : A → option B) l :
  omap f l = [] ↔ ∀ x, x ∈ l → f x = None.
Proof.
  induction l as [|x l IH]; csimpl.
  - split; [by intros _ ? ?%elem_of_nil|done].
  - destruct (f x) as [y|] eqn:Hfx.
    + split; [done|]. intros Hall.
      specialize (Hall x (list_elem_of_here _ _)). congruence.
    + rewrite IH. split.
      * intros Hl y [->|Hy]%elem_of_cons; auto.
      * intros Hall y Hy. apply Hall. by right.
Qed.

Lemma check_consecutive_work_days_None cfg shifts uid uname :
  1 ≤ MAX_CONSECUTIVE_WORK_DAYS cfg →
  check_consecutive_work_days cfg shifts uid uname = None ↔
  Forall (λ k, k ≤ MAX_CONSECUTIVE_WORK_DAYS cfg)
    (streaks (date <$> sorted_by_date
                (filter (λ s, Models.user_id s = uid) shifts))).
Proof.
  intros Hmax. rewrite check_consecutive_work_days_spec by done.
  rewrite fmap_None.
  generalize (streaks (date <$> sorted_by_date
                (filter (λ s, Models.user_id s = uid) shifts))).
  intros l. induction l as [|k l IH]; simpl.
  - split; [constructor|done].
  - rewrite filter_cons, Forall_cons. case_decide; simpl.
    + split; [done|]. intros [? _]. lia.
    + rewrite IH. split; [|tauto]. intros ?. split; [lia|done].
Qed.

Lemma per_worker_nil cfg shifts u :
  1 ≤ MAX_CONSECUTIVE_WORK_DAYS cfg →
  let mine := filter (λ s, Models.user_id s = u) shifts in
  let week_of s := (year (date s), iso_week (date s)) in
  per_worker cfg shifts u = [] ↔
  ∀ s, s ∈ mine →
    ¬ Double.gt_int (accumulated date (date s) mine)
        (MAX_WORK_HOURS_PER_DAY cfg) ∧
    ¬ Double.gt_int (accumulated week_of (week_of s) mine)
        (MAX_WORK_HOURS_PER_WEEK cfg) ∧
    Forall (λ k, k ≤ MAX_CONSECUTIVE_WORK_DAYS cfg)
      (streaks (date <$> sorted_by_date mine)).
Proof.
  intros Hmax mine week_of. unfold per_worker. fold mine.
  pose proof (daily_hours_reported cfg shifts u) as Hday.
  pose proof (weekly_hours_reported cfg shifts u) as Hweek.
  pose proof (check_consecutive_work_days_None cfg shifts u) as Hrun.
  cbv zeta in Hday, Hweek. fold mine in Hday, Hweek, Hrun.
  fold week_of in Hweek.
  assert (mine = [] ∨ ∃ first rest, mine = first :: rest)
    as [Hmine|(first & rest & Hmine)]
    by (destruct mine; eauto).
  - rewrite Hmine at 1. split; [|done]. intros _ s.
    rewrite Hmine. by intros ?%elem_of_nil.
  - rewrite Hmine at 1. cbv iota.
    rewrite !app_nil.
    assert (∀ o : option LaborLawViolation,
              option_list o = [] ↔ ¬ is_Some o) as Hopt.
    { intros [v|]; simpl.
      - split; [done|]. intros H. destruct H. by eexists.
      - split; [|done]. by intros _ [? [=]]. }
    rewrite !Hopt, Hday, Hweek, <-eq_None_not_Some, Hrun by done.
    split.
    + intros (Hd & Hw & Hr) s Hs. split_and!; [|  |done].
      * intros Hlt. apply Hd. by exists s.
      * intros Hlt. apply Hw. by exists s.
    + intros Hall. split_and!.
      * intros (s & Hs & Hlt). by destruct (Hall s Hs) as (Hd & _).
      * intros (s & Hs & Hlt). by destruct (Hall s Hs) as (_ & Hw & _).
      * destruct (Hall first) as (_ & _ & Hr); [|done].
        rewrite Hmine. by left.
Qed.

(** X26.  The report is empty exactly when, for every shift, the hours
    of its worker on its date and under its week key, added up as
    doubles in the order of the list, are within the caps, the worker
    has no streak over the maximum and the shift is not longer than six
    hours.  The week key of a shift is the calendar year of its date
    with the ISO week number of its date. *)
Theorem no_violations_iff_compliant cfg set_iter shifts :
  1 ≤ MAX_CONSECUTIVE_WORK_DAYS cfg →
  (∀ u, u ∈ Models.user_id <$> shifts →
        u ∈ set_iter (Models.user_id <$> shifts)) →
  check_all_violations cfg set_iter shifts = [] ↔
  ∀ s, s ∈ shifts →
    let mine := filter (λ s', Models.user_id s' = Models.user_id s) shifts in
    let week_of s' := (year (date s'), iso_week (date s')) in
    ¬ Double.gt_int (accumulated date (date s) mine)
        (MAX_WORK_HOURS_PER_DAY cfg) ∧
    ¬ Double.gt_int (accumulated week_of (week_of s) mine)
        (MAX_WORK_HOURS_PER_WEEK cfg) ∧
    Forall (λ k, k ≤ MAX_CONSECUTIVE_WORK_DAYS cfg)
      (streaks (date <$> sorted_by_date mine)) ∧
    (get_duration_hours s ≤ Z2Qc 6)%Qc.
Proof.
  intros Hmax Hcover.
  rewrite check_all_violations_unfold, app_nil, bind_nil, omap_nil.
  split.
  - intros [Hworkers Hrest] s Hs. cbv zeta.
    assert (Models.user_id s ∈ Models.user_id <$> shifts) as Hu
      by (apply list_elem_of_fmap; by exists s).
    apply Hcover, Hworkers in Hu.
    pose proof (proj1 (per_worker_nil cfg shifts _ Hmax) Hu) as Hmine.
    destruct (Hmine s) as (Hd & Hw & Hr); [by apply list_elem_of_filter|].
    split_and!; [done..|]. by apply check_rest_time_None, Hrest.
  - intros Hall. split.
    + intros u _. apply (per_worker_nil cfg shifts u Hmax).
      intros s [Hsu Hs]%list_elem_of_filter.
      destruct (Hall s Hs) as (Hd & Hw & Hr & _). by rewrite Hsu in *.
    + intros s Hs. apply check_rest_time_None. by apply Hall.
Qed.

(** *** The statistics of [validate_shifts] *)

Lemma min_date_spec first rest :
  Planning.min_date first rest ∈ first :: rest ∧
  ∀ d, d ∈ first :: rest → Planning.min_date first rest ≤ d.
Proof.
  unfold Planning.min_date. revert first.
  induction rest as [|x rest IH]; intros first; simpl.
  - split; [by left|]. intros d ->%list_elem_of_singleton. lia.
  - destruct (IH (Z.min first x)) as [Hin Hle]. split.
    + apply elem_of_cons in Hin as [->|Hin]; [|by do 2 right].
      destruct (Z.min_spec first x) as [[_ ->]|[_ ->]];
        [by left|right; by left].
    + intros d Hd.
      assert (Z.min first x ≤ d ∨ d ∈ rest) as [?|Hd'].
      { rewrite !elem_of_cons in Hd. destruct Hd as [->|[->|?]]; auto; lia. }
      * etrans; [|done]. apply Hle. by left.
      * apply Hle. by right.
Qed.

Lemma max_date_spec first rest :
  Planning.max_date first rest ∈ first :: rest ∧
  ∀ d, d ∈ first :: rest → d ≤ Planning.max_date first rest.
Proof.
  unfold Planning.max_date. revert first.
  induction rest as [|x rest IH]; intros first; simpl.
  - split; [by left|]. intros d ->%list_elem_of_singleton. lia.
  - destruct (IH (Z.max first x)) as [Hin Hle]. split.
    + apply elem_of_cons in Hin as [->|Hin]; [|by do 2 right].
      destruct (Z.max_spec first x) as [[_ ->]|[_ ->]];
        [right; by left|by left].
    + intros d Hd.
      assert (d ≤ Z.max first x ∨ d ∈ rest) as [?|Hd'].
      { rewrite !elem_of_cons in Hd. destruct Hd as [->|[->|?]]; auto; lia. }
      * etrans; [done|]. apply Hle. by left.
      * apply Hle. by right.
Qed.

(** X27.  The statistics of [validate_shifts]: the workers counted are the
    distinct worker ids, never more than the shifts; the date range runs
    from the earliest to the latest date of the list and is missing
    exactly for the empty list. *)
Theorem validate_shifts_stats cfg set_iter shifts :
  NoDup (set_iter (Models.user_id <$> shifts)) →
  (∀ u, u ∈ set_iter (Models.user_id <$> shifts)
        ↔ u ∈ Models.user_id <$> shifts) →
  let stats := Planning.validate_shifts cfg set_iter shifts in
  Planning.unique_users stats
    = length (remove_dups (Models.user_id <$> shifts)) ∧
  (Planning.unique_users stats ≤ Planning.total_shifts stats)%nat ∧
  (shifts = [] →
     Planning.range_start stats = None ∧ Planning.range_end stats = None) ∧
  (shifts ≠ [] →
     ∃ lo hi,
       Planning.range_start stats = Some lo ∧
       Planning.range_end stats = Some hi ∧
       lo ∈ date <$> shifts ∧ hi ∈ date <$> shifts ∧
       ∀ s, s ∈ shifts → lo ≤ date s ≤ hi).
Proof.
  intros Hnd Hset stats. subst stats. unfold Planning.validate_shifts. simpl.
  assert (set_iter (Models.user_id <$> shifts)
          ≡ₚ remove_dups (Models.user_id <$> shifts)) as Hperm.
  { apply NoDup_Permutation; [done|apply NoDup_remove_dups|].
    intros u. by rewrite Hset, elem_of_remove_dups. }
  split_and!.
  - by rewrite Hperm.
  - rewrite <-(length_fmap Models.user_id shifts).
    apply submseteq_length, NoDup_submseteq; [done|].
    intros u. by rewrite Hset.
  - by intros ->.
  - intros Hne. destruct shifts as [|s0 rest]; [done|]. csimpl.
    destruct (min_date_spec (date s0) (date <$> rest)) as [Hlo_in Hlo].
    destruct (max_date_spec (date s0) (date <$> rest)) as [Hhi_in Hhi].
    eexists _, _. split_and!; [done..|].
    intros s Hs.
    assert (date s ∈ date s0 :: (date <$> rest)) as Hd.
    { change (date s ∈ date <$> s0 :: rest).
      apply list_elem_of_fmap. by exists s. }
    split; [by apply Hlo|by apply Hhi].
Qed.
End RuleFacts.

(** ** What [create_shifts] returns *)
Module CreatedFacts.
Import Calendar Models Optimizer Planning OptimizerFacts PlanFacts.

Lemma Forall2_elem_r {A B} (R : A → B → Prop) l k y :
  Forall2 R l k → y ∈ k → ∃ x, x ∈ l ∧ R x y.
Proof.
  induction 1 as [|x y' l k HR _ IH]; intros Hy.
  - by apply elem_of_nil in Hy.
  - apply elem_of_cons in Hy as [->|Hy].
    + exists x. split; [by left|done].
    + destruct (IH Hy) as (x' & ? & ?). exists x'. split; [by right|done].
Qed.

(** X28.  Every shift that [create_shifts] returns is for an active worker
    of the list and a day of the range, and lasts as long as a request
    of that worker for that day. *)
Theorem created_shifts_come_from_requests solved_status value reqs group_id
    created_by now start_date end_date users created shift :
  NoDup (ShiftRequest.id <$> reqs) →
  create_shifts solved_status value reqs group_id created_by now
    start_date end_date users = Some created →
  shift ∈ created →
  (∃ user, user ∈ users ∧ is_active user = true ∧
           uid user = user_id shift) ∧
  start_date ≤ date shift ≤ end_date ∧
  ∃ r, r ∈ reqs ∧ ShiftRequest.user_id r = user_id shift ∧
       ShiftRequest.date r = date shift ∧
       get_duration_hours shift = ShiftRequestMethods.get_duration_hours r.
Proof.
  intros Hids Hres Hshift.
  destruct (decide (solved_status = LpStatusOptimal)) as [->|Hother].
  - pose proof (created_answers _ _ _ _ _ _ _ _ _ Hids Hres) as Hans.
    destruct (Forall2_elem_r _ _ _ _ Hans Hshift)
      as (var & [_ Hvar]%list_elem_of_filter & r & Hr & Horig & ->).
    apply decision_variables_spec in Hvar as (Huser & Hrange & _).
    destruct Horig as (_ & Hu & Hd). simpl.
    rewrite Hu, Hd. split; [done|]. split; [done|].
    exists r. by split_and!.
  - unfold create_shifts in Hres. rewrite decide_False in Hres by done.
    injection Hres as <-. by apply elem_of_nil in Hshift.
Qed.
End CreatedFacts.

Module CreatedWitnesses.
Import Calendar Models Optimizer Planning Examples CreatedFacts.

Lemma created_shifts_come_from_requests_witness :
  NoDup (ShiftRequest.id <$> two_requests) ∧
  create_shifts LpStatusOptimal all_selected two_requests "2024-03-W10" 5
    100 monday (monday + 6) two_workers
  = Some (shift_from "2024-03-W10" 5 100 <$> two_requests) ∧
  monday ≤ monday ≤ monday + 6.
Proof.
  assert (NoDup (ShiftRequest.id <$> two_requests)) as Hnd
    by (apply (bool_decide_unpack _); vm_compute; exact I).
  assert (create_shifts LpStatusOptimal all_selected two_requests
            "2024-03-W10" 5 100 monday (monday + 6) two_workers
          = Some (shift_from "2024-03-W10" 5 100 <$> two_requests)) as Hres
    by (vm_compute; reflexivity).
  split_and!; [exact Hnd|exact Hres|..];
    apply (created_shifts_come_from_requests LpStatusOptimal all_selected
             two_requests "2024-03-W10" 5 100 monday (monday + 6)
             two_workers _
             (shift_from "2024-03-W10" 5 100
                (ShiftRequest.mk 11 1 monday (Some (mkTime 9 0))
                   (Some (mkTime 17 0)) 1 ShiftRequest.PENDING))
             Hnd Hres); by left.
Defined.
End CreatedWitnesses.

(** ** The theorems at concrete inputs *)
Module PlanWitnesses.
Import Calendar Models Config Optimizer Planning Examples PlanFacts.

Lemma one_shift_per_worker_and_day_witness :
  NoDup (ShiftRequest.id <$> two_requests) ∧
  feasible Config.defaults all_selected two_workers two_requests
    monday (monday + 6) ∧
  create_shifts LpStatusOptimal all_selected two_requests "2024-03-W10" 5
    100 monday (monday + 6) two_workers
  = Some (shift_from "2024-03-W10" 5 100 <$> two_requests) ∧
  (length (filter (λ shift, user_id shift = 1%Z ∧ date shift = monday)
             (shift_from "2024-03-W10" 5 100 <$> two_requests)) ≤ 1)%nat.
Proof.
  assert (NoDup (ShiftRequest.id <$> two_requests)) as Hnd
    by (apply (bool_decide_unpack _); vm_compute; exact I).
  assert (feasible Config.defaults all_selected two_workers two_requests
            monday (monday + 6)) as Hsol
    by (apply (bool_decide_unpack _); vm_compute; exact I).
  assert (create_shifts LpStatusOptimal all_selected two_requests
            "2024-03-W10" 5 100 monday (monday + 6) two_workers
          = Some (shift_from "2024-03-W10" 5 100 <$> two_requests)) as Hres
    by (vm_compute; reflexivity).
  split_and!; [exact Hnd|exact Hsol|exact Hres|].
  exact (one_shift_per_worker_and_day Config.defaults all_selected
           two_requests "2024-03-W10" 5 100 monday (monday + 6) two_workers
           _ 1 monday Hnd Hsol Hres).
Defined.

Lemma staff_per_day_within_bounds_witness :
  NoDup (ShiftRequest.id <$> two_requests) ∧
  feasible Config.defaults all_selected two_workers two_requests
    monday (monday + 6) ∧
  create_shifts LpStatusOptimal all_selected two_requests "2024-03-W10" 5
    100 monday (monday + 6) two_workers
  = Some (shift_from "2024-03-W10" 5 100 <$> two_requests) ∧
  2 ≤ Z.of_nat
        (length (filter (λ shift, date shift = monday)
                   (shift_from "2024-03-W10" 5 100 <$> two_requests)))
    ≤ 10.
Proof.
  assert (NoDup (ShiftRequest.id <$> two_requests)) as Hnd
    by (apply (bool_decide_unpack _); vm_compute; exact I).
  assert (feasible Config.defaults all_selected two_workers two_requests
            monday (monday + 6)) as Hsol
    by (apply (bool_decide_unpack _); vm_compute; exact I).
  assert (create_shifts LpStatusOptimal all_selected two_requests
            "2024-03-W10" 5 100 monday (monday + 6) two_workers
          = Some (shift_from "2024-03-W10" 5 100 <$> two_requests)) as Hres
    by (vm_compute; reflexivity).
  split_and!; [exact Hnd|exact Hsol|exact Hres|..];
    apply (staff_per_day_within_bounds Config.defaults all_selected
             two_requests "2024-03-W10" 5 100 monday (monday + 6)
             two_workers _ (mkUser 1 "A" true)
             (ShiftRequest.mk 11 1 monday (Some (mkTime 9 0))
                (Some (mkTime 17 0)) 1 ShiftRequest.PENDING)
             Hnd Hsol Hres);
    first [by left | reflexivity | (simpl; unfold monday; lia)].
Defined.

Lemma days_per_week_capped_witness :
  NoDup (ShiftRequest.id <$> two_requests) ∧
  feasible Config.defaults all_selected two_workers two_requests
    monday (monday + 6) ∧
  create_shifts LpStatusOptimal all_selected two_requests "2024-03-W10" 5
    100 monday (monday + 6) two_workers
  = Some (shift_from "2024-03-W10" 5 100 <$> two_requests) ∧
  monday ∈ _get_week_starts (_generate_date_range monday (monday + 6)) ∧
  Z.of_nat
    (length (filter (λ shift, user_id shift = 1 ∧
                              monday ≤ date shift ≤ monday + 6)
               (shift_from "2024-03-W10" 5 100 <$> two_requests)))
  ≤ 5.
Proof.
  assert (NoDup (ShiftRequest.id <$> two_requests)) as Hnd
    by (apply (bool_decide_unpack _); vm_compute; exact I).
  assert (feasible Config.defaults all_selected two_workers two_requests
            monday (monday + 6)) as Hsol
    by (apply (bool_decide_unpack _); vm_compute; exact I).
  assert (create_shifts LpStatusOptimal all_selected two_requests
            "2024-03-W10" 5 100 monday (monday + 6) two_workers
          = Some (shift_from "2024-03-W10" 5 100 <$> two_requests)) as Hres
    by (vm_compute; reflexivity).
  assert (monday ∈ _get_week_starts (_generate_date_range monday (monday + 6)))
    as Hweek by (apply (bool_decide_unpack _); vm_compute; exact I).
  assert (0 ≤ MAX_WORK_HOURS_PER_WEEK Config.defaults) as Hcap
    by (simpl; lia).
  split_and!; [exact Hnd|exact Hsol|exact Hres|exact Hweek|].
  exact (days_per_week_capped Config.defaults all_selected two_requests
           "2024-03-W10" 5 100 monday (monday + 6) two_workers _ 1 monday
           Hnd Hsol Hres Hcap Hweek).
Defined.
End PlanWitnesses.

Module RuleWitnesses.
Import Calendar Models Config LaborLaw DictFacts LaborLawFacts RuleNotions
  RuleFacts Planning Examples.

(** A nine-hour day among five is reported for its worker. *)
Lemma overlong_shift_is_reported_witness :
  Forall valid_times two_overworked ∧
  (Z2Qc 8 < get_duration_hours (shift_on 2 monday 9 0 18 0))%Qc ∧
  is_Some (check_daily_work_hours Config.defaults two_overworked 2 "B").
Proof.
  assert (Forall valid_times two_overworked) as Hvalid.
  { apply Forall_app. split; apply Forall_fmap, Forall_forall; intros i _;
      unfold valid_times, valid_time; simpl; lia. }
  assert (Z2Qc 8 < get_duration_hours (shift_on 2 monday 9 0 18 0))%Qc
    as Hlong by (vm_compute; reflexivity).
  split_and!; [exact Hvalid|exact Hlong|].
  apply (overlong_shift_is_reported Config.defaults two_overworked
           (shift_on 2 monday 9 0 18 0) "B" Hvalid); [|exact Hlong].
  unfold two_overworked. apply elem_of_app. right. by left.
Defined.

(** Two shifts in either order. *)
Lemma consecutive_days_ignore_the_order_witness :
  [night_shift; open_ended] ≡ₚ [open_ended; night_shift] ∧
  check_consecutive_work_days Config.defaults [night_shift; open_ended] 1 "A"
  = check_consecutive_work_days Config.defaults [open_ended; night_shift] 1
      "A".
Proof.
  assert ([night_shift; open_ended] ≡ₚ [open_ended; night_shift]) as Hperm
    by apply perm_swap.
  split; [exact Hperm|].
  exact (proj1 (consecutive_days_ignore_the_order Config.defaults)
           _ _ 1 "A" Hperm).
Defined.

(** Seven days in a row, one shift a day, against a maximum of six. *)
Lemma consecutive_days_run_witness :
  1 ≤ MAX_CONSECUTIVE_WORK_DAYS Config.defaults ∧
  NoDup (date <$> filter (λ s, Models.user_id s = 1) seven_days) ∧
  (is_Some (check_consecutive_work_days Config.defaults seven_days 1 "A") ↔
   ∃ d, ∀ i, 0 ≤ i ≤ 6 →
     d + i ∈ date <$> filter (λ s, Models.user_id s = 1) seven_days).
Proof.
  assert (1 ≤ MAX_CONSECUTIVE_WORK_DAYS Config.defaults) as Hmax
    by (simpl; lia).
  assert (NoDup (date <$> filter (λ s, Models.user_id s = 1) seven_days))
    as Hnd by (apply (bool_decide_unpack _); vm_compute; exact I).
  split_and!; [exact Hmax|exact Hnd|].
  exact (consecutive_days_run Config.defaults seven_days 1 "A" Hmax Hnd).
Defined.

(** One six-hour shift: nothing to report. *)
Lemma no_violations_iff_compliant_witness :
  1 ≤ MAX_CONSECUTIVE_WORK_DAYS Config.defaults ∧
  (∀ u, u ∈ Models.user_id <$> [shift_on 1 monday 9 0 15 0] →
        u ∈ in_order_of_appearance
              (Models.user_id <$> [shift_on 1 monday 9 0 15 0])) ∧
  check_all_violations Config.defaults in_order_of_appearance
    [shift_on 1 monday 9 0 15 0] = [] ∧
  (get_duration_hours (shift_on 1 monday 9 0 15 0) ≤ Z2Qc 6)%Qc.
Proof.
  assert (1 ≤ MAX_CONSECUTIVE_WORK_DAYS Config.defaults) as Hmax
    by (simpl; lia).
  assert (∀ u, u ∈ Models.user_id <$> [shift_on 1 monday 9 0 15 0] →
               u ∈ in_order_of_appearance
                     (Models.user_id <$> [shift_on 1 monday 9 0 15 0]))
    as Hcover by (intros u Hu; by apply elem_of_first_occ).
  assert (check_all_violations Config.defaults in_order_of_appearance
            [shift_on 1 monday 9 0 15 0] = []) as Hnone
    by (vm_compute; reflexivity).
  split_and!; [exact Hmax|exact Hcover|exact Hnone|].
  destruct (proj1 (no_violations_iff_compliant Config.defaults
                     in_order_of_appearance [shift_on 1 monday 9 0 15 0]
                     Hmax Hcover) Hnone (shift_on 1 monday 9 0 15 0))
    as (_ & _ & _ & Hshort); [by left|exact Hshort].
Defined.

(** Ten shifts of two workers over five days. *)
Lemma validate_shifts_stats_witness :
  NoDup (in_order_of_appearance (Models.user_id <$> two_overworked)) ∧
  (∀ u, u ∈ in_order_of_appearance (Models.user_id <$> two_overworked)
        ↔ u ∈ Models.user_id <$> two_overworked) ∧
  (unique_users
     (validate_shifts Config.defaults in_order_of_appearance two_overworked)
   ≤ total_shifts
       (validate_shifts Config.defaults in_order_of_appearance
          two_overworked))%nat.
Proof.
  assert (NoDup (in_order_of_appearance (Models.user_id <$> two_overworked)))
    as Hnd by apply NoDup_first_occ.
  assert (∀ u, u ∈ in_order_of_appearance
                     (Models.user_id <$> two_overworked)
               ↔ u ∈ Models.user_id <$> two_overworked) as Hset
    by (intros u; apply elem_of_first_occ).
  split_and!; [exact Hnd|exact Hset|].
  exact (proj1 (proj2 (validate_shifts_stats Config.defaults
                         in_order_of_appearance two_overworked Hnd Hset))).
Defined.
End RuleWitnesses.
